(** * Traffic junction environment (ma_gym/envs/traffic_junction/traffic_junction.py)

    A shallow embedding of the [TrafficJunction] class and the properties of
    its specification.

    Conventions of the embedding.
    - Python integers are [Z]; agent slots (always drawn from [range]) are [nat].
    - Python lists indexed by slot are [list]s read with [!!] and written with
      [<[_:=_]>]; an index out of range raises [IndexError].
    - [agent_pos] is a Python dict keyed by slot: a [gmap nat pos]; a missing
      key raises [KeyError].
    - The grid [_full_obs] is a list of rows of cell tags, the strings of
      [PRE_IDS]: ["W"], ["0"] and ["A" ++ str(slot + 1)].
    - Rewards and observation entries are Python floats; they are modelled by
      exact rationals [Q].
    - The module-level generator of [random] is the list of its future raw
      outputs; a call consumes the head.  A computation that needs more
      outputs than the list holds is [Starved]: this is how a [while True]
      loop that has not stopped yet shows.
    - A Python exception leaves the object as it was mutated so far, so a
      raised result carries the state. *)

From Stdlib Require Import ZArith QArith Lia.
From stdpp Require Import base list gmap strings pretty.

Open Scope Z_scope.

(** ** Data *)

Definition pos : Type := Z * Z.

Inductive exn : Type :=
| AssertionError
| ActionNotFound
| IndexError
| KeyError
| UnboundLocalError
| ZeroDivisionError.

(** The arguments of [__init__].  [n_agents_arg] is the constructor's
    [n_agents], which the class only stores as [_inital_agents]; the attribute
    [self.n_agents] is [n_max]. *)
Record config : Type := {
  grid_rows : Z;
  grid_cols : Z;
  n_agents_arg : nat;
  n_max : nat;
  rcoll : Q;
  arrive_prob : Q;
  full_observable : bool
}.

Definition n_agents (cfg : config) : nat := n_max cfg.
Definition _max_steps : Z := 100.
Definition _step_cost : Q := 0%Q.

(** The mutable attributes of the object. *)
Record state : Type := {
  _step_count : Z;
  _total_episode_reward : list Q;
  curr_cars_count : Z;
  _agent_turned : list bool;
  _agents_routes : list Z;
  _agents_direction : list pos;
  agent_pos : gmap nat pos;
  on_the_road : list bool;
  _full_obs : list (list string);
  _agent_dones : list bool;
  np_random : option Z
}.

Definition set_step_count (v : Z) (s : state) : state :=
  {| _step_count := v; _total_episode_reward := _total_episode_reward s;
     curr_cars_count := curr_cars_count s; _agent_turned := _agent_turned s;
     _agents_routes := _agents_routes s; _agents_direction := _agents_direction s;
     agent_pos := agent_pos s; on_the_road := on_the_road s;
     _full_obs := _full_obs s; _agent_dones := _agent_dones s;
     np_random := np_random s |}.

Definition set_total_episode_reward (v : list Q) (s : state) : state :=
  {| _step_count := _step_count s; _total_episode_reward := v;
     curr_cars_count := curr_cars_count s; _agent_turned := _agent_turned s;
     _agents_routes := _agents_routes s; _agents_direction := _agents_direction s;
     agent_pos := agent_pos s; on_the_road := on_the_road s;
     _full_obs := _full_obs s; _agent_dones := _agent_dones s;
     np_random := np_random s |}.

Definition set_cars_count (v : Z) (s : state) : state :=
  {| _step_count := _step_count s; _total_episode_reward := _total_episode_reward s;
     curr_cars_count := v; _agent_turned := _agent_turned s;
     _agents_routes := _agents_routes s; _agents_direction := _agents_direction s;
     agent_pos := agent_pos s; on_the_road := on_the_road s;
     _full_obs := _full_obs s; _agent_dones := _agent_dones s;
     np_random := np_random s |}.

Definition set_agent_turned (v : list bool) (s : state) : state :=
  {| _step_count := _step_count s; _total_episode_reward := _total_episode_reward s;
     curr_cars_count := curr_cars_count s; _agent_turned := v;
     _agents_routes := _agents_routes s; _agents_direction := _agents_direction s;
     agent_pos := agent_pos s; on_the_road := on_the_road s;
     _full_obs := _full_obs s; _agent_dones := _agent_dones s;
     np_random := np_random s |}.

Definition set_agents_routes (v : list Z) (s : state) : state :=
  {| _step_count := _step_count s; _total_episode_reward := _total_episode_reward s;
     curr_cars_count := curr_cars_count s; _agent_turned := _agent_turned s;
     _agents_routes := v; _agents_direction := _agents_direction s;
     agent_pos := agent_pos s; on_the_road := on_the_road s;
     _full_obs := _full_obs s; _agent_dones := _agent_dones s;
     np_random := np_random s |}.

Definition set_agents_direction (v : list pos) (s : state) : state :=
  {| _step_count := _step_count s; _total_episode_reward := _total_episode_reward s;
     curr_cars_count := curr_cars_count s; _agent_turned := _agent_turned s;
     _agents_routes := _agents_routes s; _agents_direction := v;
     agent_pos := agent_pos s; on_the_road := on_the_road s;
     _full_obs := _full_obs s; _agent_dones := _agent_dones s;
     np_random := np_random s |}.

Definition set_agent_pos (v : gmap nat pos) (s : state) : state :=
  {| _step_count := _step_count s; _total_episode_reward := _total_episode_reward s;
     curr_cars_count := curr_cars_count s; _agent_turned := _agent_turned s;
     _agents_routes := _agents_routes s; _agents_direction := _agents_direction s;
     agent_pos := v; on_the_road := on_the_road s;
     _full_obs := _full_obs s; _agent_dones := _agent_dones s;
     np_random := np_random s |}.

Definition set_on_the_road (v : list bool) (s : state) : state :=
  {| _step_count := _step_count s; _total_episode_reward := _total_episode_reward s;
     curr_cars_count := curr_cars_count s; _agent_turned := _agent_turned s;
     _agents_routes := _agents_routes s; _agents_direction := _agents_direction s;
     agent_pos := agent_pos s; on_the_road := v;
     _full_obs := _full_obs s; _agent_dones := _agent_dones s;
     np_random := np_random s |}.

Definition set_full_obs (v : list (list string)) (s : state) : state :=
  {| _step_count := _step_count s; _total_episode_reward := _total_episode_reward s;
     curr_cars_count := curr_cars_count s; _agent_turned := _agent_turned s;
     _agents_routes := _agents_routes s; _agents_direction := _agents_direction s;
     agent_pos := agent_pos s; on_the_road := on_the_road s;
     _full_obs := v; _agent_dones := _agent_dones s;
     np_random := np_random s |}.

Definition set_agent_dones (v : list bool) (s : state) : state :=
  {| _step_count := _step_count s; _total_episode_reward := _total_episode_reward s;
     curr_cars_count := curr_cars_count s; _agent_turned := _agent_turned s;
     _agents_routes := _agents_routes s; _agents_direction := _agents_direction s;
     agent_pos := agent_pos s; on_the_road := on_the_road s;
     _full_obs := _full_obs s; _agent_dones := v;
     np_random := np_random s |}.

Definition set_np_random (v : option Z) (s : state) : state :=
  {| _step_count := _step_count s; _total_episode_reward := _total_episode_reward s;
     curr_cars_count := curr_cars_count s; _agent_turned := _agent_turned s;
     _agents_routes := _agents_routes s; _agents_direction := _agents_direction s;
     agent_pos := agent_pos s; on_the_road := on_the_road s;
     _full_obs := _full_obs s; _agent_dones := _agent_dones s;
     np_random := v |}.

(** ** The state, generator and exception monad *)

Definition rng : Type := list N.

Inductive result (A : Type) : Type :=
| Returns (a : A) (s : state) (g : rng)
| Raises (e : exn) (s : state) (g : rng)
| Starved.
Arguments Returns {A} a s g.
Arguments Raises {A} e s g.
Arguments Starved {A}.

Definition M (A : Type) : Type := state → rng → result A.

Definition ret {A} (a : A) : M A := λ s g, Returns a s g.

Definition bind {A B} (m : M A) (f : A → M B) : M B :=
  λ s g, match m s g with
         | Returns a s' g' => f a s' g'
         | Raises e s' g' => Raises e s' g'
         | Starved => Starved
         end.

#[global] Instance M_ret : MRet M := @ret.
#[global] Instance M_bind : MBind M := λ A B f m, bind m f.

Definition raise {A} (e : exn) : M A := λ s g, Raises e s g.

(** Read something of the object; [None] is the exception [e]. *)
Definition gets {A} (e : exn) (f : state → option A) : M A :=
  λ s g, match f s with Some a => Returns a s g | None => Raises e s g end.

(** Read something that is always there. *)
Definition reads {A} (f : state → A) : M A := λ s g, Returns (f s) s g.

Definition modify (f : state → state) : M unit := λ s g, Returns tt (f s) g.

(** One raw output of the generator. *)
Definition draw : M N :=
  λ s g, match g with [] => Starved | d :: g' => Returns d s g' end.

(** [for x in l: acc = body(acc, x)] *)
Fixpoint foldM {A B} (body : B → A → M B) (l : list A) (acc : B) : M B :=
  match l with
  | [] => ret acc
  | x :: l' => acc' ← body acc x; foldM body l' acc'
  end.

Definition for_each {A} (l : list A) (body : A → M unit) : M unit :=
  foldM (λ _ x, body x) l tt.

(** [while True: if body(): break].  Every body below consumes an output of
    the generator first, so one more round than there are outputs left is
    never reached before [Starved]. *)
Fixpoint repeat_until (fuel : nat) (body : M bool) : M unit :=
  match fuel with
  | O => λ _ _, Starved
  | S fuel' => stop ← body; if stop : bool then ret tt else repeat_until fuel' body
  end.

Definition while_true (body : M bool) : M unit :=
  λ s g, repeat_until (S (length g)) body s g.

(** ** Python sequence access *)

(** [l[i]] for a Python integer [i]: negative indices count from the end. *)
Definition py_index (len i : Z) : option nat :=
  if (0 <=? i) && (i <? len) then Some (Z.to_nat i)
  else if (- len <=? i) && (i <? 0) then Some (Z.to_nat (len + i))
  else None.

Definition py_get {A} (l : list A) (i : Z) : option A :=
  k ← py_index (Z.of_nat (length l)) i; l !! k.

Definition py_set {A} (l : list A) (i : Z) (v : A) : option (list A) :=
  k ← py_index (Z.of_nat (length l)) i; Some (<[k:=v]> l).

(** [l[i] = v] for a slot [i]. *)
Definition list_set {A} (l : list A) (i : nat) (v : A) : option (list A) :=
  if decide (i < length l)%nat then Some (<[i:=v]> l) else None.

Definition grid_get (grid : list (list string)) (p : pos) : option string :=
  row ← py_get grid p.1; py_get row p.2.

Definition grid_set (grid : list (list string)) (p : pos) (v : string)
  : option (list (list string)) :=
  row ← py_get grid p.1; row' ← py_set row p.2 v; py_set grid p.1 row'.

(** A dict literal or assignment on an insertion-ordered association list. *)
Fixpoint dict_set {K V} `{EqDecision K} (k : K) (v : V) (d : list (K * V))
  : list (K * V) :=
  match d with
  | [] => [(k, v)]
  | (k', v') :: d' => if decide (k = k') then (k, v) :: d' else (k', v') :: dict_set k v d'
  end.

Fixpoint dict_get {K V} `{EqDecision K} (k : K) (d : list (K * V)) : option V :=
  match d with
  | [] => None
  | (k', v') :: d' => if decide (k = k') then Some v' else dict_get k d'
  end.

(** ** PRE_IDS and the tests the class makes on cell tags *)

Definition PRE_wall : string := "W".
Definition PRE_empty : string := "0".
Definition PRE_agent : string := "A".

Definition agent_tag (agent_i : nat) : string := PRE_agent +:+ pretty (agent_i + 1)%nat.

(** [PRE_IDS['agent'] in tag], also [tag.find(PRE_IDS['agent']) > -1]. *)
Fixpoint has_agent (tag : string) : bool :=
  match tag with
  | EmptyString => false
  | String c tag' => if Ascii.eqb c (Ascii.ascii_of_nat 65) then true else has_agent tag'
  end.

Definition is_empty_tag (tag : string) : bool := String.eqb tag PRE_empty.

(** ** Topology, as [__init__] derives it from the grid shape *)

Section Topology.
Context (cfg : config).
Let R := grid_rows cfg.
Let C := grid_cols cfg.

Definition _entry_gates : list pos :=
  [(R `div` 2, 0); (R - 1, C `div` 2); (0, C `div` 2 - 1); (R `div` 2 - 1, C - 1)].

Definition _destination : list pos :=
  [(R `div` 2, C - 1); (0, C `div` 2); (R - 1, C `div` 2 - 1); (R `div` 2 - 1, 0)].

Definition _turning_places : list (pos * (pos * pos)) :=
  dict_set (0, -1) ((R `div` 2 - 1, R `div` 2), (R `div` 2 - 1, R `div` 2 - 1))
 (dict_set (1, 0) ((R `div` 2 - 1, R `div` 2 - 1), (R `div` 2, R `div` 2 - 1))
 (dict_set (-1, 0) ((R `div` 2, R `div` 2), (R `div` 2 - 1, R `div` 2))
 (dict_set (0, 1) ((R `div` 2, R `div` 2 - 1), (R `div` 2, R `div` 2)) []))).

Definition _route_vectors : list (pos * pos) :=
  dict_set (R `div` 2 - 1, R - 1) (0, -1)
 (dict_set (0, R `div` 2 - 1) (1, 0)
 (dict_set (R - 1, R `div` 2) (-1, 0)
 (dict_set (R `div` 2, 0) (0, 1) []))).

Definition is_valid (p : pos) : bool :=
  (0 <=? p.1) && (p.1 <? R) && ((0 <=? p.2) && (p.2 <? C)).

(** [__create_grid] (the second definition of that name, which is the one
    the class keeps): walls everywhere, then the two middle rows and the two
    middle columns emptied.  [None] is an [IndexError]. *)
Definition __create_grid : option (list (list string)) :=
  let nR := Z.to_nat R in
  let nC := Z.to_nat C in
  let g0 := replicate nR (replicate nC PRE_wall) in
  g1 ← py_set g0 (R `div` 2 - 1) (replicate nC PRE_empty);
  g2 ← py_set g1 (R `div` 2) (replicate nC PRE_empty);
  foldl (λ og row,
           g ← og;
           ga ← grid_set g (Z.of_nat row, C `div` 2 - 1) PRE_empty;
           grid_set ga (Z.of_nat row, C `div` 2) PRE_empty)
        (Some g2) (seq 0 nR).
End Topology.

Definition default_config : config :=
  {| grid_rows := 14; grid_cols := 14; n_agents_arg := 4; n_max := 4;
     rcoll := (-10)%Q; arrive_prob := (1 # 2)%Q; full_observable := false |}.

(** ** The [random] module *)

(** [random.random()]: a 53-bit integer scaled into [0, 1). *)
Definition random_random : M Q :=
  d ← draw; ret (inject_Z (Z.of_N d `mod` 2 ^ 53) / inject_Z (2 ^ 53))%Q.

(** [random.uniform(a, b)] is [a + (b - a) * random()]. *)
Definition random_uniform (a b : Q) : M Q :=
  u ← random_random; ret (a + (b - a) * u)%Q.

(** [random.randint(a, b)], both ends included. *)
Definition random_randint (a b : Z) : M Z :=
  d ← draw; ret (a + Z.of_N d `mod` (b - a + 1)).

(** [random.choice(l)]; an empty sequence raises [IndexError]. *)
Definition random_choice {A} (l : list A) : M A :=
  d ← draw; gets IndexError (λ _, l !! (N.to_nat d `mod` length l)%nat).

Definition Qlt_bool (x y : Q) : bool := negb (Qle_bool y x).

(** ** Reading and writing the attributes *)

Definition get_pos (agent_i : nat) : M pos :=
  gets KeyError (λ s, agent_pos s !! agent_i).
Definition get_direction (agent_i : nat) : M pos :=
  gets IndexError (λ s, _agents_direction s !! agent_i).
Definition get_route (agent_i : nat) : M Z :=
  gets IndexError (λ s, _agents_routes s !! agent_i).
Definition get_turned (agent_i : nat) : M bool :=
  gets IndexError (λ s, _agent_turned s !! agent_i).
Definition get_on_the_road (agent_i : nat) : M bool :=
  gets IndexError (λ s, on_the_road s !! agent_i).
Definition get_done (agent_i : nat) : M bool :=
  gets IndexError (λ s, _agent_dones s !! agent_i).
Definition get_cars_count : M Z := reads curr_cars_count.
Definition get_step_count : M Z := reads _step_count.

(** An assignment that raises [e] when [f] has no result. *)
Definition update (e : exn) (f : state → option state) : M unit :=
  s' ← gets e f; modify (λ _, s').

Definition put_pos (agent_i : nat) (p : pos) : M unit :=
  modify (λ s, set_agent_pos (<[agent_i:=p]> (agent_pos s)) s).
Definition put_direction (agent_i : nat) (d : pos) : M unit :=
  update IndexError (λ s, l ← list_set (_agents_direction s) agent_i d;
                           Some (set_agents_direction l s)).
Definition put_route (agent_i : nat) (r : Z) : M unit :=
  update IndexError (λ s, l ← list_set (_agents_routes s) agent_i r;
                           Some (set_agents_routes l s)).
Definition put_turned (agent_i : nat) (b : bool) : M unit :=
  update IndexError (λ s, l ← list_set (_agent_turned s) agent_i b;
                           Some (set_agent_turned l s)).
Definition put_on_the_road (agent_i : nat) (b : bool) : M unit :=
  update IndexError (λ s, l ← list_set (on_the_road s) agent_i b;
                           Some (set_on_the_road l s)).
Definition put_done (agent_i : nat) (b : bool) : M unit :=
  update IndexError (λ s, l ← list_set (_agent_dones s) agent_i b;
                           Some (set_agent_dones l s)).
Definition add_cars_count (k : Z) : M unit :=
  modify (λ s, set_cars_count (curr_cars_count s + k) s).

(** [self._full_obs[p[0]][p[1]]] and the assignment to it. *)
Definition read_cell (p : pos) : M string :=
  gets IndexError (λ s, grid_get (_full_obs s) p).
Definition write_cell (p : pos) (tag : string) : M unit :=
  update IndexError (λ s, g ← grid_set (_full_obs s) p tag; Some (set_full_obs g s)).

(** ** Car registry and occupancy grid *)

Section Engine.
Context (cfg : config).

Definition _is_cell_vacant (p : pos) : M bool :=
  if is_valid cfg p then tag ← read_cell p; ret (is_empty_tag tag) else ret false.

Definition __update_agent_view (agent_i : nat) : M unit :=
  p ← get_pos agent_i; write_cell p (agent_tag agent_i).

Definition __check_colision (p : pos) : M bool :=
  if is_valid cfg p then tag ← read_cell p; ret (has_agent tag) else ret false.

Definition __is_gate_free : M bool :=
  reads (λ s, existsb (λ p, negb (bool_decide (p ∈ (map_to_list (agent_pos s)).*2)))
                      (_entry_gates cfg)).

Definition __reached_dest (agent_i : nat) : M bool :=
  p ← get_pos agent_i;
  if bool_decide (p ∈ _destination cfg) then write_cell p PRE_empty;; ret true
  else ret false.

(** ** Observation builder *)

(** [range(a, b)] *)
Definition range (a b : Z) : list Z := seqZ a (b - a).

Fixpoint fold_opt {A B} (body : B → A → option B) (l : list A) (acc : B)
  : option B :=
  match l with
  | [] => Some acc
  | x :: l' => acc' ← body acc x; fold_opt body l' acc'
  end.

(** A 3x3 numpy array, row-major; [a[i, j] = v]. *)
Definition np_set (a : list Q) (i j : Z) (v : Q) : option (list Q) :=
  ki ← py_index 3 i; kj ← py_index 3 j; Some (<[(3 * ki + kj)%nat:=v]> a).

(** [_other_agents_pos] of [get_agent_obs], flattened. *)
Definition view_mask (grid : list (list string)) (p : pos) : option (list Q) :=
  m ← fold_opt
    (λ m row,
       fold_opt
         (λ m col,
            tag ← grid_get grid (row, col);
            if has_agent tag then np_set m (row - (p.1 - 1)) (col - (p.2 - 1)) 1%Q
            else Some m)
         (range (Z.max 0 (p.2 - 1)) (Z.min (p.2 + 1 + 1) (grid_cols cfg))) m)
    (range (Z.max 0 (p.1 - 1)) (Z.min (p.1 + 1 + 1) (grid_rows cfg)))
    (replicate 9 0%Q);
  np_set m 1 1 0%Q.

(** [a / b] on integers: true division. *)
Definition py_div (a b : Z) : M Q :=
  if b =? 0 then raise ZeroDivisionError else ret (inject_Z a / inject_Z b)%Q.

Definition agent_obs (agent_i : nat) : M (list Q) :=
  p ← get_pos agent_i;
  onehot ← gets IndexError (λ _, list_set (replicate (n_agents cfg) 0%Q) agent_i 1%Q);
  mask ← gets IndexError (λ s, view_mask (_full_obs s) p);
  x ← py_div p.1 (grid_rows cfg);
  y ← py_div p.2 (grid_cols cfg - 1);
  ret (onehot ++ mask ++ [x; y]).

Definition get_agent_obs : M (list (list Q)) :=
  _obs ← foldM (λ _obs agent_i, o ← agent_obs agent_i; ret (_obs ++ [o]))
               (seq 0 (n_agents cfg)) [];
  if full_observable cfg then ret (replicate (n_agents cfg) (concat _obs))
  else ret _obs.

(** ** Movement *)

Definition add_pos (p d : pos) : pos := (p.1 + d.1, p.2 + d.2).

(** [t[i]] on a pair. *)
Definition pair_get (t : pos * pos) (i : Z) : option pos :=
  k ← py_index 2 i; [t.1; t.2] !! k.

(** With [route == 1] the function returns a name it never bound. *)
Definition __get_next_move (move route : Z) (curr_pos : pos) (agent_i : nat) : M pos :=
  dir_vector ← get_direction agent_i;
  if route =? 1 then raise UnboundLocalError
  else
    let sig := if route =? 2 then (if negb (dir_vector.2 =? 0) then 1 else -1)
               else (if negb (dir_vector.2 =? 0) then -1 else 1) in
    ret (if dir_vector.1 =? 0 then (dir_vector.2 * sig, 0) else (0, dir_vector.1 * sig)).

(** The cell a GAS action aims at; turning changes direction and the
    turned flag here, before the target is tested. *)
Definition gas_target (agent_i : nat) (move route : Z) (curr_pos : pos) : M pos :=
  if route =? 1 then
    d ← get_direction agent_i; ret (add_pos curr_pos d)
  else
    d ← get_direction agent_i;
    turn_pos ← gets KeyError (λ _, dict_get d (_turning_places cfg));
    tp ← gets IndexError (λ _, pair_get turn_pos (route - 2));
    turn_now ← (if bool_decide (curr_pos = tp)
                then t ← get_turned agent_i; ret (negb t) else ret false);
    if turn_now : bool then
      new_dir_vector ← __get_next_move move route curr_pos agent_i;
      put_direction agent_i new_dir_vector;;
      put_turned agent_i true;;
      ret (add_pos curr_pos new_dir_vector)
    else
      d' ← get_direction agent_i; ret (add_pos curr_pos d').

Definition __update_agent_pos (agent_i : nat) (move : Z) : M Q :=
  curr_pos ← get_pos agent_i;
  route ← get_route agent_i;
  next_pos ← (if move =? 0 then np ← gas_target agent_i move route curr_pos; ret (Some np)
              else if move =? 1 then ret None
              else raise ActionNotFound);
  __get_next_move 1 3 curr_pos agent_i;;
  hit ← match next_pos with Some np => __check_colision np | None => ret false end;
  if hit : bool then ret (rcoll cfg)
  else
    free ← match next_pos with Some np => _is_cell_vacant np | None => ret false end;
    match next_pos with
    | Some np =>
        if free : bool then
          put_pos agent_i np;;
          write_cell curr_pos PRE_empty;;
          __update_agent_view agent_i
        else ret tt
    | None => ret tt
    end;;
    ret 0%Q.

(** ** Arrivals *)

(** [pos = random.choice(list(self._route_vectors.keys()))] and the
    assignment of the direction that follows it. *)
Definition choose_gate (agent_i : nat) : M pos :=
  p ← random_choice (_route_vectors cfg).*1;
  d ← gets KeyError (λ _, dict_get p (_route_vectors cfg));
  put_direction agent_i d;;
  ret p.

(** One round of the [while True] of [__init_full_obs]; [true] is [break]. *)
Definition init_attempt (agent_i : nat) : M bool :=
  p ← choose_gate agent_i;
  free ← _is_cell_vacant p;
  if free : bool then
    put_pos agent_i p;;
    add_cars_count 1;;
    put_on_the_road agent_i true;;
    r ← random_randint 1 3;
    put_route agent_i r;;
    __update_agent_view agent_i;;
    ret true
  else
    c ← get_cars_count;
    if 4 <=? c then
      put_pos agent_i (0, 0);;
      __update_agent_view agent_i;;
      ret true
    else ret false.

Definition __init_full_obs : M unit :=
  update IndexError (λ s, g ← __create_grid cfg; Some (set_full_obs g s));;
  for_each (seq 0 (n_agents cfg)) (λ agent_i, while_true (init_attempt agent_i)).

(** One round of the [while True] of the arrival pass of [step]. *)
Definition arrival_attempt (agent_i : nat) : M bool :=
  p ← choose_gate agent_i;
  free ← _is_cell_vacant p;
  if free : bool then
    put_pos agent_i p;;
    add_cars_count 1;;
    put_on_the_road agent_i true;;
    put_turned agent_i false;;
    r ← random_randint 1 3;
    put_route agent_i r;;
    __update_agent_view agent_i;;
    ret true
  else ret false.

(** ** reset *)

Definition reset : M (list (list Q)) :=
  modify (set_total_episode_reward (replicate (n_agents cfg) 0%Q));;
  modify (set_step_count 0);;
  modify (set_agent_dones (replicate (n_agents cfg) false));;
  modify (set_on_the_road (replicate (n_agents cfg) false));;
  modify (set_agent_turned (replicate (n_agents cfg) false));;
  modify (set_cars_count 0);;
  modify (set_agent_pos ∅);;
  __init_full_obs;;
  for_each (_entry_gates cfg)
    (λ _, c ← get_cars_count;
          if c <=? Z.of_nat (n_max cfg) then _ ← random_random; ret tt else ret tt);;
  get_agent_obs.

(** ** step, pass by pass *)

(** Lines 233-236: the movement pass over [enumerate(agents_action)]. *)
Definition movement_pass (agents_action : list Z) (rewards : list Q) : M (list Q) :=
  foldM (λ rewards '(agent_i, action),
           done ← get_done agent_i;
           go ← (if done : bool then ret false else get_on_the_road agent_i);
           if go : bool then
             col_reward ← __update_agent_pos agent_i action;
             r ← gets IndexError (λ _, rewards !! agent_i);
             gets IndexError (λ _, list_set rewards agent_i (r + col_reward)%Q)
           else ret rewards)
        (zip (seq 0 (length agents_action)) agents_action) rewards.

(** Lines 240-253. *)
Definition arrival_pass : M unit :=
  u ← random_uniform 0 1;
  c ← get_cars_count;
  if Qlt_bool u (arrive_prob cfg) && (c <? Z.of_nat (n_max cfg)) then
    for_each (seq 0 (n_agents cfg))
      (λ agent_i,
         gate_free ← __is_gate_free;
         on ← (if gate_free : bool then get_on_the_road agent_i else ret true);
         if gate_free && negb on then while_true (arrival_attempt agent_i)
         else ret tt)
  else ret tt.

(** Lines 256-259. *)
Definition departure_pass : M unit :=
  for_each (seq 0 (n_agents cfg))
    (λ agent_i,
       reached ← __reached_dest agent_i;
       if reached : bool then put_on_the_road agent_i false;; add_cars_count (-1)
       else ret tt).

(** Lines 261-263. *)
Definition termination_check : M unit :=
  k ← get_step_count;
  if _max_steps <=? k then for_each (seq 0 (n_agents cfg)) (λ i, put_done i true)
  else ret tt.

(** Lines 265-268. *)
Definition reward_finalization (rewards : list Q) : M (list Q) :=
  foldM (λ rewards agent_i,
           on ← get_on_the_road agent_i;
           rewards' ← (if on : bool then
                         k ← get_step_count;
                         r ← gets IndexError (λ _, rewards !! agent_i);
                         gets IndexError
                           (λ _, list_set rewards agent_i
                                   (r + (-1 # 100) * inject_Z k)%Q)
                       else ret rewards);
           r' ← gets IndexError (λ _, rewards' !! agent_i);
           t ← gets IndexError (λ s, _total_episode_reward s !! agent_i);
           update IndexError
             (λ s, l ← list_set (_total_episode_reward s) agent_i (t + r')%Q;
                   Some (set_total_episode_reward l s));;
           ret rewards')
        (seq 0 (n_agents cfg)) rewards.

(** What [step] returns, without the constant [None] of the info slot.
    [dones] is the object's own list. *)
Record step_result : Type := {
  observations : list (list Q);
  step_rewards : list Q;
  done_flags : list bool
}.

Definition step (agents_action : list Z) : M step_result :=
  if decide (length agents_action = n_agents cfg) then
    modify (λ s, set_step_count (_step_count s + 1) s);;
    rewards ← movement_pass agents_action (replicate (n_agents cfg) _step_cost);
    arrival_pass;;
    departure_pass;;
    termination_check;;
    rewards ← reward_finalization rewards;
    obs ← get_agent_obs;
    dones ← reads _agent_dones;
    ret {| observations := obs; step_rewards := rewards; done_flags := dones |}
  else raise AssertionError.
End Engine.

(** ** seed

    [seeding.np_random] and [seeding.hash_seed] belong to gym and are taken
    as parameters: the first maps a seed to the seed it really used, the
    generator itself being identified with that seed. *)
Section Seeding.
Context (gym_np_random : Z → Z) (gym_hash_seed : Z → Z).

Definition seed (n : Z) : M (list Z) :=
  let seed1 := gym_np_random n in
  modify (set_np_random (Some seed1));;
  let seed2 := gym_hash_seed (seed1 + 1) `mod` 2 ^ 31 in
  ret [seed1; seed2].
End Seeding.

(** ** The object after [__init__]

    [__init__] leaves [None] in the step counter, the episode totals, the
    done flags and the positions, and the integer 0 in the directions.
    [reset] assigns every one of them before anything reads them, and a
    [step] before the first [reset] is a [TypeError] outside this model; here
    those attributes hold the values [reset] would give, and (0, 0) stands
    for the integer direction.  [None] is the [IndexError] of
    [__create_grid]. *)
Definition constructed (cfg : config) : option state :=
  g ← __create_grid cfg;
  Some {| _step_count := 0;
          _total_episode_reward := replicate (n_agents cfg) 0%Q;
          curr_cars_count := 0;
          _agent_turned := replicate (n_agents cfg) false;
          _agents_routes := replicate (n_agents cfg) (-1);
          _agents_direction := replicate (n_agents cfg) (0, 0);
          agent_pos := ∅;
          on_the_road := replicate (n_agents cfg) false;
          _full_obs := g;
          _agent_dones := replicate (n_agents cfg) false;
          np_random := None |}.

(** ** The declared observation space

    [__init__] builds the bounds of the [spaces.Box] of every slot:
    [_obs_high = np.array([1.0] * n_agents + [1.0, 1.0])], [_obs_low] the
    same with zeros, both tiled [n_agents] times with full observability.
    [np.tile(a, n)] of a one-dimensional array is [n] copies of it. *)
Definition np_tile {A} (a : list A) (n : nat) : list A := concat (replicate n a).

Definition _obs_high (cfg : config) : list Q :=
  let high := replicate (n_agents cfg) 1%Q ++ [1%Q; 1%Q] in
  if full_observable cfg then np_tile high (n_agents cfg) else high.

Definition _obs_low (cfg : config) : list Q :=
  let low := replicate (n_agents cfg) 0%Q ++ [0%Q; 0%Q] in
  if full_observable cfg then np_tile low (n_agents cfg) else low.

(** * Vocabulary of the properties *)

(** ** Frames and readers *)

(** [within St R m]: whatever [m] does to the object, on return and on
    exception alike, is within the relation [R]; and [m] can run out of
    generator outputs only if [St] holds.  [frame R m] lets it, [within False
    R m] says it never does. *)
Definition within (St : Prop) (R : relation state) {A} (m : M A) : Prop :=
  ∀ s g, match m s g with
         | Returns _ s' _ | Raises _ s' _ => R s s'
         | Starved => St
         end.

Abbreviation frame := (within True).

(** The attributes selected by [f] keep their values. *)
Definition keeps {X} (f : state → X) : relation state := λ s s', f s' = f s.

(** What the movement pass leaves alone. *)
Definition movement_frame (s : state) :=
  (on_the_road s, _agent_dones s, _step_count s, _total_episode_reward s,
   curr_cars_count s).

(** The step counter moves in one place only, the first line of [step], and
    the episode totals in the last loop. *)
Definition ledger (s : state) := (_step_count s, _total_episode_reward s).

(** ** Callers *)

(** Zero or more calls of [step] that returned, with any actions and any
    outputs of the generator. *)
Inductive later_steps (cfg : config) : state → state → Prop :=
| later_here s : later_steps cfg s s
| later_next s acts g res s1 g1 s2 :
    step cfg acts s g = Returns res s1 g1 →
    later_steps cfg s1 s2 →
    later_steps cfg s s2.

(** A caller's episode: [reset], then one [step] per action vector. *)
Definition episode (cfg : config) (actions : list (list Z)) : M (list step_result) :=
  reset cfg;;
  foldM (λ out acts, r ← step cfg acts; mret (out ++ [r])) actions [].

(** ** The passes of [step] *)

Section MovementLoop.
Context (cfg : config).

(** The body of the loop of the movement pass. *)
Definition movement_body (rewards : list Q) (slot : nat * Z) : M (list Q) :=
  let '(agent_i, action) := slot in
  done ← get_done agent_i;
  go ← (if done : bool then mret false else get_on_the_road agent_i);
  if go : bool then
    col_reward ← __update_agent_pos cfg agent_i action;
    r ← gets IndexError (λ _, rewards !! agent_i);
    gets IndexError (λ _, list_set rewards agent_i (r + col_reward)%Q)
  else mret rewards.

End MovementLoop.

(** Slots that are done or off the road: their action is never looked at. *)
Definition idle (s : state) (i : nat) : Prop :=
  _agent_dones s !! i = Some true ∨ on_the_road s !! i = Some false.

(** The reward of slot [i] after the last loop of [step], which started
    from rewards [rw] and state [s0]: the time penalty is added for a car on
    the road, and the reward is added to the episode total. *)
Definition finalized (rw : list Q) (s0 : state) (i : nat) (rewards : list Q) (st : state) : Prop :=
  ∃ base total on,
    rw !! i = Some base ∧ _total_episode_reward s0 !! i = Some total ∧
    on_the_road s0 !! i = Some on ∧
    let r := (if on : bool then base + (-1 # 100) * inject_Z (_step_count s0) else base)%Q in
    rewards !! i = Some r ∧ _total_episode_reward st !! i = Some (total + r)%Q.

(** ** Grid and registry *)

Section GridTests.
Context (cfg : config).

(** A grid of the configured shape. *)
Definition shape (grid : list (list string)) : Prop :=
  length grid = Z.to_nat (grid_rows cfg) ∧
  Forall (λ row, length row = Z.to_nat (grid_cols cfg)) grid.

(** [__check_colision] and [_is_cell_vacant] as tests on a grid. *)
Definition agent_at (grid : list (list string)) (p : pos) : bool :=
  is_valid cfg p && match grid_get grid p with Some tag => has_agent tag | None => false end.

Definition empty_at (grid : list (list string)) (p : pos) : bool :=
  is_valid cfg p && match grid_get grid p with Some tag => is_empty_tag tag | None => false end.

(** The two tests on the grid of a state. *)
Definition occupied (s : state) (p : pos) : bool := agent_at (_full_obs s) p.

Definition vacant (s : state) (p : pos) : bool := empty_at (_full_obs s) p.

End GridTests.

(** The attributes the invariant talks about. *)
Definition core (s : state) := (_full_obs s, on_the_road s, agent_pos s).

Section Agreement.
Context (cfg : config).

(** Every recorded position is a cell of the grid; a car on the road has its
    cell marked; two cars on the road are on different cells. *)
Record tracked (s : state) : Prop := {
  tr_shape : shape cfg (_full_obs s);
  tr_slots : length (on_the_road s) = n_agents cfg;
  tr_valid : ∀ i p, agent_pos s !! i = Some p → is_valid cfg p = true;
  tr_marked : ∀ i, on_the_road s !! i = Some true →
                   ∃ p, agent_pos s !! i = Some p ∧ occupied cfg s p = true;
  tr_apart : ∀ i j p, on_the_road s !! i = Some true → on_the_road s !! j = Some true →
                      agent_pos s !! i = Some p → agent_pos s !! j = Some p → i = j
}.

(** Every marked cell holds a car that is on the road. *)
Definition exact (s : state) : Prop :=
  ∀ p, occupied cfg s p = true →
       ∃ i, on_the_road s !! i = Some true ∧ agent_pos s !! i = Some p.

End Agreement.

Section DepartureRounds.
Context (cfg : config).

(** Slot [i] has been looked at by the departure pass, [k] rounds in, and
    its recorded position is a destination. *)
Definition gone (s : state) (k i : nat) : Prop :=
  (i < k)%nat ∧ ∃ p, agent_pos s !! i = Some p ∧ p ∈ _destination cfg.

(** Cell [q] has been emptied by the departure pass, [k] rounds in. *)
Definition cleared (s : state) (k : nat) (q : pos) : Prop :=
  q ∈ _destination cfg ∧ ∃ h, (h < k)%nat ∧ agent_pos s !! h = Some q.

(** The state [st] of the departure pass that started from [s], [k] rounds
    in. *)
Record departing (s : state) (k : nat) (st : state) : Prop := {
  dp_pos : agent_pos st = agent_pos s;
  dp_shape : shape cfg (_full_obs st);
  dp_slots : length (on_the_road st) = length (on_the_road s);
  dp_road : ∀ i, on_the_road st !! i = Some true ↔
                 on_the_road s !! i = Some true ∧ ¬ gone s k i;
  dp_cells : ∀ q, occupied cfg st q = true ↔ occupied cfg s q = true ∧ ¬ cleared s k q
}.

End DepartureRounds.

Section PlainGrid.
Context (cfg : config).

(** Rows of the right length without any agent tag. *)
Definition plain_row (row : list string) : Prop :=
  length row = Z.to_nat (grid_cols cfg) ∧ Forall (λ tag, has_agent tag = false) row.

End PlainGrid.

(** The number of slots whose car is on the road. *)
Definition live_cars (s : state) : nat :=
  length (filter (λ b : bool, b = true) (on_the_road s)).

Section ResetRounds.
Context (cfg : config).

(** What [__init_full_obs] makes of a slot. *)
Definition placed (s : state) (i : nat) : Prop :=
  on_the_road s !! i = Some true ∧
  ∃ p, agent_pos s !! i = Some p ∧ p ∈ (_route_vectors cfg).*1 ∧ occupied cfg s p = true.

Definition parked (s : state) (i : nat) : Prop :=
  on_the_road s !! i = Some false ∧ agent_pos s !! i = Some (0, 0) ∧
  4 ≤ curr_cars_count s.

(** The state of [__init_full_obs] after [k] slots. *)
Record initialised (k : nat) (s : state) : Prop := {
  in_tracked : tracked cfg s;
  in_exact : (n_agents cfg ≤ 4)%nat → exact cfg s;
  in_rest : ∀ i, (k ≤ i)%nat → (i < n_agents cfg)%nat → on_the_road s !! i = Some false;
  in_count : curr_cars_count s = Z.of_nat (live_cars s);
  in_slots : ∀ i, (i < k)%nat → placed s i ∨ parked s i
}.

End ResetRounds.

(** [reader m]: [m] neither changes the object nor touches the generator,
    and its outcome depends on the object alone. *)
Definition reader {A} (m : M A) : Prop :=
  ∀ s, (∃ a, ∀ g, m s g = Returns a s g) ∨ (∃ e, ∀ g, m s g = Raises e s g).

(** The attributes [reset] assigns and [__init_full_obs] leaves alone. *)
Definition counters (s : state) :=
  (_step_count s, _total_episode_reward s, _agent_dones s, _agent_turned s).

Section DerivedGrid.
Context (cfg : config).

(** The grid is the grid of the topology, some cells marked. *)
Definition derived (s : state) : Prop :=
  ∃ fresh, __create_grid cfg = Some fresh ∧
    ∀ q, is_valid cfg q = true → occupied cfg s q = false →
         grid_get (_full_obs s) q = grid_get fresh q.

End DerivedGrid.

(** The states an object goes through: after a [reset] that returned, run
    from any earlier state of the object, and after every [step] that
    returned. *)
Inductive reachable (cfg : config) : state → Prop :=
| reach_reset s0 g obs s g' :
    reset cfg s0 g = Returns obs s g' → reachable cfg s
| reach_step s acts g res s' g' :
    reachable cfg s → step cfg acts s g = Returns res s' g' → reachable cfg s'.

(** All cells of the grid, and those marked with an agent tag. *)
Definition all_cells (cfg : config) : list pos :=
  r ← seqZ 0 (grid_rows cfg); c ← seqZ 0 (grid_cols cfg); [(r, c)].

Definition occupied_cells (cfg : config) (s : state) : list pos :=
  filter (λ p, occupied cfg s p = true) (all_cells cfg).

(** The slots on the road and their cells. *)
Definition live_slots (s : state) : list nat :=
  filter (λ i, on_the_road s !! i = Some true) (seq 0 (length (on_the_road s))).

Definition cell_of (s : state) (i : nat) : pos :=
  default ((0, 0) : pos) (agent_pos s !! i).

(** A configuration with five slots, one more than there are gates. *)
Definition five_slot_config : config :=
  {| grid_rows := 14; grid_cols := 14; n_agents_arg := 5; n_max := 5;
     rcoll := (-10)%Q; arrive_prob := (1 # 2)%Q; full_observable := false |}.

(** A configuration whose grid is wider than it is high, with two slots. *)
Definition wide_config : config :=
  {| grid_rows := 14; grid_cols := 20; n_agents_arg := 2; n_max := 2;
     rcoll := (-10)%Q; arrive_prob := (1 # 2)%Q; full_observable := false |}.

(** ** Observations *)

(** The neighbourhood mask in the words of the specification: the nine
    cells around [p], row by row; the centre is 0, a cell outside the grid
    is 0, any other cell is 1 when it is marked with an agent tag. *)
Definition neighbourhood_mask (cfg : config) (grid : list (list string)) (p : pos)
  : list Q :=
  d ← [-1; 0; 1]; e ← [-1; 0; 1];
  [if (d =? 0) && (e =? 0) then 0%Q
   else if agent_at cfg grid (p.1 + d, p.2 + e) then 1%Q else 0%Q].

(** The one-hot identifier of slot [i] among [n]. *)
Definition one_hot (n i : nat) : list Q :=
  (λ j, if bool_decide (j = i) then 1%Q else 0%Q) <$> seq 0 n.

Section MaskCells.
Context (cfg : config).

(** The entry [j] of a mask after the scan looked at [cell], whose entry is
    [k]; [prev] is what the mask held before. *)
Definition mark (grid : list (list string)) (cell : pos) (k : nat)
    (prev : nat → option Q) (j : nat) : option Q :=
  if decide (j = k) then (if agent_at cfg grid cell then Some 1%Q else prev j) else prev j.

End MaskCells.

(** ** Slots *)

(** A car that is on the road stays on the road. *)
Definition stays_on (s s' : state) : Prop :=
  ∀ i, on_the_road s !! i = Some true → on_the_road s' !! i = Some true.

(** A slot that has a recorded position keeps having one. *)
Definition keeps_slots (s s' : state) : Prop :=
  ∀ i, is_Some (agent_pos s !! i) → is_Some (agent_pos s' !! i).

(** The direction after a turn: the arithmetic of [__get_next_move]. *)
Definition turned_vector (route : Z) (dir_vector : pos) : pos :=
  let sig := if route =? 2 then (if negb (dir_vector.2 =? 0) then 1 else -1)
             else (if negb (dir_vector.2 =? 0) then -1 else 1) in
  if dir_vector.1 =? 0 then (dir_vector.2 * sig, 0) else (0, dir_vector.1 * sig).

(** What the object records of one slot's car. *)
Definition slot (s : state) (i : nat) :=
  (agent_pos s !! i, _agents_routes s !! i, _agents_direction s !! i, _agent_turned s !! i).

(** Everything of the slots other than [h] is kept, and so are the road and
    done flags of all. *)
Definition others_kept (h : nat) : relation state := λ s s',
  on_the_road s' = on_the_road s ∧ _agent_dones s' = _agent_dones s ∧
  ∀ k, k ≠ h → slot s' k = slot s k.

Section Aiming.
Context (cfg : config).

(** The cell a GAS action of slot [agent_i] aims at from [s]: the lines of
    [__update_agent_pos] that compute [next_pos], run on [s]. *)
Definition candidate (s : state) (agent_i : nat) : option pos :=
  match (curr_pos ← get_pos agent_i;
         route ← get_route agent_i;
         gas_target cfg agent_i 0 route curr_pos) s [] with
  | Returns next_pos _ _ => Some next_pos
  | _ => None
  end.

(** The same cell, read off the slot's record. *)
Definition aim (s : state) (i : nat) : option pos :=
  let '(p, r, d, t) := slot s i in
  curr ← p; route ← r; d ← d;
  if route =? 1 then Some (add_pos curr d)
  else
    turn_pos ← dict_get d (_turning_places cfg);
    tp ← pair_get turn_pos (route - 2);
    turn_now ← (if bool_decide (curr = tp) then negb <$> t else Some false);
    Some (add_pos curr (if turn_now : bool then turned_vector route d else d)).

(** What [__update_agent_pos] does for one car: it returns [r] and takes
    [s] to [s'].  BRAKE changes nothing.  GAS aims at a cell: if the cell is
    marked, the car stays and [r] is the collision reward; if it is vacant, the
    car is recorded there, its old cell is emptied and the new one marked;
    otherwise the car stays. *)
Definition moved (i : nat) (move : Z) (s : state) (r : Q) (s' : state) : Prop :=
  (move ≠ 0 ∧ r = 0%Q ∧ core s' = core s) ∨
  (move = 0 ∧ ∃ curr np, agent_pos s !! i = Some curr ∧ aim s i = Some np ∧
     ((occupied cfg s np = true ∧ r = rcoll cfg ∧ core s' = core s) ∨
      (occupied cfg s np = false ∧ vacant cfg s np = false ∧ r = 0%Q ∧ core s' = core s) ∨
      (vacant cfg s np = true ∧ r = 0%Q ∧ agent_pos s' = <[i:=np]> (agent_pos s) ∧
       ∀ q, vacant cfg s' q = if decide (q = np) then false
                              else if decide (q = curr) then true else vacant cfg s q))).

End Aiming.

(** ** Directions *)

(** The four directions a car can have: the values of [_route_vectors],
    which are also the keys of [_turning_places]. *)
Definition headings : list pos := [(0, 1); (-1, 0); (1, 0); (0, -1)].

(** A quarter turn of a direction on the grid, whose rows grow downwards:
    to the right of the driver and to the left. *)
Definition turn_right (d : pos) : pos := (d.2, - d.1).
Definition turn_left (d : pos) : pos := (- d.2, d.1).

(** A configuration whose grid has a single column. *)
Definition one_column_config : config :=
  {| grid_rows := 14; grid_cols := 1; n_agents_arg := 1; n_max := 1;
     rcoll := (-10)%Q; arrive_prob := (1 # 2)%Q; full_observable := false |}.

(** ** Episodes *)

(** The rewards slot [i] got in the steps of an episode, first step first. *)
Definition rewards_of (out : list step_result) (i : nat) : list Q :=
  omap (λ res, step_rewards res !! i) out.

(** A sum of floats, added in the order of the list. *)
Definition running_total (rs : list Q) : Q := foldl Qplus 0%Q rs.

(** ** What the movement pass does to one slot *)

Section SlotEffect.
Context (cfg : config).

(** The movement pass took rewards [rw] and state [s] to [rw'] and [s'].
    For slot [i] one of four things happened: the slot was passed over, its
    car and reward untouched; or its car, on the road and not done, stayed
    where it was and 0 was added to the reward; or it took GAS, stayed, and
    the collision reward was added; or it took GAS and its car is on the cell
    it aimed at, 0 added to the reward. *)
Definition slot_effect (acts : list Z) (rw rw' : list Q) (s s' : state) (i : nat) : Prop :=
  (agent_pos s' !! i = agent_pos s !! i ∧ rw' !! i = rw !! i) ∨
  (on_the_road s !! i = Some true ∧ _agent_dones s !! i = Some false ∧
   ∃ r, rw !! i = Some r ∧
     ((agent_pos s' !! i = agent_pos s !! i ∧ rw' !! i = Some (r + 0)%Q) ∨
      (acts !! i = Some 0 ∧ agent_pos s' !! i = agent_pos s !! i ∧
       rw' !! i = Some (r + rcoll cfg)%Q) ∨
      (acts !! i = Some 0 ∧ rw' !! i = Some (r + 0)%Q ∧
       ∃ np, aim cfg s i = Some np ∧ agent_pos s' !! i = Some np))).

End SlotEffect.

(** The first [k] entries of a list of directions are headings. *)
Definition headed (k : nat) (l : list pos) : Prop :=
  ∀ i d, (i < k)%nat → l !! i = Some d → d ∈ headings.

(** Everything recorded of the slots other than [k] is kept, and whether
    they are on the road. *)
Definition others_placed (k : nat) : relation state := λ s s',
  ∀ i, i ≠ k → slot s' i = slot s i ∧ on_the_road s' !! i = on_the_road s !! i.

Section Arrivals.
Context (cfg : config).

(** The car of slot [i] is as the arrival pass puts a car on the road: on a
    key of [_route_vectors], heading as that key says, not turned, with a
    route from 1 to 3. *)
Definition arrived (s : state) (i : nat) : Prop :=
  ∃ p d r,
    agent_pos s !! i = Some p ∧ dict_get p (_route_vectors cfg) = Some d ∧
    _agents_direction s !! i = Some d ∧ _agent_turned s !! i = Some false ∧
    _agents_routes s !! i = Some r ∧ 1 ≤ r ≤ 3.

End Arrivals.

(** What the object records of all cars. *)
Definition records (s : state) :=
  (agent_pos s, _agents_routes s, _agents_direction s, _agent_turned s).

(** No car is put on the road. *)
Definition none_enters (s s' : state) : Prop :=
  ∀ i, on_the_road s' !! i = Some true → on_the_road s !! i = Some true.

(** ** The road *)

Section Road.
Context (cfg : config).

(** The cells of the two middle rows and of the two middle columns. *)
Definition on_track (p : pos) : bool :=
  (p.1 =? grid_rows cfg `div` 2 - 1) || (p.1 =? grid_rows cfg `div` 2) ||
  (p.2 =? grid_cols cfg `div` 2 - 1) || (p.2 =? grid_cols cfg `div` 2).

(** The tag of cell [p] while the loop over the rows of [__create_grid]
    has done [k] rows. *)
Definition cell_after (k : Z) (p : pos) : string :=
  if (p.1 =? grid_rows cfg `div` 2 - 1) || (p.1 =? grid_rows cfg `div` 2) ||
     ((p.1 <? k) && ((p.2 =? grid_cols cfg `div` 2 - 1) || (p.2 =? grid_cols cfg `div` 2)))
  then PRE_empty else PRE_wall.

(** No cell off the track is vacant, and every car on the road is on the
    track. *)
Definition on_roadway (s : state) : Prop :=
  (∀ p, on_track p = false → vacant cfg s p = false) ∧
  (∀ i p, on_the_road s !! i = Some true → agent_pos s !! i = Some p → on_track p = true).

End Road.


(** The car counter and the flags it is meant to count. *)
Definition tally (s : state) := (on_the_road s, curr_cars_count s).

(** The counter does not exceed the number of cars on the road. *)
Definition undercounted (s : state) : Prop :=
  curr_cars_count s ≤ Z.of_nat (live_cars s).

(** Every entry of every observation lies between 0 and 1. *)
Definition unit_valued (obs : list (list Q)) : Prop :=
  Forall (Forall (λ x, (0 <= x <= 1)%Q)) obs.

(** The lists with one entry per slot that [step] indexes, [on_the_road]
    apart. *)
Definition lengths (s : state) :=
  (length (_agent_dones s), length (_agent_turned s), length (_agents_routes s),
   length (_agents_direction s), length (_total_episode_reward s)).

(** A car on the road has one of the three routes. *)
Definition routed (s : state) : Prop :=
  ∀ i r, on_the_road s !! i = Some true → _agents_routes s !! i = Some r → 1 ≤ r ≤ 3.

Section Legal.
Context (cfg : config).

(** What [step] expects: one action per slot, each of them GAS or BRAKE. *)
Definition legal (acts : list Z) : Prop :=
  length acts = n_agents cfg ∧ Forall (λ a, a = 0 ∨ a = 1) acts.

(** Every list has an entry for every slot. *)
Definition sized (s : state) : Prop :=
  lengths s = (n_agents cfg, n_agents cfg, n_agents cfg, n_agents cfg, n_agents cfg).

(** A state on which [step] finds everything it looks up: the grid and the
    registry agree, every slot has a position, a heading for a direction,
    and a car on the road has one of the three routes. *)
Record sound (s : state) : Prop := {
  so_tracked : tracked cfg s;
  so_sized : sized s;
  so_present : ∀ i, (i < n_agents cfg)%nat → is_Some (agent_pos s !! i);
  so_headed : headed (n_agents cfg) (_agents_direction s);
  so_routed : routed s
}.

End Legal.

(** * Reasoning principles for the monad *)

Lemma bind_Returns {A B} (m : M A) (f : A → M B) s g b s' g' :
  (x ← m; f x) s g = Returns b s' g' →
  ∃ a s1 g1, m s g = Returns a s1 g1 ∧ f a s1 g1 = Returns b s' g'.
Proof.
  unfold mbind, M_bind, bind. destruct (m s g); [eauto | done | done].
Qed.

Lemma ret_Returns {A} (a : A) s g b s' g' :
  mret (M:=M) a s g = Returns b s' g' → b = a ∧ s' = s ∧ g' = g.
Proof. unfold mret, M_ret, ret. by intros [= -> -> ->]. Qed.

Lemma gets_Returns {A} e (f : state → option A) s g a s' g' :
  gets e f s g = Returns a s' g' → f s = Some a ∧ s' = s ∧ g' = g.
Proof. unfold gets. destruct (f s); [by intros [= -> -> ->] | done]. Qed.

Lemma reads_Returns {A} (f : state → A) s g a s' g' :
  reads f s g = Returns a s' g' → a = f s ∧ s' = s ∧ g' = g.
Proof. unfold reads. by intros [= <- <- <-]. Qed.

Lemma modify_Returns f s g u s' g' :
  modify f s g = Returns u s' g' → s' = f s ∧ g' = g.
Proof. unfold modify. by intros [= _ <- <-]. Qed.

Lemma update_Returns e f s g u s' g' :
  update e f s g = Returns u s' g' → f s = Some s' ∧ g' = g.
Proof.
  unfold update. intros H. apply bind_Returns in H as (a & s1 & g1 & H1 & H2).
  apply gets_Returns in H1 as (? & -> & ->).
  apply modify_Returns in H2 as (-> & ->). done.
Qed.

Lemma draw_Returns s g d s' g' :
  draw s g = Returns d s' g' → g = d :: g' ∧ s' = s.
Proof. unfold draw. destruct g; [done | by intros [= -> -> ->]]. Qed.

Lemma raise_Returns {A} e s g (a : A) s' g' : raise e s g = Returns a s' g' → False.
Proof. done. Qed.

Lemma list_set_Some {A} (l : list A) i v l' :
  list_set l i v = Some l' → (i < length l)%nat ∧ l' = <[i:=v]> l.
Proof. unfold list_set. case_decide; [by intros [= <-] | done]. Qed.

(** Symbolic execution of runs that returned: every hypothesis
    [m s g = Returns _ _ _] whose [m] is a bind, a primitive or a conditional
    is split; a named operation is left for the proof to unfold. *)
Ltac run_step :=
  match goal with
  | H : mbind _ _ _ _ = Returns _ _ _ |- _ =>
      apply bind_Returns in H as (? & ? & ? & ? & ?)
  | H : mret _ _ _ = Returns _ _ _ |- _ => apply ret_Returns in H as (? & ? & ?)
  | H : ret _ _ _ = Returns _ _ _ |- _ => apply ret_Returns in H as (? & ? & ?)
  | H : gets _ _ _ _ = Returns _ _ _ |- _ => apply gets_Returns in H as (H & ? & ?)
  | H : reads _ _ _ = Returns _ _ _ |- _ => apply reads_Returns in H as (? & ? & ?)
  | H : modify _ _ _ = Returns _ _ _ |- _ => apply modify_Returns in H as (? & ?)
  | H : update _ _ _ _ = Returns _ _ _ |- _ => apply update_Returns in H as (H & ?)
  | H : draw _ _ = Returns _ _ _ |- _ => apply draw_Returns in H as (? & ?)
  | H : raise _ _ _ = Returns _ _ _ |- _ => destruct (raise_Returns _ _ _ _ _ _ H)
  | H : Raises _ _ _ = Returns _ _ _ |- _ => discriminate H
  | H : Starved = Returns _ _ _ |- _ => discriminate H
  | H : true = false |- _ => discriminate H
  | H : false = true |- _ => discriminate H
  | H : mbind _ _ = Some _ |- _ => apply bind_Some in H as (? & ? & ?)
  | H : Some _ = Some _ |- _ => injection H as ?
  | H : list_set _ _ _ = Some _ |- _ => apply list_set_Some in H as (? & ?)
  | H : (if ?b then _ else _) _ _ = Returns _ _ _ |- _ =>
      let E := fresh "Hif" in destruct b eqn:E
  | H : (match ?o with Some _ => _ | None => _ end) _ _ = Returns _ _ _ |- _ =>
      let E := fresh "Hopt" in destruct o eqn:E
  end.

Ltac run := repeat (run_step; subst).

(** ** Loops *)

Lemma foldM_inv {A B} (I : list A → B → state → Prop) (body : B → A → M B) l :
  (∀ seen x acc s g acc' s' g',
     I seen acc s → body acc x s g = Returns acc' s' g' → I (seen ++ [x]) acc' s') →
  ∀ seen acc s g acc' s' g',
    I seen acc s → foldM body l acc s g = Returns acc' s' g' → I (seen ++ l) acc' s'.
Proof.
  intros Hbody. induction l as [|x l IH]; intros seen acc s g acc' s' g' HI Hrun; simpl in Hrun.
  - apply ret_Returns in Hrun as (-> & -> & ->). by rewrite app_nil_r.
  - apply bind_Returns in Hrun as (acc1 & s1 & g1 & H1 & H2).
    replace (seen ++ x :: l) with ((seen ++ [x]) ++ l) by by rewrite <- app_assoc.
    eapply IH; [|exact H2]. eapply Hbody; eauto.
Qed.

(** [for k in range(n)] with an invariant indexed by the number of rounds
    done. *)
Lemma fold_range_inv {B} (I : nat → B → state → Prop) (body : B → nat → M B) n :
  (∀ k acc s g acc' s' g',
     (k < n)%nat → I k acc s → body acc k s g = Returns acc' s' g' → I (S k) acc' s') →
  ∀ acc s g acc' s' g',
    I 0%nat acc s → foldM body (seq 0 n) acc s g = Returns acc' s' g' → I n acc' s'.
Proof.
  intros Hbody.
  assert (∀ m k acc s g acc' s' g',
            (k + m = n)%nat → I k acc s →
            foldM body (seq k m) acc s g = Returns acc' s' g' → I n acc' s') as Hgen.
  { induction m as [|m IH]; intros k acc s g acc' s' g' Hkm HI Hrun; simpl in Hrun.
    - apply ret_Returns in Hrun as (-> & -> & ->). by replace n with k by lia.
    - apply bind_Returns in Hrun as (acc1 & s1 & g1 & H1 & H2).
      apply (IH (S k) acc1 s1 g1 acc' s' g'); [lia| |done].
      apply (Hbody k acc s g acc1 s1 g1); [lia|done|done]. }
  intros acc s g acc' s' g'. by apply (Hgen n 0%nat).
Qed.

Lemma for_range_inv (I : nat → state → Prop) (body : nat → M unit) n :
  (∀ k s g u s' g',
     (k < n)%nat → I k s → body k s g = Returns u s' g' → I (S k) s') →
  ∀ s g u s' g',
    I 0%nat s → for_each (seq 0 n) body s g = Returns u s' g' → I n s'.
Proof.
  intros Hbody s g u s' g'. unfold for_each.
  apply (fold_range_inv (λ k _ st, I k st)). intros k [] ? ? ? ? ?. apply Hbody.
Qed.

Lemma repeat_until_inv (P Q : state → Prop) (body : M bool) :
  (∀ s g b s' g', P s → body s g = Returns b s' g' → if b then Q s' else P s') →
  ∀ fuel s g u s' g', P s → repeat_until fuel body s g = Returns u s' g' → Q s'.
Proof.
  intros Hbody. induction fuel as [|fuel IH]; intros s g u s' g' HP Hrun; simpl in Hrun; [done|].
  apply bind_Returns in Hrun as (b & s1 & g1 & H1 & H2).
  specialize (Hbody _ _ _ _ _ HP H1). destruct b.
  - by apply ret_Returns in H2 as (_ & -> & _).
  - eauto.
Qed.

Lemma while_true_inv (P Q : state → Prop) (body : M bool) :
  (∀ s g b s' g', P s → body s g = Returns b s' g' → if b then Q s' else P s') →
  ∀ s g u s' g', P s → while_true body s g = Returns u s' g' → Q s'.
Proof. intros Hbody s g u s' g' HP Hrun. eapply repeat_until_inv; eauto. Qed.

(** [for k, a in enumerate(l)] with an invariant indexed by the number of
    rounds done. *)
Lemma fold_enum_inv {A B} (I : nat → B → state → Prop) (body : B → nat * A → M B)
    (l : list A) :
  (∀ k a acc s g acc' s' g',
     l !! k = Some a → I k acc s → body acc (k, a) s g = Returns acc' s' g' →
     I (S k) acc' s') →
  ∀ acc s g acc' s' g',
    I 0%nat acc s →
    foldM body (zip (seq 0 (length l)) l) acc s g = Returns acc' s' g' →
    I (length l) acc' s'.
Proof.
  intros Hbody.
  assert (∀ l' k acc s g acc' s' g',
            (∀ m a, l' !! m = Some a → l !! (k + m)%nat = Some a) →
            (k + length l' = length l)%nat → I k acc s →
            foldM body (zip (seq k (length l')) l') acc s g = Returns acc' s' g' →
            I (length l) acc' s') as Hgen.
  { induction l' as [|a l' IH]; intros k acc s g acc' s' g' Hsub Hlen HI Hrun;
      simpl in Hrun.
    - apply ret_Returns in Hrun as (-> & -> & ->). simpl in Hlen.
      by replace (length l) with k by lia.
    - apply bind_Returns in Hrun as (acc1 & s1 & g1 & H1 & H2).
      apply (IH (S k) acc1 s1 g1 acc' s' g'); [| simpl in Hlen; lia | | done].
      + intros m b Hm. replace (S k + m)%nat with (k + S m)%nat by lia. by apply Hsub.
      + apply (Hbody k a acc s g acc1 s1 g1); [|done|done].
        rewrite <- (Nat.add_0_r k). by apply Hsub. }
  intros acc s g acc' s' g'. by apply (Hgen l 0%nat).
Qed.

(** ** Forward runs *)

Lemma gets_Some {A} e (f : state → option A) s g a :
  f s = Some a → gets e f s g = Returns a s g.
Proof. intros H. unfold gets. by rewrite H. Qed.

Lemma bind_run {A B} (m : M A) (f : A → M B) s g a s1 g1 r :
  m s g = Returns a s1 g1 → f a s1 g1 = r → (x ← m; f x) s g = r.
Proof. intros H <-. unfold mbind, M_bind, bind. by rewrite H. Qed.

Lemma update_Some e f s g s' : f s = Some s' → update e f s g = Returns () s' g.
Proof. intros H. unfold update. eapply bind_run; [by apply gets_Some | done]. Qed.

Lemma list_set_inside {A} (l : list A) i v :
  (i < length l)%nat → list_set l i v = Some (<[i:=v]> l).
Proof. intros H. unfold list_set. by rewrite decide_True. Qed.

(** Running a computation forwards from facts about the state. *)
Ltac exec :=
  lazymatch goal with
  | |- mbind _ _ _ _ = _ => eapply bind_run; [exec | cbv beta; exec]
  | |- gets _ _ _ _ = _ => apply gets_Some; simpl; eassumption
  | |- update _ _ _ _ = _ =>
      apply update_Some; simpl; rewrite list_set_inside by done; reflexivity
  | |- ret _ _ _ = _ => reflexivity
  | |- mret _ _ _ = _ => reflexivity
  | |- (if ?b then ?x else ?y) ?s ?g = _ =>
      let b' := eval cbn [negb] in b in
      lazymatch b' with
      | true => change ((if b then x else y) s g) with (x s g); exec
      | false => change ((if b then x else y) s g) with (y s g); exec
      | _ => match goal with H : b = _ |- _ => rewrite H; exec end
      end
  end.

(** ** Frames *)

#[global] Instance keeps_preorder {X} (f : state → X) : PreOrder (keeps f).
Proof. split; unfold keeps; [by intros ? | intros ??? H1 H2; congruence]. Qed.

Section Frames.
Context (St : Prop) (R : relation state) `{!PreOrder R}.

Lemma within_ret {A} (a : A) : within St R (mret a).
Proof. intros s g. unfold mret, M_ret, ret. reflexivity. Qed.

Lemma within_raise {A} e : within St R (raise (A:=A) e).
Proof. intros s g. unfold raise. reflexivity. Qed.

Lemma within_gets {A} e (f : state → option A) : within St R (gets e f).
Proof. intros s g. unfold gets. destruct (f s); reflexivity. Qed.

Lemma within_reads {A} (f : state → A) : within St R (reads f).
Proof. intros s g. unfold reads. reflexivity. Qed.

Lemma within_draw : St → within St R draw.
Proof. intros HSt s g. unfold draw. destruct g; [done | reflexivity]. Qed.

Lemma within_modify f : (∀ s, R s (f s)) → within St R (modify f).
Proof. intros H s g. apply H. Qed.

Lemma within_bind {A B} (m : M A) (f : A → M B) :
  within St R m → (∀ a, within St R (f a)) → within St R (x ← m; f x).
Proof.
  intros Hm Hf s g. unfold mbind, M_bind, bind. specialize (Hm s g).
  destruct (m s g) as [a s1 g1| |]; [|done|done].
  specialize (Hf a s1 g1). destruct (f a s1 g1); [| |done]; by etrans.
Qed.

Lemma within_update e f : (∀ s s', f s = Some s' → R s s') → within St R (update e f).
Proof.
  intros H s g. unfold update, mbind, M_bind, bind, gets, modify.
  destruct (f s) eqn:E; [by apply H | reflexivity].
Qed.

Lemma within_foldM {A B} (body : B → A → M B) l acc :
  (∀ acc x, within St R (body acc x)) → within St R (foldM body l acc).
Proof.
  intros Hbody. revert acc. induction l as [|x l IH]; intros acc; simpl.
  - apply within_ret.
  - apply within_bind; [apply Hbody | intros a; apply IH].
Qed.

Lemma within_for_each {A} (l : list A) body :
  (∀ x, within St R (body x)) → within St R (for_each l body).
Proof. intros H. apply within_foldM. intros _ x. apply H. Qed.

Lemma within_repeat_until fuel body :
  St → within St R body → within St R (repeat_until fuel body).
Proof.
  intros HSt Hbody. induction fuel as [|fuel IH]; simpl; [by intros s g|].
  apply within_bind; [done|]. intros [|]; [apply within_ret | done].
Qed.

Lemma within_while_true body : St → within St R body → within St R (while_true body).
Proof. intros HSt Hbody s g. apply (within_repeat_until (S (length g)) body HSt Hbody). Qed.

Lemma within_Returns {A} (m : M A) s g a s' g' :
  within St R m → m s g = Returns a s' g' → R s s'.
Proof. intros H E. specialize (H s g). by rewrite E in H. Qed.

Lemma within_Raises {A} (m : M A) s g e s' g' :
  within St R m → m s g = Raises e s' g' → R s s'.
Proof. intros H E. specialize (H s g). by rewrite E in H. Qed.

Lemma within_Starved {A} (m : M A) s g :
  within St R m → m s g = Starved → St.
Proof. intros H E. specialize (H s g). by rewrite E in H. Qed.
End Frames.

Create HintDb engine discriminated.
#[global] Hint Unfold random_random random_uniform random_randint random_choice
  get_pos get_direction get_route get_turned get_on_the_road get_done
  get_cars_count get_step_count put_pos put_direction put_route put_turned
  put_on_the_road put_done add_cars_count read_cell write_cell
  _is_cell_vacant __update_agent_view __check_colision __is_gate_free
  __reached_dest py_div agent_obs get_agent_obs __get_next_move gas_target
  __update_agent_pos choose_gate init_attempt __init_full_obs arrival_attempt
  reset movement_pass arrival_pass departure_pass termination_check
  reward_finalization step seed : engine.

(** The assignments of the model change one attribute each. *)
Ltac frame_update :=
  let s := fresh "s" in let s' := fresh "s'" in let H := fresh "H" in
  intros s s' H; apply bind_Some in H as (? & ? & H);
  injection H as <-; unfold keeps; done.

(** One rule of the frame calculus; [tac] is tried on the assignments that
    are not plain attribute frames. *)
Ltac frame_step_by tac :=
  lazymatch goal with
  | |- within _ _ (mbind _ _) => apply within_bind; [tc_solve| |intros ?]
  | |- within _ _ (mret _) => apply within_ret; tc_solve
  | |- within _ _ (ret _) => apply within_ret; tc_solve
  | |- within _ _ (raise _) => apply within_raise; tc_solve
  | |- within _ _ (gets _ _) => apply within_gets; tc_solve
  | |- within _ _ (reads _) => apply within_reads; tc_solve
  | |- within _ _ draw => apply within_draw; [tc_solve | exact I]
  | |- within _ _ (modify _) =>
      apply within_modify; first [intros ?; unfold keeps; done | tac]
  | |- within _ _ (update _ _) =>
      apply within_update; [tc_solve | first [frame_update | tac]]
  | |- within _ _ (foldM _ _ _) => apply within_foldM; [tc_solve | intros ? ?]
  | |- within _ _ (for_each _ _) => apply within_for_each; [tc_solve | intros ?]
  | |- within _ _ (while_true _) => apply within_while_true; [tc_solve | exact I |]
  | |- within _ _ (if ?b then _ else _) => destruct b
  | |- within _ _ (match ?o with Some _ => _ | None => _ end) => destruct o
  | |- within _ _ (let '(_, _) := ?p in _) => destruct p
  | |- within _ _ (match ?p with (_, _) => _ end) => destruct p
  | |- within _ _ _ => progress autounfold with engine
  end.

Ltac frame_step := frame_step_by fail.

Ltac frame_auto := repeat frame_step.

(** What a frame lemma [L] says of a run in the context. *)
Tactic Notation "framed" uconstr(L) :=
  match goal with
  | H : _ _ _ = Returns _ _ _ |- _ => pose proof (within_Returns _ _ _ _ _ _ _ _ L H)
  end.

(** ** Frames of the passes of [step] *)

Section EngineFrames.
Context (cfg : config).

Lemma observation_pure : frame eq (get_agent_obs cfg).
Proof. frame_auto. Qed.
End EngineFrames.

Section EngineFrames2.
Context (cfg : config).

Lemma update_agent_pos_frame i move :
  within False (keeps movement_frame) (__update_agent_pos cfg i move).
Proof. frame_auto. Qed.

Lemma movement_pass_frame acts rw :
  within False (keeps movement_frame) (movement_pass cfg acts rw).
Proof. frame_auto. Qed.

Lemma arrival_pass_counter : frame (keeps ledger) (arrival_pass cfg).
Proof. frame_auto. Qed.

Lemma departure_pass_counter : frame (keeps ledger) (departure_pass cfg).
Proof. frame_auto. Qed.

Lemma termination_check_counter : frame (keeps ledger) (termination_check cfg).
Proof. frame_auto. Qed.

Lemma reward_finalization_frame rw :
  frame (keeps (λ s, (_step_count s, _agent_dones s, on_the_road s, agent_pos s,
                      _full_obs s, curr_cars_count s)))
        (reward_finalization cfg rw).
Proof. frame_auto. Qed.
End EngineFrames2.

(** ** The step counter and the horizon *)

Section Horizon.
Context (cfg : config).

Lemma step_counter acts s g res s' g' :
  step cfg acts s g = Returns res s' g' → _step_count s' = _step_count s + 1.
Proof.
  intros H. unfold step in H. run.
  framed (movement_pass_frame cfg _ _).
  framed (arrival_pass_counter cfg).
  framed (departure_pass_counter cfg).
  framed (termination_check_counter cfg).
  framed (reward_finalization_frame cfg _).
  framed (observation_pure cfg).
  unfold keeps, movement_frame in *. simplify_eq/=. congruence.
Qed.

Lemma later_steps_counter s s' :
  later_steps cfg s s' → _step_count s ≤ _step_count s'.
Proof.
  induction 1 as [|s acts g res s1 g1 s2 Hstep _ IH]; [lia|].
  apply step_counter in Hstep. lia.
Qed.

Lemma termination_check_flags s g u s' g' :
  termination_check cfg s g = Returns u s' g' →
  _max_steps ≤ _step_count s →
  ∀ i, (i < n_agents cfg)%nat → _agent_dones s' !! i = Some true.
Proof.
  intros H Hk. unfold termination_check, get_step_count in H. run; [|lia].
  match goal with H : for_each _ _ _ _ = Returns _ _ _ |- _ => revert H end.
  apply (for_range_inv (λ k st, ∀ i, (i < k)%nat → _agent_dones st !! i = Some true)).
  - intros k st gt ut st' gt' Hkn HI Hbody i Hi. unfold put_done in Hbody. run. simpl.
    destruct (decide (i = k)) as [->|Hne].
    + by rewrite list_lookup_insert_eq.
    + rewrite list_lookup_insert_ne by done. apply HI. lia.
  - intros i Hi. lia.
Qed.

Lemma step_flags_at_horizon acts s g res s' g' :
  step cfg acts s g = Returns res s' g' →
  _max_steps ≤ _step_count s' →
  ∀ i, (i < n_agents cfg)%nat →
    done_flags res !! i = Some true ∧ _agent_dones s' !! i = Some true.
Proof.
  intros H Hk i Hi. pose proof (step_counter _ _ _ _ _ _ H) as Hcount.
  unfold step in H. run. simpl.
  framed (movement_pass_frame cfg _ _).
  framed (arrival_pass_counter cfg).
  framed (departure_pass_counter cfg).
  framed (reward_finalization_frame cfg _).
  framed (observation_pure cfg).
  unfold keeps, movement_frame in *. simplify_eq/=.
  match goal with H : termination_check _ _ _ = Returns _ _ _ |- _ =>
    eapply termination_check_flags in H; [|lia|exact Hi] end.
  split; congruence.
Qed.
End Horizon.

(** * The claims *)

(** C8, as amended.  Every call of [step] adds one to the global step
    counter and nothing bounds it, so it passes the horizon of 100 when the
    caller keeps stepping; once the counter has reached 100, every agent's
    done flag is true at that step and at every later step, both in the list
    [step] returns and in the object. *)
Theorem horizon_flags_sticky cfg s s' acts g res s'' g'' :
  _max_steps - 1 ≤ _step_count s →
  later_steps cfg s s' →
  step cfg acts s' g = Returns res s'' g'' →
  _step_count s'' = _step_count s' + 1 ∧
  ∀ i, (i < n_agents cfg)%nat →
    done_flags res !! i = Some true ∧ _agent_dones s'' !! i = Some true.
Proof.
  intros Hs Hlater Hstep. pose proof (later_steps_counter _ _ _ Hlater) as Hmono.
  pose proof (step_counter _ _ _ _ _ _ _ Hstep) as Hcount. split; [done|].
  apply (step_flags_at_horizon _ _ _ _ _ _ _ Hstep). lia.
Qed.

Lemma horizon_flags_sticky_witness :
  ∃ s0 obs s g res s' g',
    constructed default_config = Some s0 ∧
    reset default_config s0 [0; 0; 1; 0; 2; 0; 3; 0; 0; 0; 0; 0; 0]%N = Returns obs s g ∧
    step default_config [1; 1; 1; 1] (set_step_count 99 s) g = Returns res s' g' ∧
    _step_count s' = _step_count (set_step_count 99 s) + 1 ∧
    ∀ i, (i < 4)%nat → done_flags res !! i = Some true ∧ _agent_dones s' !! i = Some true.
Proof.
  eexists _, _, _, _, _, _, _.
  split; [vm_compute; reflexivity|]. split; [vm_compute; reflexivity|].
  match goal with
  | |- ?step_eq ∧ _ => assert step_eq as Hstep by (vm_compute; reflexivity)
  end.
  split; [exact Hstep|].
  refine (horizon_flags_sticky default_config _ _ _ _ _ _ _ _ (later_here _ _) Hstep).
  simpl. unfold _max_steps. lia.
Defined.

(** C8 as stated fails: an episode of 101 steps leaves the counter at 101. *)
Lemma counter_passes_horizon :
  ∃ s0 out s g',
    constructed default_config = Some s0 ∧
    episode default_config (replicate 101 [1; 1; 1; 1]) s0
            ([0; 0; 1; 0; 2; 0; 3; 0] ++ replicate 105 0)%N = Returns out s g' ∧
    _max_steps < _step_count s.
Proof.
  eexists _, _, _, _.
  split; [vm_compute; reflexivity|]. split; [vm_compute; reflexivity|].
  vm_compute. reflexivity.
Qed.

(** ** Misuse of [step] *)

Section Misuse.
Context (cfg : config).

Lemma bind_Raises {A B} (m : M A) (f : A → M B) s g e s' g' :
  m s g = Raises e s' g' → (x ← m; f x) s g = Raises e s' g'.
Proof. intros H. unfold mbind, M_bind, bind. by rewrite H. Qed.

Lemma bind_Returns_eq {A B} (m : M A) (f : A → M B) s g a s' g' :
  m s g = Returns a s' g' → (x ← m; f x) s g = f a s' g'.
Proof. intros H. unfold mbind, M_bind, bind. by rewrite H. Qed.

(** An action other than GAS and BRAKE raises before the slot's car is
    touched. *)
Lemma update_agent_pos_bad_action i move s g :
  move ≠ 0 → move ≠ 1 → ∃ e, __update_agent_pos cfg i move s g = Raises e s g.
Proof.
  intros H0 H1. apply Z.eqb_neq in H0, H1.
  unfold __update_agent_pos, get_pos, get_route, mbind, M_bind, bind, gets, raise.
  destruct (agent_pos s !! i); [|eauto].
  destruct (_agents_routes s !! i); [|eauto].
  rewrite H0, H1. eauto.
Qed.

Lemma movement_pass_body acts rw :
  movement_pass cfg acts rw =
  foldM (movement_body cfg) (zip (seq 0 (length acts)) acts) rw.
Proof. reflexivity. Qed.

Lemma movement_body_frame rw slot :
  within False (keeps movement_frame) (movement_body cfg rw slot).
Proof. unfold movement_body. frame_auto. Qed.

Lemma movement_body_bad_action rw i a s g :
  a ≠ 0 → a ≠ 1 →
  on_the_road s !! i = Some true → _agent_dones s !! i = Some false →
  ∃ e, movement_body cfg rw (i, a) s g = Raises e s g.
Proof.
  intros H0 H1 Hon Hdone.
  destruct (update_agent_pos_bad_action i a s g H0 H1) as [e He]. exists e.
  unfold movement_body, get_done, get_on_the_road, mbind, M_bind, bind, gets.
  by rewrite Hdone, Hon, He.
Qed.

Lemma movement_fold_bad_action l :
  ∀ rw s g i a,
    (i, a) ∈ l → a ≠ 0 → a ≠ 1 →
    on_the_road s !! i = Some true → _agent_dones s !! i = Some false →
    ∃ e s' g', foldM (movement_body cfg) l rw s g = Raises e s' g'
               ∧ keeps movement_frame s s'.
Proof.
  induction l as [|slot l IH]; intros rw s g i a Hin H0 H1 Hon Hdone.
  - by apply elem_of_nil in Hin.
  - simpl. pose proof (movement_body_frame rw slot) as Hframe.
    destruct (movement_body cfg rw slot s g) as [rw1 s1 g1|e s1 g1|] eqn:E.
    + rewrite (bind_Returns_eq _ _ _ _ _ _ _ E).
      apply within_Returns with (1 := Hframe) in E as Hkeep.
      apply elem_of_cons in Hin as [<-|Hin].
      { destruct (movement_body_bad_action rw i a s g H0 H1 Hon Hdone) as [e He].
        congruence. }
      unfold keeps, movement_frame in Hkeep.
      destruct (IH rw1 s1 g1 i a Hin H0 H1) as (e & s' & g' & Hr & Hk).
      * injection Hkeep as -> _ _ _ _. done.
      * injection Hkeep as _ -> _ _ _. done.
      * exists e, s', g'. split; [done|]. unfold keeps, movement_frame in *. congruence.
    + exists e, s1, g1. split; [by apply bind_Raises|].
      by apply within_Raises with (1 := Hframe) in E.
    + by apply within_Starved with (1 := Hframe) in E.
Qed.

Lemma movement_body_idle rw i a a' s g :
  idle s i → movement_body cfg rw (i, a) s g = movement_body cfg rw (i, a') s g.
Proof.
  intros Hidle. unfold movement_body, get_done, get_on_the_road, mbind, M_bind, bind, gets.
  destruct Hidle as [Hd|Hon].
  - by rewrite Hd.
  - destruct (_agent_dones s !! i) as [[|]|]; [done| |done]. by rewrite Hon.
Qed.

Lemma movement_fold_idle l l' :
  ∀ rw s g,
    Forall2 (λ x y : nat * Z, x.1 = y.1 ∧ (x.2 = y.2 ∨ idle s x.1)) l l' →
    foldM (movement_body cfg) l rw s g = foldM (movement_body cfg) l' rw s g.
Proof.
  revert l'. induction l as [|[i a] l IH]; intros l' rw s g Hall.
  - by apply Forall2_nil_inv_l in Hall as ->.
  - apply Forall2_cons_inv_l in Hall as ([i' a'] & k & [Hi Ha] & Hall & ->).
    simpl in Hi, Ha. subst i'. cbn [foldM].
    assert (movement_body cfg rw (i, a) s g = movement_body cfg rw (i, a') s g) as Hhead.
    { destruct Ha as [->|Hidle]; [done | by apply movement_body_idle]. }
    unfold mbind, M_bind, bind. rewrite <- Hhead.
    pose proof (movement_body_frame rw (i, a)) as Hframe.
    destruct (movement_body cfg rw (i, a) s g) as [rw1 s1 g1| |] eqn:E; [|done|done].
    apply within_Returns with (1 := Hframe) in E.
    unfold keeps, movement_frame in E. injection E as Eon Edone _ _ _.
    apply IH. eapply Forall2_impl; [exact Hall|].
    intros x y [? [?|Hidle]]; split; auto. right. unfold idle in *. by rewrite Eon, Edone.
Qed.

Lemma zip_slots_idle s (acts acts' : list Z) :
  ∀ k,
    length acts' = length acts →
    (∀ i a a', acts !! i = Some a → acts' !! i = Some a' → a ≠ a' → idle s (k + i)) →
    Forall2 (λ x y : nat * Z, x.1 = y.1 ∧ (x.2 = y.2 ∨ idle s x.1))
            (zip (seq k (length acts')) acts') (zip (seq k (length acts)) acts).
Proof.
  revert acts'. induction acts as [|a acts IH]; intros [|a' acts'] k Hlen Hdiff;
    simpl in *; try done; try (by constructor).
  constructor.
  - simpl. split; [done|]. destruct (decide (a' = a)) as [|Hne]; [by left|right].
    rewrite <- (Nat.add_0_r k). apply (Hdiff 0%nat a a'); done.
  - apply IH; [lia|]. intros i b b' Hb Hb' Hne.
    replace (S k + i)%nat with (k + S i)%nat by lia. by apply (Hdiff (S i) b b').
Qed.

Lemma step_wrong_length acts s g :
  length acts ≠ n_agents cfg → step cfg acts s g = Raises AssertionError s g.
Proof. intros H. unfold step. by destruct (decide _). Qed.

Lemma step_bad_action acts s g i a :
  length acts = n_agents cfg →
  acts !! i = Some a → a ≠ 0 → a ≠ 1 →
  on_the_road s !! i = Some true → _agent_dones s !! i = Some false →
  ∃ e s' g', step cfg acts s g = Raises e s' g' ∧ _step_count s' = _step_count s + 1.
Proof.
  intros Hlen Hi H0 H1 Hon Hdone. unfold step. destruct (decide _); [|done].
  rewrite movement_pass_body.
  set (s1 := set_step_count (_step_count s + 1) s).
  destruct (movement_fold_bad_action (zip (seq 0 (length acts)) acts)
              (replicate (n_agents cfg) _step_cost) s1 g i a) as (e' & s' & g' & Hr & Hk);
    [|done|done|done|done|].
  - apply list_elem_of_lookup. exists i. apply lookup_zip_with_Some.
    exists i, a. split; [done|]. split; [|done].
    apply lookup_seq_lt. by apply lookup_lt_Some in Hi.
  - exists e', s', g'. split.
    + erewrite (bind_Returns_eq (modify _)); [|reflexivity].
      by apply bind_Raises.
    + unfold keeps, movement_frame in Hk. by injection Hk as _ _ -> _ _.
Qed.

Lemma movement_pass_idle acts acts' rw s g :
  length acts' = length acts →
  (∀ i a a', acts !! i = Some a → acts' !! i = Some a' → a ≠ a' → idle s i) →
  movement_pass cfg acts' rw s g = movement_pass cfg acts rw s g.
Proof.
  intros Hlen Hdiff. rewrite !movement_pass_body.
  apply movement_fold_idle, (zip_slots_idle s acts acts' 0%nat Hlen).
  intros i a a' Ha Ha' Hne. simpl. apply (Hdiff i a a' Ha Ha' Hne).
Qed.

Lemma step_idle_actions acts acts' s g :
  length acts' = length acts →
  (∀ i a a', acts !! i = Some a → acts' !! i = Some a' → a ≠ a' → idle s i) →
  step cfg acts' s g = step cfg acts s g.
Proof.
  intros Hlen Hdiff. unfold step. rewrite Hlen. destruct (decide _); [|done].
  unfold mbind, M_bind, bind, modify.
  rewrite (movement_pass_idle acts acts'); [done|done|].
  intros i a a' Ha Ha' Hne. apply (Hdiff i a a' Ha Ha' Hne).
Qed.
End Misuse.

(** C5, as amended.  An action vector of the wrong length is refused before
    anything is mutated: [step] raises and the object and the generator are as
    they were.  An action value outside {0, 1} is noticed only when the
    movement pass reaches a slot that is on the road and not done: [step] then
    raises, after the step counter has been incremented.  The action values
    of slots that are done or off the road are never looked at, so an
    out-of-range value there changes nothing. *)
Theorem step_misuse cfg acts s g :
  (length acts ≠ n_agents cfg → step cfg acts s g = Raises AssertionError s g) ∧
  (length acts = n_agents cfg →
   ∀ i a, acts !! i = Some a → a ≠ 0 → a ≠ 1 →
          on_the_road s !! i = Some true → _agent_dones s !! i = Some false →
          ∃ e s' g', step cfg acts s g = Raises e s' g'
                     ∧ _step_count s' = _step_count s + 1) ∧
  (∀ acts', length acts' = length acts →
            (∀ i a a', acts !! i = Some a → acts' !! i = Some a' → a ≠ a' → idle s i) →
            step cfg acts' s g = step cfg acts s g).
Proof.
  split; [apply step_wrong_length|]. split.
  - intros Hlen i a. by apply step_bad_action.
  - intros acts'. apply step_idle_actions.
Qed.

Lemma step_misuse_witness :
  ∃ s0 obs s g,
    constructed default_config = Some s0 ∧
    reset default_config s0 [0; 0; 1; 0; 2; 0; 3; 0; 0; 0; 0; 0; 0]%N = Returns obs s g ∧
    step default_config [1; 1; 1] s g = Raises AssertionError s g ∧
    (∃ e s' g', step default_config [1; 1; 7; 1] s g = Raises e s' g'
                ∧ _step_count s' = _step_count s + 1) ∧
    step default_config [1; 1; 7; 1] (set_on_the_road [true; true; false; true] s) g =
    step default_config [1; 1; 0; 1] (set_on_the_road [true; true; false; true] s) g.
Proof.
  eexists _, _, _, _.
  split; [vm_compute; reflexivity|]. split; [vm_compute; reflexivity|].
  split; [|split].
  - apply (proj1 (step_misuse default_config [1; 1; 1] _ _)). vm_compute. lia.
  - apply (proj1 (proj2 (step_misuse default_config [1; 1; 7; 1] _ _)))
      with (i := 2%nat) (a := 7); first [reflexivity | lia].
  - apply (proj2 (proj2 (step_misuse default_config [1; 1; 0; 1] _ _))); [reflexivity|].
    intros [|[|[|[|i]]]] a a' Ha Ha' Hne; simplify_eq/=.
    right. reflexivity.
Defined.

(** C5 as stated fails: with slot 1 asking for action 5, [step] raises after
    the counter went from 0 to 1 and the car of slot 0 moved a cell. *)
Lemma bad_action_mutates_state :
  ∃ s0 obs s g s' g',
    constructed default_config = Some s0 ∧
    reset default_config s0 [0; 0; 1; 0; 2; 0; 3; 0; 0; 0; 0; 0; 0]%N = Returns obs s g ∧
    step default_config [0; 5; 0; 0] s g = Raises ActionNotFound s' g' ∧
    _step_count s = 0 ∧ _step_count s' = 1 ∧
    agent_pos s !! 0%nat = Some (7, 0) ∧ agent_pos s' !! 0%nat = Some (7, 1).
Proof.
  eexists _, _, _, _, _, _.
  split; [vm_compute; reflexivity|]. split; [vm_compute; reflexivity|].
  split; [vm_compute; reflexivity|]. repeat split; vm_compute; reflexivity.
Qed.
Section Penalty.
Context (cfg : config).

Lemma reward_finalization_spec rw s g rewards s' g' :
  reward_finalization cfg rw s g = Returns rewards s' g' →
  ∀ i, (i < n_agents cfg)%nat → finalized rw s i rewards s'.
Proof.
  unfold reward_finalization. intros H.
  apply (fold_range_inv
           (λ k rewards st,
              keeps (λ s, (_step_count s, on_the_road s)) s st ∧
              (∀ i, (i < k)%nat → finalized rw s i rewards st) ∧
              (∀ i, (k ≤ i)%nat → rewards !! i = rw !! i ∧
                    _total_episode_reward st !! i = _total_episode_reward s !! i)))
    in H.
  - apply H.
  - clear. intros k acc st g acc' st' g' Hk (Hkeep & Hdone & Htodo) Hbody.
    unfold get_on_the_road, get_step_count in Hbody. run.
    all: unfold keeps in Hkeep; injection Hkeep as Hc Hon.
    all: destruct (Htodo k (le_n _)) as [Hacc Htot].
    all: split; [unfold keeps; simpl; congruence|].
    all: split; [intros i Hi; destruct (decide (i = k)) as [->|Hne] | intros i Hi].
    + rewrite list_lookup_insert_eq in * by done. simplify_eq.
      eexists _, _, true. simpl. rewrite !list_lookup_insert_eq by done.
      rewrite <- Hacc, <- Htot, <- Hon, <- Hc. done.
    + destruct (Hdone i ltac:(lia)) as (b & t & on & ? & ? & ? & ? & ?).
      exists b, t, on. simpl. rewrite !list_lookup_insert_ne by done. done.
    + simpl. rewrite !list_lookup_insert_ne by lia. apply Htodo. lia.
    + simplify_eq.
      eexists _, _, false. simpl. rewrite !list_lookup_insert_eq by done.
      rewrite <- Hacc, <- Htot, <- Hon. done.
    + destruct (Hdone i ltac:(lia)) as (b & t & on & ? & ? & ? & ? & ?).
      exists b, t, on. simpl. rewrite !list_lookup_insert_ne by done. done.
    + simpl. rewrite !list_lookup_insert_ne by lia. apply Htodo. lia.
  - split; [done|]. split; [intros i Hi; lia | done].
Qed.
End Penalty.

(** C6.  Of the step that returned: with [base] the reward slot [i] got in
    the movement pass, its reward for the step is [base] plus -0.01 times the
    global step counter if the car of the slot is on the road once the
    movement, arrival and departure passes are over, and [base] otherwise;
    that reward is added to the slot's episode total. *)
Theorem time_penalty_on_road cfg acts s g res s' g' :
  step cfg acts s g = Returns res s' g' →
  ∃ rw s1 g1,
    movement_pass cfg acts (replicate (n_agents cfg) _step_cost)
                  (set_step_count (_step_count s + 1) s) g = Returns rw s1 g1 ∧
    _step_count s' = _step_count s + 1 ∧
    ∀ i, (i < n_agents cfg)%nat →
      ∃ base total on,
        rw !! i = Some base ∧ _total_episode_reward s !! i = Some total ∧
        on_the_road s' !! i = Some on ∧
        let r := (if on : bool then base + (-1 # 100) * inject_Z (_step_count s') else base)%Q in
        step_rewards res !! i = Some r ∧ _total_episode_reward s' !! i = Some (total + r)%Q.
Proof.
  intros H. pose proof (step_counter _ _ _ _ _ _ _ H) as Hcount.
  unfold step in H. run. simpl in *.
  framed (movement_pass_frame cfg _ _).
  framed (arrival_pass_counter cfg).
  framed (departure_pass_counter cfg).
  framed (termination_check_counter cfg).
  framed (reward_finalization_frame cfg _).
  framed (observation_pure cfg).
  subst. eexists _, _, _. split; [eassumption|]. split; [done|].
  intros i Hi.
  match goal with
  | H : reward_finalization _ _ _ _ = Returns _ _ _ |- _ =>
      destruct (reward_finalization_spec _ _ _ _ _ _ _ H i Hi)
        as (base & total & on & Hb & Ht & Hon & Hr & Htot)
  end.
  exists base, total, on.
  unfold keeps, movement_frame, ledger in *. simplify_eq/=.
  destruct on; repeat split; try done; congruence.
Qed.

Lemma time_penalty_on_road_witness :
  ∃ s0 obs s g res s' g',
    constructed default_config = Some s0 ∧
    reset default_config s0 [0; 0; 1; 0; 2; 0; 3; 0; 0; 0; 0; 0; 0]%N = Returns obs s g ∧
    step default_config [0; 1; 0; 1] (set_step_count 41 s) g = Returns res s' g' ∧
    _step_count s' = 42 ∧
    step_rewards res = [(0 + (-1 # 100) * inject_Z 42)%Q; (0 + (-1 # 100) * inject_Z 42)%Q;
                        (0 + (-1 # 100) * inject_Z 42)%Q; (0 + (-1 # 100) * inject_Z 42)%Q] ∧
    ∃ rw s1 g1,
      movement_pass default_config [0; 1; 0; 1] (replicate 4 _step_cost)
                    (set_step_count (41 + 1) s) g = Returns rw s1 g1.
Proof.
  eexists _, _, _, _, _, _, _.
  split; [vm_compute; reflexivity|]. split; [vm_compute; reflexivity|].
  match goal with
  | |- ?step_eq ∧ _ => assert step_eq as Hstep by (vm_compute; reflexivity)
  end.
  split; [exact Hstep|]. split; [vm_compute; reflexivity|].
  split; [vm_compute; reflexivity|].
  destruct (time_penalty_on_road _ _ _ _ _ _ _ Hstep) as (rw & s1 & g1 & Hmove & _).
  exists rw, s1, g1. exact Hmove.
Defined.

(** C3 at a failing input.  The car of slot 0 drives straight through while
    the others brake; it reaches its destination on step 13, where the
    departure pass takes it off the road and the live-car count falls from 4
    to 3.  On step 14 the car is off the road, yet the departure pass finds
    its recorded position on a destination cell again and decrements the
    count once more: three cars are on the road and the count is 2. *)
Theorem departed_car_counted_again :
  ∃ s0 out13 s13 g13 out14 s14 g14,
    constructed default_config = Some s0 ∧
    episode default_config (replicate 13 [0; 1; 1; 1]) s0
            ([0; 0; 1; 0; 2; 0; 3; 0; 0; 0; 0; 0] ++ replicate 13 (2 ^ 52))%N
      = Returns out13 s13 g13 ∧
    on_the_road s13 = [false; true; true; true] ∧ curr_cars_count s13 = 3 ∧
    agent_pos s13 !! 0%nat = Some (7, 13) ∧
    step default_config [0; 1; 1; 1] s13 [2 ^ 52]%N = Returns out14 s14 g14 ∧
    on_the_road s14 = [false; true; true; true] ∧ curr_cars_count s14 = 2.
Proof.
  eexists _, _, _, _, _, _, _.
  split; [vm_compute; reflexivity|]. split; [vm_compute; reflexivity|].
  split; [vm_compute; reflexivity|]. split; [vm_compute; reflexivity|].
  split; [vm_compute; reflexivity|]. split; [vm_compute; reflexivity|].
  split; vm_compute; reflexivity.
Qed.

(** C4 at a failing input.  [seed] stores a generator in [np_random] and
    leaves the generator of the [random] module as it is; every random choice
    of the class is drawn from the latter.  Two runs from the same seed, with
    no actions at all, already differ in their first observation when the
    module generator differs. *)
Theorem seed_leaves_random_alone (gym_np_random gym_hash_seed : Z → Z) (n : Z) :
  ∃ s0, constructed default_config = Some s0 ∧
    ∀ g, ∃ seeds s1,
      seed gym_np_random gym_hash_seed n s0 g = Returns seeds s1 g ∧
      ∃ obs1 s2 g2 obs2 s2' g2',
        reset default_config s1 [0; 0; 1; 0; 2; 0; 3; 0; 0; 0; 0; 0]%N = Returns obs1 s2 g2 ∧
        reset default_config s1 [1; 0; 0; 0; 2; 0; 3; 0; 0; 0; 0; 0]%N = Returns obs2 s2' g2' ∧
        obs1 ≠ obs2.
Proof.
  eexists. split; [vm_compute; reflexivity|]. intros g.
  eexists _, _. split; [reflexivity|].
  eexists _, _, _, _, _, _.
  split; [vm_compute; reflexivity|]. split; [vm_compute; reflexivity|].
  discriminate.
Qed.

(** * The occupancy grid *)

Section Grid.
Context (cfg : config).

Lemma is_valid_spec p :
  is_valid cfg p = true ↔ 0 ≤ p.1 < grid_rows cfg ∧ 0 ≤ p.2 < grid_cols cfg.
Proof. unfold is_valid. rewrite !andb_true_iff, !Z.leb_le, !Z.ltb_lt. tauto. Qed.

Lemma py_index_inside len i : 0 ≤ i < len → py_index len i = Some (Z.to_nat i).
Proof.
  intros H. unfold py_index.
  destruct (Z.leb_spec 0 i), (Z.ltb_spec i len); simpl; try lia. done.
Qed.

Lemma grid_get_inside grid p :
  shape cfg grid → is_valid cfg p = true →
  ∃ row tag, grid !! Z.to_nat p.1 = Some row ∧ row !! Z.to_nat p.2 = Some tag
             ∧ grid_get grid p = Some tag.
Proof.
  intros [Hrows Hcols] Hp. apply is_valid_spec in Hp as [Hr Hc].
  destruct (lookup_lt_is_Some_2 grid (Z.to_nat p.1)) as [row Hrow]; [lia|].
  assert (length row = Z.to_nat (grid_cols cfg)) as Hlen.
  { eapply Forall_lookup_1 in Hcols; [exact Hcols | exact Hrow]. }
  destruct (lookup_lt_is_Some_2 row (Z.to_nat p.2)) as [tag Htag]; [lia|].
  exists row, tag. split; [done|]. split; [done|].
  unfold grid_get, py_get. rewrite py_index_inside by lia. simpl. rewrite Hrow. simpl.
  rewrite py_index_inside by lia. simpl. done.
Qed.

Lemma grid_set_inside grid p v grid' :
  shape cfg grid → is_valid cfg p = true → grid_set grid p v = Some grid' →
  shape cfg grid' ∧ grid_get grid' p = Some v ∧
  ∀ q, is_valid cfg q = true → q ≠ p → grid_get grid' q = grid_get grid q.
Proof.
  intros Hshape Hp Hset.
  destruct (grid_get_inside grid p Hshape Hp) as (row & tag & Hrow & Htag & _).
  destruct Hshape as [Hrows Hcols]. apply is_valid_spec in Hp as [Hr Hc].
  assert (length row = Z.to_nat (grid_cols cfg)) as Hlen.
  { eapply Forall_lookup_1 in Hcols; [exact Hcols | exact Hrow]. }
  unfold grid_set, py_get, py_set in Hset.
  rewrite py_index_inside in Hset by lia. simpl in Hset. rewrite Hrow in Hset. simpl in Hset.
  rewrite py_index_inside in Hset by lia. simpl in Hset. injection Hset as <-.
  assert (shape cfg (<[Z.to_nat p.1:=<[Z.to_nat p.2:=v]> row]> grid)) as Hshape'.
  { split; [by rewrite length_insert|].
    apply Forall_insert; [done|]. by rewrite length_insert. }
  split; [done|]. split.
  - unfold grid_get, py_get. rewrite length_insert, py_index_inside by lia. simpl.
    rewrite list_lookup_insert_eq by lia. simpl.
    rewrite length_insert, py_index_inside by lia. simpl.
    by rewrite list_lookup_insert_eq by lia.
  - intros q Hq Hne. apply is_valid_spec in Hq as [Hqr Hqc].
    unfold grid_get, py_get. rewrite length_insert, !py_index_inside by lia. simpl.
    destruct (decide (Z.to_nat q.1 = Z.to_nat p.1)) as [Heq|Hneq].
    + rewrite Heq, list_lookup_insert_eq, Hrow by lia. simpl.
      rewrite length_insert, !py_index_inside by lia. simpl.
      rewrite list_lookup_insert_ne; [done|].
      intros Heq2. apply Hne. destruct p, q. simpl in *. f_equal; lia.
    + by rewrite list_lookup_insert_ne.
Qed.

(** What a write does to the two tests. *)
Lemma grid_set_tests grid p v grid' :
  shape cfg grid → is_valid cfg p = true → grid_set grid p v = Some grid' →
  shape cfg grid' ∧
  (∀ q, agent_at cfg grid' q = if decide (q = p) then has_agent v else agent_at cfg grid q) ∧
  (∀ q, empty_at cfg grid' q = if decide (q = p) then is_empty_tag v else empty_at cfg grid q).
Proof.
  intros Hshape Hp Hset.
  destruct (grid_set_inside grid p v grid' Hshape Hp Hset) as (Hshape' & Hsame & Hother).
  split; [done|].
  split; intros q; unfold agent_at, empty_at; (destruct (decide (q = p)) as [->|Hne];
    [by rewrite Hp, Hsame |]);
    (destruct (is_valid cfg q) eqn:Hq; [|done]); by rewrite Hother.
Qed.

Lemma empty_not_agent grid p : empty_at cfg grid p = true → agent_at cfg grid p = false.
Proof.
  unfold empty_at, agent_at. destruct (is_valid cfg p); [|done]. simpl.
  destruct (grid_get grid p) as [tag|]; [|done]. unfold is_empty_tag.
  intros Htag. apply String.eqb_eq in Htag as ->. reflexivity.
Qed.

Lemma check_colision_Returns p s g b s' g' :
  __check_colision cfg p s g = Returns b s' g' → s' = s ∧ g' = g ∧ b = occupied cfg s p.
Proof.
  unfold __check_colision, read_cell, occupied, agent_at. intros H. run.
  - by rewrite H.
  - done.
Qed.

Lemma is_cell_vacant_Returns p s g b s' g' :
  _is_cell_vacant cfg p s g = Returns b s' g' → s' = s ∧ g' = g ∧ b = vacant cfg s p.
Proof.
  unfold _is_cell_vacant, read_cell, vacant, empty_at. intros H. run.
  - by rewrite H.
  - done.
Qed.

Lemma agent_tag_has_agent i : has_agent (agent_tag i) = true.
Proof. reflexivity. Qed.
End Grid.

(** * Grid and registry agree *)

Section Registry.
Context (cfg : config).

Lemma tracked_core s s' : core s' = core s → tracked cfg s → tracked cfg s'.
Proof.
  unfold core. intros [= Hg Hon Hpos] [H1 H2 H3 H4 H5].
  split; unfold occupied in *; rewrite ?Hg, ?Hon, ?Hpos; done.
Qed.

Lemma exact_core s s' : core s' = core s → exact cfg s → exact cfg s'.
Proof.
  unfold core, exact, occupied. intros [= Hg Hon Hpos] H. rewrite Hg, Hon, Hpos. done.
Qed.

(** A car on the road moves to a vacant cell. *)
Lemma tracked_move s s' i curr np g1 g2 :
  tracked cfg s →
  on_the_road s !! i = Some true → agent_pos s !! i = Some curr →
  vacant cfg s np = true →
  grid_set (_full_obs s) curr PRE_empty = Some g1 →
  grid_set g1 np (agent_tag i) = Some g2 →
  _full_obs s' = g2 → on_the_road s' = on_the_road s →
  agent_pos s' = <[i:=np]> (agent_pos s) →
  tracked cfg s' ∧ (exact cfg s → exact cfg s').
Proof.
  intros [Hshape Hslots Hvalid Hmarked Hapart] Hon Hcurr Hvac Hg1 Hg2 Hgrid Hroad Hpos.
  assert (is_valid cfg np = true) as Hnp.
  { unfold vacant, empty_at in Hvac. by apply andb_true_iff in Hvac as [? _]. }
  assert (is_valid cfg curr = true) as Hvcurr by eauto.
  destruct (grid_set_tests cfg _ _ _ _ Hshape Hvcurr Hg1) as (Hshape1 & Hag1 & _).
  destruct (grid_set_tests cfg _ _ _ _ Hshape1 Hnp Hg2) as (Hshape2 & Hag2 & _).
  assert (∀ q, occupied cfg s' q =
               if decide (q = np) then true
               else if decide (q = curr) then false else occupied cfg s q) as Hocc.
  { intros q. unfold occupied. rewrite Hgrid, Hag2, Hag1. done. }
  assert (occupied cfg s np = false) as Hfree by by apply empty_not_agent.
  assert (∀ j p, j ≠ i → on_the_road s !! j = Some true → agent_pos s !! j = Some p →
                 p ≠ np ∧ p ≠ curr) as Hothers.
  { intros j p Hne Hj Hp. split; intros ->.
    - destruct (Hmarked j Hj) as (p' & Hp' & Ho). congruence.
    - apply Hne. eapply Hapart; eauto. }
  split; [split|].
  - by rewrite Hgrid.
  - by rewrite Hroad.
  - intros j p. rewrite Hpos. destruct (decide (j = i)) as [->|Hne].
    + rewrite lookup_insert_eq. by intros [= <-].
    + rewrite lookup_insert_ne by done. eauto.
  - intros j. rewrite Hroad, Hpos. intros Hj. destruct (decide (j = i)) as [->|Hne].
    + exists np. rewrite lookup_insert_eq, Hocc. by rewrite decide_True.
    + rewrite lookup_insert_ne by done.
      destruct (Hmarked j Hj) as (p & Hp & Ho). exists p. split; [done|].
      destruct (Hothers j p Hne Hj Hp). rewrite Hocc, !decide_False by done. done.
  - intros j k p. rewrite Hroad, Hpos. intros Hj Hk.
    destruct (decide (j = i)) as [->|Hji], (decide (k = i)) as [->|Hki];
      rewrite ?lookup_insert_eq, ?lookup_insert_ne by done; try done.
    + intros [= <-] Hp. by destruct (Hothers k np Hki Hk Hp).
    + intros Hp [= <-]. by destruct (Hothers j np Hji Hj Hp).
    + eauto.
  - intros Hexact q. rewrite Hocc, Hroad, Hpos.
    destruct (decide (q = np)) as [->|Hqn].
    + intros _. exists i. by rewrite lookup_insert_eq.
    + destruct (decide (q = curr)) as [->|Hqc]; [done|].
      intros Ho. destruct (Hexact q Ho) as (j & Hj & Hp). exists j. split; [done|].
      rewrite lookup_insert_ne; [done|]. intros <-. congruence.
Qed.

(** A slot that is off the road enters on a vacant cell. *)
Lemma tracked_spawn s s' k p g1 :
  tracked cfg s →
  on_the_road s !! k = Some false → vacant cfg s p = true →
  grid_set (_full_obs s) p (agent_tag k) = Some g1 →
  _full_obs s' = g1 → on_the_road s' = <[k:=true]> (on_the_road s) →
  agent_pos s' = <[k:=p]> (agent_pos s) →
  tracked cfg s' ∧ (exact cfg s → exact cfg s').
Proof.
  intros [Hshape Hslots Hvalid Hmarked Hapart] Hoff Hvac Hg1 Hgrid Hroad Hpos.
  assert (is_valid cfg p = true) as Hp.
  { unfold vacant, empty_at in Hvac. by apply andb_true_iff in Hvac as [? _]. }
  destruct (grid_set_tests cfg _ _ _ _ Hshape Hp Hg1) as (Hshape1 & Hag1 & _).
  assert (∀ q, occupied cfg s' q = if decide (q = p) then true else occupied cfg s q) as Hocc.
  { intros q. unfold occupied. rewrite Hgrid, Hag1. done. }
  assert (occupied cfg s p = false) as Hfree by by apply empty_not_agent.
  assert (k < length (on_the_road s))%nat as Hk by by eapply lookup_lt_Some.
  assert (∀ j, j ≠ k → <[k:=true]> (on_the_road s) !! j = on_the_road s !! j) as Hroad_ne.
  { intros j Hne. by rewrite list_lookup_insert_ne. }
  assert (∀ j q, j ≠ k → on_the_road s !! j = Some true → agent_pos s !! j = Some q → q ≠ p)
    as Hothers.
  { intros j q Hne Hj Hq ->. destruct (Hmarked j Hj) as (p' & Hp' & Ho). congruence. }
  split; [split|].
  - by rewrite Hgrid.
  - by rewrite Hroad, length_insert.
  - intros j q. rewrite Hpos. destruct (decide (j = k)) as [->|Hne].
    + rewrite lookup_insert_eq. by intros [= <-].
    + rewrite lookup_insert_ne by done. eauto.
  - intros j. rewrite Hroad, Hpos. destruct (decide (j = k)) as [->|Hne].
    + intros _. exists p. rewrite lookup_insert_eq, Hocc. by rewrite decide_True.
    + rewrite Hroad_ne, lookup_insert_ne by done. intros Hj.
      destruct (Hmarked j Hj) as (q & Hq & Ho). exists q. split; [done|].
      rewrite Hocc, decide_False; [done|]. eauto.
  - intros i j q. rewrite Hroad, Hpos. intros Hi Hj Hqi Hqj.
    destruct (decide (i = k)) as [->|Hik], (decide (j = k)) as [->|Hjk]; [done| | |].
    + rewrite lookup_insert_eq in Hqi. injection Hqi as <-.
      rewrite Hroad_ne in Hj by done. rewrite lookup_insert_ne in Hqj by done.
      by destruct (Hothers j p Hjk Hj Hqj).
    + rewrite lookup_insert_eq in Hqj. injection Hqj as <-.
      rewrite Hroad_ne in Hi by done. rewrite lookup_insert_ne in Hqi by done.
      by destruct (Hothers i p Hik Hi Hqi).
    + rewrite Hroad_ne in Hi, Hj by done. rewrite lookup_insert_ne in Hqi, Hqj by done.
      eauto.
  - intros Hexact q. rewrite Hocc, Hroad, Hpos.
    destruct (decide (q = p)) as [->|Hqp].
    + intros _. exists k. by rewrite list_lookup_insert_eq, lookup_insert_eq.
    + intros Ho. destruct (Hexact q Ho) as (j & Hj & Hq). exists j.
      assert (j ≠ k) by (intros ->; congruence).
      by rewrite Hroad_ne, lookup_insert_ne.
Qed.
End Registry.

Section Targets.
Context (cfg : config).

Lemma gas_target_core i move route curr :
  within False (keeps core) (gas_target cfg i move route curr).
Proof. frame_auto. Qed.

Lemma get_next_move_pure move route curr i :
  within False eq (__get_next_move move route curr i).
Proof. frame_auto. Qed.

End Targets.

(** [run], reading the two cell tests as the pure tests on the grid. *)
Ltac run_cells :=
  repeat (first
    [ run_step
    | match goal with
      | H : __check_colision _ _ _ _ = Returns _ _ _ |- _ =>
          apply check_colision_Returns in H as (? & ? & ?)
      | H : _is_cell_vacant _ _ _ _ = Returns _ _ _ |- _ =>
          apply is_cell_vacant_Returns in H as (? & ? & ?)
      | H : gas_target _ _ _ _ _ _ _ = Returns _ _ _ |- _ =>
          apply (within_Returns _ _ _ _ _ _ _ _ (gas_target_core _ _ _ _ _)) in H
      | H : __get_next_move _ _ _ _ _ _ = Returns _ _ _ |- _ =>
          apply (within_Returns _ _ _ _ _ _ _ _ (get_next_move_pure _ _ _ _)) in H
      end ]; subst).

Section Passes.
Context (cfg : config).

Lemma update_agent_pos_tracked i move s g r s' g' :
  __update_agent_pos cfg i move s g = Returns r s' g' →
  on_the_road s !! i = Some true →
  tracked cfg s → tracked cfg s' ∧ (exact cfg s → exact cfg s').
Proof.
  intros H Hon Htr.
  unfold __update_agent_pos, put_pos, __update_agent_view, get_pos, get_route in H.
  unfold write_cell in H. run_cells.
  all: try (split; [|intros ?]; by eauto using tracked_core, exact_core).
  match goal with H : keeps core _ _ |- _ => unfold keeps in H; rename H into Hcore end.
  simpl in *.
  match goal with H : <[i:=_]> _ !! i = Some _ |- _ =>
    rewrite lookup_insert_eq in H; injection H as <- end.
  pose proof Hcore as [= Hg Hroad Hpos].
  match goal with
  | Hv : true = vacant _ ?st ?np, H1 : grid_set _ ?curr PRE_empty = Some ?g1,
    H2 : grid_set ?g1 ?np _ = Some ?g2 |- tracked _ ?st' ∧ _ =>
      destruct (tracked_move cfg st st' i curr np g1 g2) as [Ht He];
        [by eapply tracked_core | congruence | congruence | done | done | done
        | done | done | done |]
  end.
  split; [done|]. intros Hex. apply He. by eapply exact_core.
Qed.

Lemma movement_body_tracked rw slot s g rw' s' g' :
  movement_body cfg rw slot s g = Returns rw' s' g' →
  tracked cfg s → tracked cfg s' ∧ (exact cfg s → exact cfg s').
Proof.
  destruct slot as [i a]. unfold movement_body, get_done, get_on_the_road.
  intros H Htr. run; try done.
  match goal with H : __update_agent_pos _ _ _ _ _ = Returns _ _ _ |- _ =>
    by eapply update_agent_pos_tracked in H end.
Qed.

Lemma movement_pass_tracked acts rw s g rw' s' g' :
  movement_pass cfg acts rw s g = Returns rw' s' g' →
  tracked cfg s → tracked cfg s' ∧ (exact cfg s → exact cfg s').
Proof.
  rewrite movement_pass_body. intros H Htr.
  apply (foldM_inv (λ _ _ st, tracked cfg st ∧ (exact cfg s → exact cfg st))
           _ _ (λ seen x acc st gt acc' st' gt' HI Hb,
                  let '(conj Ht He) := HI in
                  let '(conj Ht' He') := movement_body_tracked _ _ _ _ _ _ _ Hb Ht in
                  conj Ht' (λ Hs, He' (He Hs))) [] _ _ _ _ _ _ (conj Htr (λ H, H)) H).
Qed.

Lemma choose_gate_core k : frame (keeps core) (choose_gate cfg k).
Proof. frame_auto. Qed.

Lemma arrival_attempt_tracked k s g b s' g' :
  arrival_attempt cfg k s g = Returns b s' g' →
  on_the_road s !! k = Some false →
  tracked cfg s →
  (tracked cfg s' ∧ (exact cfg s → exact cfg s')) ∧
  (b = false → on_the_road s' !! k = Some false).
Proof.
  intros H Hoff Htr.
  unfold arrival_attempt, put_pos, add_cars_count, put_on_the_road, put_turned,
    put_route, random_randint, __update_agent_view, get_pos in H.
  unfold write_cell in H.
  apply bind_Returns in H as (p & s1 & g1 & Hgate & H).
  apply (within_Returns _ _ _ _ _ _ _ _ (choose_gate_core k)) in Hgate.
  unfold keeps in Hgate. pose proof Hgate as [= Hg Hroad Hpos].
  run_cells; simpl in *.
  - match goal with H : <[k:=_]> _ !! k = Some _ |- _ =>
      rewrite lookup_insert_eq in H; injection H as <- end.
    split; [|done].
    match goal with
    | Hv : true = vacant _ _ _, H1 : grid_set _ _ _ = Some ?g1 |- tracked _ ?st' ∧ _ =>
        destruct (tracked_spawn cfg s1 st' k p g1) as [Ht He];
          [by eapply tracked_core | congruence | done | done | done | done | done |]
    end.
    split; [done|]. intros Hex. apply He. by eapply exact_core.
  - split; [|intros _; congruence].
    split; [by eapply tracked_core | by apply exact_core].
Qed.

Lemma arrival_pass_tracked s g u s' g' :
  arrival_pass cfg s g = Returns u s' g' →
  tracked cfg s → tracked cfg s' ∧ (exact cfg s → exact cfg s').
Proof.
  unfold arrival_pass, random_uniform, random_random, get_cars_count. intros H Htr.
  run; [|done].
  match goal with H : for_each _ _ _ _ = Returns _ _ _ |- _ => revert H end.
  apply (for_range_inv (λ _ st, tracked cfg st ∧ (exact cfg s → exact cfg st)));
    [|by split].
  intros k st gt ut st' gt' Hk [Ht He] Hbody.
  unfold __is_gate_free, get_on_the_road in Hbody. run; try done.
  match goal with H : while_true _ _ _ = Returns _ _ _ |- _ => revert H end.
  apply (while_true_inv
           (λ st', (tracked cfg st' ∧ (exact cfg s → exact cfg st'))
                   ∧ on_the_road st' !! k = Some false)
           (λ st', tracked cfg st' ∧ (exact cfg s → exact cfg st')));
    [|match goal with H : on_the_road st !! k = Some ?b |- _ => by destruct b end].
  intros sa ga b sb gb [[Hta Hea] Hoff] Hatt.
  destruct (arrival_attempt_tracked _ _ _ _ _ _ Hatt Hoff Hta) as [[Htb Heb] Hb].
  destruct b; [split|split; [split|]]; auto.
Qed.
End Passes.

Section Departure.
Context (cfg : config).

Lemma departing_start s : tracked cfg s → departing cfg s 0 s.
Proof.
  intros Htr. split; try done; [apply Htr| |].
  - intros i. split; [|tauto]. intros H. split; [done|]. intros [? _]. lia.
  - intros q. split; [|tauto]. intros H. split; [done|]. intros (_ & h & ? & _). lia.
Qed.

Lemma departing_round s k st g u st' g' :
  tracked cfg s → departing cfg s k st →
  (reached ← __reached_dest cfg k;
   if reached : bool then put_on_the_road k false;; add_cars_count (-1) else mret tt)
    st g = Returns u st' g' →
  departing cfg s (S k) st'.
Proof.
  intros Htr [Hpos Hshape Hslots Hroad Hcells] H.
  unfold __reached_dest, get_pos, put_on_the_road, add_cars_count in H.
  unfold write_cell in H. run; simpl in *.
  - (* the recorded position is a destination *)
    match goal with H : bool_decide _ = true |- _ => apply bool_decide_eq_true in H; rename H into Hdest end.
    match goal with H : agent_pos _ !! k = Some ?p |- _ => rename H into Hk; set (pk := p) in * end.
    rewrite Hpos in Hk.
    assert (is_valid cfg pk = true) as Hvalid by (eapply tr_valid; eauto).
    match goal with H : grid_set _ _ _ = Some _ |- _ =>
      destruct (grid_set_tests cfg _ _ _ _ Hshape Hvalid H) as (Hshape' & Hag & _) end.
    split; simpl.
    + done.
    + done.
    + by rewrite length_insert.
    + intros i. destruct (decide (i = k)) as [->|Hne].
      * rewrite list_lookup_insert_eq by done. split; [done|].
        intros [_ Hngone]. destruct Hngone. split; [lia|eauto].
      * rewrite list_lookup_insert_ne by done. rewrite Hroad. unfold gone.
        split; intros [? Hn]; (split; [done|]); intros [? ?]; apply Hn; (split; [lia|done]).
    + intros q. unfold occupied in *. simpl. rewrite Hag.
      destruct (decide (q = pk)) as [->|Hne].
      * split; [done|]. intros [_ Hn]. destruct Hn. split; [done|]. exists k. split; [lia|done].
      * rewrite Hcells. unfold cleared.
        split; intros [? Hn]; (split; [done|]); intros (? & h & ? & Hh); apply Hn;
          (split; [done|]); exists h; (split; [|done]).
        -- destruct (decide (h = k)) as [->|]; [congruence|lia].
        -- lia.
  - (* it is not *)
    match goal with H : bool_decide _ = false |- _ => apply bool_decide_eq_false in H; rename H into Hdest end.
    match goal with H : agent_pos _ !! k = Some ?p |- _ => rename H into Hk end.
    rewrite Hpos in Hk.
    split; try done.
    + intros i. rewrite Hroad. unfold gone.
      split; intros [? Hn]; (split; [done|]); intros [? (p & Hp & ?)]; apply Hn.
      * split; [|eauto]. destruct (decide (i = k)) as [->|]; [congruence|lia].
      * split; [lia|eauto].
    + intros q. rewrite Hcells. unfold cleared.
      split; intros [? Hn]; (split; [done|]); intros (? & h & ? & Hh); apply Hn;
        (split; [done|]); exists h; (split; [|done]).
      * destruct (decide (h = k)) as [->|]; [congruence|lia].
      * lia.
Qed.

Lemma departure_pass_departing s g u s' g' :
  departure_pass cfg s g = Returns u s' g' →
  tracked cfg s → departing cfg s (n_agents cfg) s'.
Proof.
  unfold departure_pass. intros H Htr. revert H.
  apply (for_range_inv (λ k st, departing cfg s k st)); [|by apply departing_start].
  intros k st gt ut st' gt' _ HI Hbody. by eapply departing_round.
Qed.

Lemma departure_pass_tracked s g u s' g' :
  departure_pass cfg s g = Returns u s' g' →
  tracked cfg s → tracked cfg s' ∧ (exact cfg s → exact cfg s').
Proof.
  intros H Htr. destruct (departure_pass_departing _ _ _ _ _ H Htr)
    as [Hpos Hshape Hslots Hroad Hcells].
  pose proof Htr as [_ Hn Hvalid Hmarked Hapart].
  assert (∀ i p, on_the_road s !! i = Some true → agent_pos s !! i = Some p →
                 ¬ gone cfg s (n_agents cfg) i → p ∉ _destination cfg) as Hstay.
  { intros i p Hi Hp Hng Hd. apply Hng. split; [|eauto].
    apply lookup_lt_Some in Hi. lia. }
  split; [split|].
  - done.
  - congruence.
  - intros i p. rewrite Hpos. eauto.
  - intros i. rewrite Hroad, Hpos. intros [Hi Hng].
    destruct (Hmarked i Hi) as (p & Hp & Ho). exists p. split; [done|].
    apply Hcells. split; [done|]. intros [Hd _]. by eapply Hstay.
  - intros i j p. rewrite !Hroad, Hpos. intros [Hi _] [Hj _]. eauto.
  - intros Hex q. rewrite Hcells, Hpos. intros [Ho Hnc].
    destruct (Hex q Ho) as (i & Hi & Hp). exists i. split; [|done].
    apply Hroad. split; [done|]. intros [_ (p & Hp' & Hd)]. apply Hnc.
    assert (p = q) as -> by congruence.
    split; [done|]. exists i. split; [|done]. apply lookup_lt_Some in Hi. lia.
Qed.
End Departure.

Section StepInvariant.
Context (cfg : config).

Lemma termination_check_core : frame (keeps core) (termination_check cfg).
Proof. frame_auto. Qed.

Lemma reward_finalization_core rw : frame (keeps core) (reward_finalization cfg rw).
Proof. frame_auto. Qed.

Lemma step_tracked acts s g res s' g' :
  step cfg acts s g = Returns res s' g' →
  tracked cfg s → tracked cfg s' ∧ (exact cfg s → exact cfg s').
Proof.
  intros H Htr. unfold step in H. run.
  framed termination_check_core.
  framed (reward_finalization_core _).
  framed (observation_pure cfg). subst.
  repeat match goal with H : keeps core _ _ |- _ => unfold keeps in H end.
  match goal with H : movement_pass _ _ _ _ _ = Returns _ _ _ |- _ =>
    apply movement_pass_tracked in H as [Ht1 He1];
      [|by apply (tracked_core cfg s)] end.
  match goal with H : arrival_pass _ _ _ = Returns _ _ _ |- _ =>
    apply arrival_pass_tracked in H as [Ht2 He2]; [|done] end.
  match goal with H : departure_pass _ _ _ = Returns _ _ _ |- _ =>
    apply departure_pass_tracked in H as [Ht3 He3]; [|done] end.
  split.
  - eapply tracked_core; [|exact Ht3]. congruence.
  - intros Hex. eapply exact_core; [|apply He3, He2, He1]; [congruence|].
    by apply (exact_core cfg s).
Qed.
End StepInvariant.

Section FreshGrid.
Context (cfg : config).

Lemma py_get_elem {A} (l : list A) i x : py_get l i = Some x → x ∈ l.
Proof.
  unfold py_get. intros H. apply bind_Some in H as (k & _ & Hk).
  by eapply list_elem_of_lookup_2.
Qed.

Lemma py_set_Forall {A} (P : A → Prop) (l : list A) i v l' :
  py_set l i v = Some l' → Forall P l → P v → Forall P l' ∧ length l' = length l.
Proof.
  unfold py_set. intros H Hl Hv. apply bind_Some in H as (k & _ & [= <-]).
  split; [|by rewrite length_insert].
  destruct (decide (k < length l)%nat); [by apply Forall_insert|].
  by rewrite list_insert_ge by lia.
Qed.

Lemma grid_set_plain grid p v grid' :
  grid_set grid p v = Some grid' → has_agent v = false →
  Forall (plain_row cfg) grid → Forall (plain_row cfg) grid' ∧ length grid' = length grid.
Proof.
  unfold grid_set. intros H Hv Hgrid.
  apply bind_Some in H as (row & Hrow & H). apply bind_Some in H as (row' & Hrow' & H).
  apply py_get_elem in Hrow.
  assert (plain_row cfg row) as [Hlen Hplain] by by eapply Forall_forall in Hgrid.
  destruct (py_set_Forall _ _ _ _ _ Hrow' Hplain Hv) as [Hplain' Hlen'].
  eapply py_set_Forall; [exact H|done|]. split; [congruence|done].
Qed.

Lemma create_grid_fresh grid :
  __create_grid cfg = Some grid →
  shape cfg grid ∧ ∀ p, agent_at cfg grid p = false.
Proof.
  unfold __create_grid. intros H.
  assert (plain_row cfg (replicate (Z.to_nat (grid_cols cfg)) PRE_wall)) as Hwall.
  { split; [by rewrite length_replicate|]. by apply Forall_replicate. }
  assert (plain_row cfg (replicate (Z.to_nat (grid_cols cfg)) PRE_empty)) as Hempty.
  { split; [by rewrite length_replicate|]. by apply Forall_replicate. }
  apply bind_Some in H as (g1 & Hg1 & H). apply bind_Some in H as (g2 & Hg2 & H).
  destruct (py_set_Forall (plain_row cfg) _ _ _ _ Hg1) as [Hp1 Hl1];
    [by apply Forall_replicate | exact Hempty |].
  destruct (py_set_Forall (plain_row cfg) _ _ _ _ Hg2 Hp1 Hempty) as [Hp2 Hl2].
  rewrite length_replicate in Hl1.
  assert (Forall (plain_row cfg) grid ∧ length grid = Z.to_nat (grid_rows cfg)) as [Hplain Hlen].
  { revert H. generalize (seq 0 (Z.to_nat (grid_rows cfg))). intros rows.
    assert (length g2 = Z.to_nat (grid_rows cfg)) as Hl by congruence.
    clear Hg2 Hl2. revert g2 Hp2 Hl. induction rows as [|row rows IH]; intros g2 Hp2 Hl H; simpl in H.
    - by injection H as <-.
    - destruct (grid_set g2 _ _) as [ga|] eqn:Ha; simpl in H.
      + destruct (grid_set ga _ _) as [gb|] eqn:Hb; simpl in H.
        * eapply grid_set_plain in Ha as [? ?]; [|done|done].
          eapply grid_set_plain in Hb as [? ?]; [|done|done].
          apply (IH gb); [done|congruence|done].
        * exfalso. clear -H. induction rows; simpl in H; [done|auto].
      + exfalso. clear -H. induction rows; simpl in H; [done|auto]. }
  split.
  - split; [done|]. eapply Forall_impl; [exact Hplain|]. by intros row [? _].
  - intros p. unfold agent_at. destruct (is_valid cfg p); [|done]. simpl.
    destruct (grid_get grid p) as [tag|] eqn:Htag; [|done].
    unfold grid_get in Htag. apply bind_Some in Htag as (row & Hrow & Htag).
    apply py_get_elem in Hrow, Htag.
    assert (plain_row cfg row) as [_ Hrowp] by by eapply Forall_forall in Hplain.
    by eapply Forall_forall in Hrowp.
Qed.
End FreshGrid.

(** * reset *)

Section Counting.

Lemma count_insert_true (l : list bool) k :
  l !! k = Some false →
  length (filter (λ b : bool, b = true) (<[k:=true]> l)) =
  S (length (filter (λ b : bool, b = true) l)).
Proof.
  revert k. induction l as [|b l IH]; intros [|k] H; simpl in *; try done.
  - injection H as ->. by rewrite !filter_cons.
  - rewrite !filter_cons. destruct b; simpl; by rewrite IH.
Qed.

Lemma count_bound (l : list bool) k :
  (∀ i, (k ≤ i)%nat → l !! i ≠ Some true) →
  (length (filter (λ b : bool, b = true) l) ≤ k)%nat.
Proof.
  revert k. induction l as [|b l IH]; intros k H; simpl; [lia|].
  destruct k as [|k].
  - destruct b; [by destruct (H 0%nat ltac:(lia))|].
    rewrite filter_cons. simpl. apply (IH 0%nat). intros i Hi. apply (H (S i)). lia.
  - assert (length (filter (λ b : bool, b = true) l) ≤ k)%nat.
    { apply IH. intros i Hi. apply (H (S i)). lia. }
    rewrite filter_cons. destruct b; simpl; lia.
Qed.
End Counting.

Section Reset.
Context (cfg : config).

Lemma grid_set_origin_valid grid v grid' :
  shape cfg grid → grid_set grid (0, 0) v = Some grid' → is_valid cfg (0, 0) = true.
Proof.
  intros [Hrows Hcols] H. unfold grid_set, py_get, py_set in H. simpl in H.
  apply bind_Some in H as (row & Hrow & H). apply bind_Some in Hrow as (kr & Hkr & Hrow).
  apply bind_Some in H as (row' & Hrow' & _). apply bind_Some in Hrow' as (kc & Hkc & _).
  assert (length row = Z.to_nat (grid_cols cfg)) as Hlen.
  { eapply Forall_lookup_1 in Hcols; [exact Hcols | exact Hrow]. }
  unfold py_index in Hkr, Hkc. simpl in Hkr, Hkc.
  destruct (Z.ltb_spec 0 (Z.of_nat (length grid))); [|by rewrite andb_false_r in Hkr].
  destruct (Z.ltb_spec 0 (Z.of_nat (length row))); [|by rewrite andb_false_r in Hkc].
  apply is_valid_spec. simpl. lia.
Qed.

(** A slot that is off the road is parked on (0, 0). *)
Lemma tracked_park s s' k tag g1 :
  tracked cfg s →
  on_the_road s !! k = Some false → has_agent tag = true →
  grid_set (_full_obs s) (0, 0) tag = Some g1 →
  _full_obs s' = g1 → on_the_road s' = on_the_road s →
  agent_pos s' = <[k:=(0, 0)]> (agent_pos s) →
  tracked cfg s'.
Proof.
  intros [Hshape Hslots Hvalid Hmarked Hapart] Hoff Htag Hg1 Hgrid Hroad Hpos.
  pose proof (grid_set_origin_valid _ _ _ Hshape Hg1) as Horigin.
  destruct (grid_set_tests cfg _ _ _ _ Hshape Horigin Hg1) as (Hshape1 & Hag1 & _).
  assert (∀ q, occupied cfg s q = true → occupied cfg s' q = true) as Hocc.
  { intros q Hq. unfold occupied in *. rewrite Hgrid, Hag1. by destruct (decide _). }
  split.
  - by rewrite Hgrid.
  - by rewrite Hroad.
  - intros j q. rewrite Hpos. destruct (decide (j = k)) as [->|Hne].
    + rewrite lookup_insert_eq. by intros [= <-].
    + rewrite lookup_insert_ne by done. eauto.
  - intros j. rewrite Hroad, Hpos. intros Hj.
    assert (j ≠ k) by (intros ->; congruence). rewrite lookup_insert_ne by done.
    destruct (Hmarked j Hj) as (q & Hq & Ho). eauto.
  - intros i j q. rewrite Hroad, Hpos. intros Hi Hj.
    assert (i ≠ k) by (intros ->; congruence). assert (j ≠ k) by (intros ->; congruence).
    rewrite !lookup_insert_ne by done. eauto.
Qed.
End Reset.

Section ResetRun.
Context (cfg : config).

Lemma choose_gate_Returns k s g p s' g' :
  choose_gate cfg k s g = Returns p s' g' →
  p ∈ (_route_vectors cfg).*1 ∧ core s' = core s ∧ curr_cars_count s' = curr_cars_count s.
Proof.
  intros H. split.
  - unfold choose_gate, random_choice, put_direction in H. run.
    by eapply list_elem_of_lookup_2.
  - assert (frame (keeps (λ s, (core s, curr_cars_count s))) (choose_gate cfg k)) as Hf
      by frame_auto.
    apply (within_Returns _ _ _ _ _ _ _ _ Hf) in H. unfold keeps in H.
    split; [exact (f_equal fst H) | exact (f_equal snd H)].
Qed.

Lemma initialised_core k s s' :
  core s' = core s → curr_cars_count s' = curr_cars_count s →
  initialised cfg k s → initialised cfg k s'.
Proof.
  intros Hcore Hcount [Ht He Hr Hc Hs]. pose proof Hcore as [= Hg Hroad Hpos].
  split.
  - by eapply tracked_core.
  - intros Hn. eapply exact_core; [exact Hcore | auto].
  - intros i. rewrite Hroad. auto.
  - unfold live_cars. by rewrite Hcount, Hroad.
  - intros i Hi. unfold placed, parked, occupied. rewrite Hg, Hroad, Hpos, Hcount.
    apply (Hs i Hi).
Qed.

Lemma placed_intro s i p :
  tracked cfg s → on_the_road s !! i = Some true → agent_pos s !! i = Some p →
  p ∈ (_route_vectors cfg).*1 → placed cfg s i.
Proof.
  intros Ht Hi Hp Hgate. split; [done|]. exists p. split; [done|]. split; [done|].
  destruct (tr_marked _ _ Ht i Hi) as (q & Hq & Ho). congruence.
Qed.

Lemma init_attempt_initialised k s g b s' g' :
  (k < n_agents cfg)%nat → initialised cfg k s →
  init_attempt cfg k s g = Returns b s' g' →
  if b then initialised cfg (S k) s' else initialised cfg k s'.
Proof.
  intros Hk Hinit H. unfold init_attempt in H.
  apply bind_Returns in H as (p & s1 & g1 & Hgate & H).
  apply choose_gate_Returns in Hgate as (Hp & Hcore & Hcount).
  apply (initialised_core k s s1 Hcore Hcount) in Hinit. clear Hcore Hcount s.
  destruct Hinit as [Ht He Hr Hc Hs].
  unfold put_pos, add_cars_count, put_on_the_road, put_route, random_randint,
    __update_agent_view, get_pos, get_cars_count in H.
  unfold write_cell in H. run_cells; simpl in *.
  all: try match goal with H : <[?j:=_]> _ !! ?j = Some _ |- _ =>
    rewrite lookup_insert_eq in H; injection H as <- end.
  all: pose proof (Hr k (le_n _) Hk) as Hoff.
  - (* the gate is vacant: the car enters *)
    match goal with
    | Hv : true = vacant _ _ _, Hg : grid_set _ _ _ = Some ?g1 |- initialised _ _ ?st' =>
        destruct (tracked_spawn cfg s1 st' k p g1 Ht Hoff (eq_sym Hv) Hg eq_refl eq_refl eq_refl)
          as [Ht' He']
    end.
    split; [done | auto | | |].
    + intros i Hi Hin. simpl. rewrite list_lookup_insert_ne by lia. apply Hr; lia.
    + unfold live_cars. simpl. rewrite count_insert_true by done.
      rewrite Hc. unfold live_cars. lia.
    + intros i Hi. destruct (decide (i = k)) as [->|Hne].
      * left. eapply placed_intro; [done| | |done]; simpl.
        -- by rewrite list_lookup_insert_eq.
        -- by rewrite lookup_insert_eq.
      * destruct (Hs i ltac:(lia)) as [(Hi1 & q & Hq & Hqg & _)|(Hi1 & Hi2 & Hi3)].
        -- left. eapply placed_intro; [done| | |done]; simpl.
           ++ by rewrite list_lookup_insert_ne.
           ++ by rewrite lookup_insert_ne.
        -- right. unfold parked. simpl.
           rewrite list_lookup_insert_ne, lookup_insert_ne by done. split; [done|]. split; [done|lia].
  - (* it is taken and four cars are in: the slot is parked *)
    match goal with H : (4 <=? _) = true |- _ => apply Z.leb_le in H; rename H into Hfour end.
    assert (live_cars s1 ≤ k)%nat as Hlive.
    { apply count_bound. intros i Hi Htrue.
      assert (i < n_agents cfg)%nat.
      { apply lookup_lt_Some in Htrue. by rewrite (tr_slots _ _ Ht) in Htrue. }
      rewrite Hr in Htrue by done. done. }
    match goal with
    | Hg : grid_set _ _ _ = Some ?g1 |- initialised _ _ ?st' =>
        pose proof (tracked_park cfg s1 st' k _ g1 Ht Hoff (agent_tag_has_agent k) Hg
                      eq_refl eq_refl eq_refl) as Ht'
    end.
    split; [done | | | |].
    + intros Hn. lia.
    + intros i Hi Hin. simpl. apply Hr; lia.
    + done.
    + intros i Hi. destruct (decide (i = k)) as [->|Hne].
      * right. unfold parked. simpl. by rewrite lookup_insert_eq.
      * destruct (Hs i ltac:(lia)) as [(Hi1 & q & Hq & Hqg & _)|(Hi1 & Hi2 & Hi3)].
        -- left. eapply placed_intro; [done| | |done]; simpl; [done|].
           by rewrite lookup_insert_ne.
        -- right. unfold parked. simpl. by rewrite lookup_insert_ne.
  - by split.
Qed.

Lemma init_full_obs_initialised s g u s' g' :
  on_the_road s = replicate (n_agents cfg) false → agent_pos s = ∅ →
  curr_cars_count s = 0 →
  __init_full_obs cfg s g = Returns u s' g' →
  initialised cfg (n_agents cfg) s'.
Proof.
  intros Hroad Hpos Hcount H. unfold __init_full_obs in H. run.
  match goal with H : __create_grid _ = Some _ |- _ =>
    apply create_grid_fresh in H as [Hshape Hfresh] end.
  match goal with H : for_each _ _ _ _ = Returns _ _ _ |- _ => revert H end.
  apply (for_range_inv (λ k st, initialised cfg k st)).
  - intros k st gt ut st' gt' Hk HI.
    apply (while_true_inv (initialised cfg k) (initialised cfg (S k))); [|done].
    intros sa ga b sb gb Ha Hatt. by eapply init_attempt_initialised.
  - split.
    + split; simpl.
      * done.
      * by rewrite Hroad, length_replicate.
      * intros i p. by rewrite Hpos, lookup_empty.
      * intros i. rewrite Hroad. intros Hi. by apply lookup_replicate in Hi as [? _].
      * intros i j p. rewrite Hroad. intros Hi. by apply lookup_replicate in Hi as [? _].
    + intros _ p. unfold occupied. simpl. by rewrite Hfresh.
    + intros i _ Hi. simpl. rewrite Hroad. by apply lookup_replicate_2.
    + unfold live_cars. simpl. rewrite Hroad, Hcount.
      clear. induction (n_agents cfg) as [|n IH]; [done|]. simpl. by rewrite filter_cons.
    + intros i Hi. lia.
Qed.
End ResetRun.

(** ** Computations that only read the object *)

Section Readers.

Lemma reader_ret {A} (a : A) : reader (mret a).
Proof. intros s. left. by exists a. Qed.

Lemma reader_raise {A} e : reader (raise (A:=A) e).
Proof. intros s. right. by exists e. Qed.

Lemma reader_gets {A} e (f : state → option A) : reader (gets e f).
Proof.
  intros s. unfold gets. destruct (f s) as [a|]; [left; by exists a | right; by exists e].
Qed.

Lemma reader_reads {A} (f : state → A) : reader (reads f).
Proof. intros s. left. by exists (f s). Qed.

Lemma reader_bind {A B} (m : M A) (f : A → M B) :
  reader m → (∀ a, reader (f a)) → reader (x ← m; f x).
Proof.
  intros Hm Hf s. unfold mbind, M_bind, bind.
  destruct (Hm s) as [[a Ha]|[e He]].
  - destruct (Hf a s) as [[b Hb]|[e He]]; [left; exists b | right; exists e];
      intros g; by rewrite Ha.
  - right. exists e. intros g. by rewrite He.
Qed.

Lemma reader_foldM {A B} (body : B → A → M B) l acc :
  (∀ acc x, reader (body acc x)) → reader (foldM body l acc).
Proof.
  intros Hbody. revert acc. induction l as [|x l IH]; intros acc; simpl.
  - apply reader_ret.
  - apply reader_bind; [apply Hbody | intros a; apply IH].
Qed.

Lemma reader_Returns {A} (m : M A) s g a s' g' :
  reader m → m s g = Returns a s' g' → s' = s ∧ g' = g ∧ ∀ g2, m s g2 = Returns a s g2.
Proof.
  intros Hm H. destruct (Hm s) as [[b Hb]|[e He]].
  - rewrite Hb in H. injection H as -> -> ->. done.
  - by rewrite He in H.
Qed.
End Readers.

Ltac reader_step :=
  lazymatch goal with
  | |- reader (mbind _ _) => apply reader_bind; [|intros ?]
  | |- reader (mret _) => apply reader_ret
  | |- reader (ret _) => apply reader_ret
  | |- reader (raise _) => apply reader_raise
  | |- reader (gets _ _) => apply reader_gets
  | |- reader (reads _) => apply reader_reads
  | |- reader (foldM _ _ _) => apply reader_foldM; intros ? ?
  | |- reader (if ?b then _ else _) => destruct b
  | |- reader (match ?o with Some _ => _ | None => _ end) => destruct o
  | |- reader _ => progress autounfold with engine
  end.

Section ResetSpec.
Context (cfg : config).

Lemma get_agent_obs_reader : reader (get_agent_obs cfg).
Proof. repeat reader_step. Qed.

Lemma init_full_obs_counters : frame (keeps counters) (__init_full_obs cfg).
Proof. frame_auto. Qed.

Lemma reset_Returns s0 g obs s g' :
  reset cfg s0 g = Returns obs s g' →
  initialised cfg (n_agents cfg) s ∧
  counters s = (0, replicate (n_agents cfg) 0%Q, replicate (n_agents cfg) false,
                replicate (n_agents cfg) false) ∧
  get_agent_obs cfg s g' = Returns obs s g'.
Proof.
  intros H. unfold reset in H. run.
  match goal with H : get_agent_obs _ _ _ = Returns _ _ _ |- _ =>
    apply (reader_Returns _ _ _ _ _ _ get_agent_obs_reader) in H as (-> & -> & Hobs) end.
  match goal with H : for_each _ _ _ _ = Returns _ _ _ |- _ =>
    assert (frame eq (for_each (_entry_gates cfg)
              (λ _, c ← get_cars_count;
                    if c <=? Z.of_nat (n_max cfg) then _ ← random_random; mret tt
                    else mret tt))) as Htail by frame_auto;
    apply (within_Returns _ _ _ _ _ _ _ _ Htail) in H; subst end.
  match goal with H : __init_full_obs _ _ _ = Returns _ _ _ |- _ =>
    pose proof (within_Returns _ _ _ _ _ _ _ _ init_full_obs_counters H) as Hc;
    apply init_full_obs_initialised in H; [|done..] end.
  split; [done|]. split; [|done]. unfold keeps in Hc. by rewrite Hc.
Qed.
End ResetSpec.

Section Derived.
Context (cfg : config).

Lemma derived_mark s s' p tag g1 :
  shape cfg (_full_obs s) → is_valid cfg p = true →
  grid_set (_full_obs s) p tag = Some g1 → has_agent tag = true →
  _full_obs s' = g1 → derived cfg s → derived cfg s'.
Proof.
  intros Hshape Hp Hset Htag Hgrid (fresh & Hfresh & Hd). exists fresh. split; [done|].
  destruct (grid_set_inside cfg _ _ _ _ Hshape Hp Hset) as (_ & _ & Hother).
  destruct (grid_set_tests cfg _ _ _ _ Hshape Hp Hset) as (_ & Hag & _).
  intros q Hq. unfold occupied. rewrite Hgrid, Hag.
  destruct (decide (q = p)) as [->|Hne]; [congruence|].
  intros Ho. rewrite Hother by done. by apply Hd.
Qed.

Lemma init_attempt_derived k s g b s' g' :
  (k < n_agents cfg)%nat → initialised cfg k s → derived cfg s →
  init_attempt cfg k s g = Returns b s' g' → derived cfg s'.
Proof.
  intros Hk Hinit Hder H. unfold init_attempt in H.
  apply bind_Returns in H as (p & s1 & g1 & Hgate & H).
  apply choose_gate_Returns in Hgate as (Hp & Hcore & Hcount).
  apply (initialised_core cfg k s s1 Hcore Hcount) in Hinit.
  assert (derived cfg s1) as Hder1.
  { destruct Hder as (fresh & ? & Hd). exists fresh. split; [done|].
    injection Hcore as Hg _ _. unfold occupied. rewrite Hg. apply Hd. }
  clear Hcore Hcount Hder s.
  pose proof (tr_shape _ _ (in_tracked _ _ _ Hinit)) as Hshape.
  unfold put_pos, add_cars_count, put_on_the_road, put_route, random_randint,
    __update_agent_view, get_pos, get_cars_count in H.
  unfold write_cell in H. run_cells; simpl in *.
  all: try match goal with H : <[?j:=_]> _ !! ?j = Some _ |- _ =>
    rewrite lookup_insert_eq in H; injection H as <- end.
  - match goal with Hv : true = vacant _ _ _, Hg : grid_set _ _ _ = Some _ |- _ =>
      eapply (derived_mark s1 _ p); [done| |exact Hg|apply agent_tag_has_agent|done|done];
      symmetry in Hv; unfold vacant, empty_at in Hv; by apply andb_true_iff in Hv as [? _]
    end.
  - match goal with Hg : grid_set _ _ _ = Some _ |- _ =>
      eapply (derived_mark s1 _ (0, 0));
        [done|by eapply grid_set_origin_valid|exact Hg|apply agent_tag_has_agent|done|done]
    end.
  - done.
Qed.

Lemma init_full_obs_derived s g u s' g' :
  on_the_road s = replicate (n_agents cfg) false → agent_pos s = ∅ →
  curr_cars_count s = 0 →
  __init_full_obs cfg s g = Returns u s' g' → derived cfg s'.
Proof.
  intros Hroad Hpos Hcount H.
  pose proof (init_full_obs_initialised cfg _ _ _ _ _ Hroad Hpos Hcount H) as Hfinal.
  unfold __init_full_obs in H. run.
  match goal with H : __create_grid _ = Some ?fresh |- _ =>
    rename H into Hfresh; pose proof (create_grid_fresh cfg _ Hfresh) as [Hshape Hclean] end.
  match goal with H : for_each _ _ ?st _ = Returns _ _ _ |- _ =>
    assert (initialised cfg 0 st ∧ derived cfg st) as Hstart; [|revert H] end.
  { split.
    - split.
      + split; simpl; [done|by rewrite Hroad, length_replicate| | |].
        * intros i p. by rewrite Hpos, lookup_empty.
        * intros i. rewrite Hroad. intros Hi. by apply lookup_replicate in Hi as [? _].
        * intros i j p. rewrite Hroad. intros Hi. by apply lookup_replicate in Hi as [? _].
      + intros _ p. unfold occupied. simpl. by rewrite Hclean.
      + intros i _ Hi. simpl. rewrite Hroad. by apply lookup_replicate_2.
      + unfold live_cars. simpl. rewrite Hroad, Hcount.
        clear. induction (n_agents cfg) as [|n IH]; [done|]. simpl. by rewrite filter_cons.
      + intros i Hi. lia.
    - eexists. split; [exact Hfresh|]. done. }
  intros Hloop.
  eapply (for_range_inv (λ k st, initialised cfg k st ∧ derived cfg st)); [|exact Hstart|exact Hloop].
  intros k st gt ut st' gt' Hk HI.
  apply (while_true_inv (λ st, initialised cfg k st ∧ derived cfg st)
                        (λ st, initialised cfg (S k) st ∧ derived cfg st)); [|done].
  intros sa ga b sb gb [Ha Hda] Hatt.
  pose proof (init_attempt_initialised cfg _ _ _ _ _ _ Hk Ha Hatt) as Hb.
  pose proof (init_attempt_derived _ _ _ _ _ _ Hk Ha Hda Hatt) as Hdb.
  destruct b; split; done.
Qed.
End Derived.

(** * Counting cells and cars *)

Section Census.
Context (cfg : config).

Lemma elem_of_all_cells p : p ∈ all_cells cfg ↔ is_valid cfg p = true.
Proof.
  unfold all_cells. rewrite is_valid_spec, list_elem_of_bind. split.
  - intros (r & Hp & Hr). apply list_elem_of_bind in Hp as (c & Hp & Hc).
    apply list_elem_of_singleton in Hp as ->. apply elem_of_seqZ in Hr, Hc. simpl. lia.
  - intros [Hr Hc]. exists p.1. split; [|apply elem_of_seqZ; lia].
    apply list_elem_of_bind. exists p.2. split; [|apply elem_of_seqZ; lia].
    apply list_elem_of_singleton. by destruct p.
Qed.

Lemma NoDup_all_cells : NoDup (all_cells cfg).
Proof.
  unfold all_cells. apply NoDup_bind; [| |apply NoDup_seqZ].
  - intros r1 r2 p _ _ H1 H2.
    apply list_elem_of_bind in H1 as (c1 & H1 & _), H2 as (c2 & H2 & _).
    apply list_elem_of_singleton in H1, H2. congruence.
  - intros r _. apply NoDup_bind; [| |apply NoDup_seqZ].
    + intros c1 c2 p _ _ H1 H2. apply list_elem_of_singleton in H1, H2. congruence.
    + intros c _. apply NoDup_singleton.
Qed.

Lemma filter_ext_elem {A} (P Q : A → Prop) `{!∀ x, Decision (P x)} `{!∀ x, Decision (Q x)}
    (l : list A) :
  (∀ x, x ∈ l → (P x ↔ Q x)) → filter P l = filter Q l.
Proof.
  induction l as [|x l IH]; intros Hext; [done|]. rewrite !filter_cons.
  assert (P x ↔ Q x) as Hx by (apply Hext; left).
  rewrite IH by (intros y Hy; apply Hext; by right).
  destruct (decide (P x)), (decide (Q x)); tauto.
Qed.

(** Counting flags and counting slots is the same. *)
Lemma count_slots (l : list bool) k :
  length (filter (λ b : bool, b = true) l) =
  length (filter (λ i, l !! (i - k)%nat = Some true) (seq k (length l))).
Proof.
  revert k. induction l as [|b l IH]; intros k; [done|].
  assert (filter (λ i, (b :: l) !! (i - k)%nat = Some true) (seq (S k) (length l)) =
          filter (λ i, l !! (i - S k)%nat = Some true) (seq (S k) (length l))) as Htail.
  { apply filter_ext_elem. intros i Hi. apply elem_of_seq in Hi.
    replace (i - k)%nat with (S (i - S k)) by lia. done. }
  cbn [length seq]. rewrite !filter_cons, Htail, Nat.sub_diag.
  destruct b; simpl; by rewrite (IH (S k)).
Qed.

Lemma length_live_slots s : length (live_slots s) = live_cars s.
Proof.
  unfold live_slots, live_cars. rewrite (count_slots _ 0).
  f_equal. apply filter_ext_elem. intros i _. by rewrite Nat.sub_0_r.
Qed.

Lemma census s :
  tracked cfg s → exact cfg s → length (occupied_cells cfg s) = live_cars s.
Proof.
  intros [Hshape Hslots Hvalid Hmarked Hapart] Hexact.
  rewrite <- length_live_slots, <- (length_fmap (cell_of s)).
  apply Permutation_length, NoDup_Permutation.
  - apply NoDup_filter, NoDup_all_cells.
  - apply NoDup_fmap_2_strong; [|apply NoDup_filter, NoDup_seq].
    intros i j Hi Hj Heq. apply list_elem_of_filter in Hi as [Hi _], Hj as [Hj _].
    destruct (Hmarked i Hi) as (p & Hp & _), (Hmarked j Hj) as (q & Hq & _).
    assert (cell_of s i = p) as Hci by (unfold cell_of; by rewrite Hp).
    assert (cell_of s j = q) as Hcj by (unfold cell_of; by rewrite Hq).
    assert (p = q) as -> by congruence. eauto.
  - intros p. unfold occupied_cells. rewrite list_elem_of_filter, elem_of_all_cells,
      list_elem_of_fmap. split.
    + intros [Ho _]. destruct (Hexact p Ho) as (i & Hi & Hp). exists i. split.
      * unfold cell_of. by rewrite Hp.
      * apply list_elem_of_filter. split; [done|]. apply elem_of_seq.
        apply lookup_lt_Some in Hi. lia.
    + intros (i & -> & Hi). apply list_elem_of_filter in Hi as [Hi _].
      destruct (Hmarked i Hi) as (p & Hp & Ho). unfold cell_of. rewrite Hp. simpl.
      split; [done|eauto].
Qed.

Lemma reachable_tracked s :
  reachable cfg s → tracked cfg s ∧ ((n_agents cfg ≤ 4)%nat → exact cfg s).
Proof.
  induction 1 as [s0 g obs s g' Hreset|s acts g res s' g' _ [Ht He] Hstep].
  - apply reset_Returns in Hreset as ([Ht He _ _ _] & _). done.
  - destruct (step_tracked _ _ _ _ _ _ _ Hstep Ht) as [Ht' He']. auto.
Qed.
End Census.

Lemma reset_derived cfg s0 g obs s g' :
  reset cfg s0 g = Returns obs s g' → derived cfg s.
Proof.
  intros H. unfold reset in H. run.
  match goal with H : get_agent_obs _ _ _ = Returns _ _ _ |- _ =>
    apply (reader_Returns _ _ _ _ _ _ (get_agent_obs_reader cfg)) in H as (-> & -> & Hobs) end.
  match goal with H : for_each _ _ _ _ = Returns _ _ _ |- _ =>
    assert (frame eq (for_each (_entry_gates cfg)
              (λ _, c ← get_cars_count;
                    if c <=? Z.of_nat (n_max cfg) then _ ← random_random; mret tt
                    else mret tt))) as Htail by frame_auto;
    apply (within_Returns _ _ _ _ _ _ _ _ Htail) in H; subst end.
  match goal with H : __init_full_obs _ _ _ = Returns _ _ _ |- _ =>
    by apply init_full_obs_derived in H end.
Qed.

Lemma dict_set_key_elem {K V} `{EqDecision K} (k k0 : K) (v0 : V) d :
  k ∈ (dict_set k0 v0 d).*1 ↔ k = k0 ∨ k ∈ d.*1.
Proof.
  induction d as [|[k' v'] d IH]; simpl.
  - rewrite list_elem_of_singleton, elem_of_nil. tauto.
  - case_decide as Hk; simpl; rewrite !elem_of_cons.
    + subst. tauto.
    + rewrite IH. tauto.
Qed.

(** On a square grid the keys of [_route_vectors], which [__init_full_obs]
    and the arrival pass draw from, are the four entry gates. *)
Lemma square_keys_are_gates cfg p :
  grid_rows cfg = grid_cols cfg →
  p ∈ (_route_vectors cfg).*1 ↔ p ∈ _entry_gates cfg.
Proof.
  intros Hsquare. unfold _route_vectors, _entry_gates. rewrite <- Hsquare.
  rewrite !dict_set_key_elem. simpl. rewrite !elem_of_cons, !elem_of_nil. tauto.
Qed.

(** C1, as amended.  A [reset] that returns has set the step counter to 0
    and the episode totals, done flags and turned flags to their initial
    values; the grid is the grid of the topology with some cells marked; every
    slot is either on the road, on a key of [_route_vectors] whose cell is
    marked, or off the road with recorded position (0, 0), which only happens
    once four cars are in; the live-car count is the number of slots on the
    road; and the value returned is the output of the observation builder for
    that state.  On a square grid the keys of [_route_vectors] are the entry
    gates. *)
Theorem reset_places_cars cfg s0 g obs s g' :
  reset cfg s0 g = Returns obs s g' →
  counters s = (0, replicate (n_agents cfg) 0%Q, replicate (n_agents cfg) false,
                replicate (n_agents cfg) false) ∧
  derived cfg s ∧
  curr_cars_count s = Z.of_nat (live_cars s) ∧
  (∀ i, (i < n_agents cfg)%nat → placed cfg s i ∨ parked s i) ∧
  get_agent_obs cfg s g' = Returns obs s g' ∧
  (grid_rows cfg = grid_cols cfg →
   ∀ p, p ∈ (_route_vectors cfg).*1 ↔ p ∈ _entry_gates cfg).
Proof.
  intros H. pose proof (reset_derived _ _ _ _ _ _ H) as Hd.
  apply reset_Returns in H as ([_ _ _ Hc Hs] & Hcounters & Hobs).
  split; [done|]. split; [done|]. split; [done|]. split; [done|]. split; [done|].
  intros Hsquare p. by apply square_keys_are_gates.
Qed.

Lemma reset_places_cars_witness :
  ∃ s0 obs s g' p,
    constructed default_config = Some s0 ∧
    reset default_config s0 [0; 0; 1; 0; 2; 0; 3; 0; 0; 0; 0; 0]%N = Returns obs s g' ∧
    curr_cars_count s = Z.of_nat (live_cars s) ∧
    get_agent_obs default_config s g' = Returns obs s g' ∧
    on_the_road s !! 3%nat = Some true ∧ agent_pos s !! 3%nat = Some p ∧
    p ∈ (_route_vectors default_config).*1 ∧ p ∈ _entry_gates default_config ∧
    occupied default_config s p = true.
Proof.
  eexists _, _, _, _.
  match goal with
  | |- ∃ p, ?c ∧ ?reset_eq ∧ _ =>
      assert c as Hc by (vm_compute; reflexivity);
      assert reset_eq as Hreset by (vm_compute; reflexivity)
  end.
  destruct (reset_places_cars _ _ _ _ _ _ Hreset) as (_ & _ & Hcount & Hslots & Hobs & Hgates).
  destruct (Hslots 3%nat ltac:(vm_compute; lia)) as [(Hon & p & Hp & Hkey & Hocc)|(Hoff & _)];
    [|by vm_compute in Hoff].
  exists p.
  exact (conj Hc (conj Hreset (conj Hcount (conj Hobs (conj Hon (conj Hp (conj Hkey
          (conj (proj1 (Hgates eq_refl p) Hkey) Hocc)))))))).
Defined.

(** C1 as stated fails: after [reset] the four cars are on the road and
    their four gate cells are marked. *)
Lemma reset_leaves_cars_on_road :
  ∃ s0 obs s g',
    constructed default_config = Some s0 ∧
    reset default_config s0 [0; 0; 1; 0; 2; 0; 3; 0; 0; 0; 0; 0]%N = Returns obs s g' ∧
    on_the_road s = [true; true; true; true] ∧
    occupied_cells default_config s = [(0, 6); (6, 13); (7, 0); (13, 7)].
Proof.
  eexists _, _, _, _.
  split; [vm_compute; reflexivity|]. split; [vm_compute; reflexivity|].
  split; vm_compute; reflexivity.
Qed.

(** On a grid that is not square the cells [reset] puts cars on need not be
    entry gates: the keys of [_route_vectors] are computed from the number of
    rows alone.  On a 14 x 20 grid the first car is put on (6, 13), while
    the entry gates are (7, 0), (13, 10), (0, 9) and (6, 19). *)
Lemma reset_off_the_entry_gates :
  ∃ s0 obs s g',
    constructed wide_config = Some s0 ∧
    reset wide_config s0 [3; 0; 0; 0; 0; 0; 0; 0]%N = Returns obs s g' ∧
    on_the_road s !! 0%nat = Some true ∧ agent_pos s !! 0%nat = Some (6, 13) ∧
    (6, 13) ∈ (_route_vectors wide_config).*1 ∧
    _entry_gates wide_config = [(7, 0); (13, 10); (0, 9); (6, 19)].
Proof.
  eexists _, _, _, _.
  split; [vm_compute; reflexivity|]. split; [vm_compute; reflexivity|].
  split; [vm_compute; reflexivity|]. split; [vm_compute; reflexivity|].
  split; [|vm_compute; reflexivity].
  unfold _route_vectors. rewrite !dict_set_key_elem. by left.
Qed.

(** C2, as amended.  With at most four slots, in every state after a
    [reset] and after each [step], the number of grid cells marked with an
    agent tag equals the number of slots whose car is on the road. *)
Theorem occupied_cells_match_cars_on_road cfg s :
  (n_agents cfg ≤ 4)%nat → reachable cfg s →
  length (occupied_cells cfg s) = live_cars s.
Proof.
  intros Hn Hs. destruct (reachable_tracked _ _ Hs) as [Ht He]. apply census; auto.
Qed.

Lemma occupied_cells_match_cars_on_road_witness :
  ∃ s0 obs s g res s' g',
    constructed default_config = Some s0 ∧
    reset default_config s0 [0; 0; 1; 0; 2; 0; 3; 0; 0; 0; 0; 0; 0]%N = Returns obs s g ∧
    step default_config [0; 0; 1; 0] s g = Returns res s' g' ∧
    length (occupied_cells default_config s') = live_cars s'.
Proof.
  eexists _, _, _, _, _, _, _.
  split; [vm_compute; reflexivity|].
  match goal with
  | |- ?reset_eq ∧ _ => assert reset_eq as Hreset by (vm_compute; reflexivity)
  end.
  split; [exact Hreset|].
  match goal with
  | |- ?step_eq ∧ _ => assert step_eq as Hstep by (vm_compute; reflexivity)
  end.
  split; [exact Hstep|].
  apply (occupied_cells_match_cars_on_road default_config).
  - vm_compute. lia.
  - eapply reach_step; [|exact Hstep]. eapply reach_reset. exact Hreset.
Defined.

(** C2 as stated fails: with five slots, [reset] parks the fifth on (0, 0)
    and marks that cell; five cells are marked, four cars are on the road and
    the live-car count is 4. *)
Lemma parked_slot_marks_a_cell :
  ∃ s0 obs s g',
    constructed five_slot_config = Some s0 ∧
    reset five_slot_config s0 [0; 0; 1; 0; 2; 0; 3; 0; 0; 0; 0; 0; 0]%N
      = Returns obs s g' ∧
    occupied_cells five_slot_config s = [(0, 0); (0, 6); (6, 13); (7, 0); (13, 7)] ∧
    on_the_road s = [true; true; true; true; false] ∧
    live_cars s = 4%nat ∧ curr_cars_count s = 4.
Proof.
  eexists _, _, _, _.
  split; [vm_compute; reflexivity|]. split; [vm_compute; reflexivity|].
  repeat split; vm_compute; reflexivity.
Qed.

(** * The observation builder *)

Section Mask.
Context (cfg : config).

Lemma range_clip x N :
  range (Z.max 0 (x - 1)) (Z.min (x + 1 + 1) N) =
  filter (λ v, 0 ≤ v < N) [x - 1; x; x + 1].
Proof.
  unfold range. rewrite !filter_cons, filter_nil.
  repeat case_decide; first
    [ exfalso; lia
    | repeat (rewrite seqZ_cons by lia); rewrite seqZ_nil by lia;
      repeat (f_equal; try lia) ].
Qed.

Lemma fold_opt_filter {A B} (P : A → Prop) `{!∀ x, Decision (P x)}
    (body : B → A → option B) l acc :
  fold_opt body (filter P l) acc =
  fold_opt (λ acc x, if decide (P x) then body acc x else Some acc) l acc.
Proof.
  revert acc. induction l as [|x l IH]; intros acc; [done|].
  rewrite filter_cons. simpl. destruct (decide (P x)); simpl; [|apply IH].
  destruct (body acc x); simpl; [apply IH|done].
Qed.

(** One cell of the scan: what the mask holds at [j] afterwards. *)
Lemma cell_scan grid p m row col m' :
  0 ≤ row < grid_rows cfg →
  0 ≤ row - (p.1 - 1) < 3 → 0 ≤ col - (p.2 - 1) < 3 → length m = 9%nat →
  (if decide (0 ≤ col < grid_cols cfg)
   then tag ← grid_get grid (row, col);
        if has_agent tag then np_set m (row - (p.1 - 1)) (col - (p.2 - 1)) 1%Q else Some m
   else Some m) = Some m' →
  length m' = 9%nat ∧
  ∀ j, m' !! j =
       if decide (j = Z.to_nat (3 * (row - (p.1 - 1)) + (col - (p.2 - 1))))
       then (if agent_at cfg grid (row, col) then Some 1%Q else m !! j)
       else m !! j.
Proof.
  intros Hrow Ha Hb Hlen H. unfold agent_at.
  destruct (decide (0 ≤ col < grid_cols cfg)) as [Hcol|Hcol].
  - assert (is_valid cfg (row, col) = true) as -> by (apply is_valid_spec; simpl; lia).
    apply bind_Some in H as (tag & Htag & H). rewrite Htag. simpl.
    destruct (has_agent tag).
    + unfold np_set in H. rewrite !py_index_inside in H by lia. simpl in H.
      injection H as <-. split; [by rewrite length_insert|]. intros j.
      replace (Z.to_nat (row - (p.1 - 1)) + (Z.to_nat (row - (p.1 - 1))
               + (Z.to_nat (row - (p.1 - 1)) + 0)) + Z.to_nat (col - (p.2 - 1)))%nat
        with (Z.to_nat (3 * (row - (p.1 - 1)) + (col - (p.2 - 1)))) by lia.
      destruct (decide _) as [->|Hne].
      * rewrite list_lookup_insert_eq by lia. done.
      * by rewrite list_lookup_insert_ne.
    + injection H as <-. split; [done|]. intros j. by destruct (decide _).
  - injection H as <-. split; [done|]. intros j.
    assert (is_valid cfg (row, col) = false) as ->.
    { apply not_true_is_false. rewrite is_valid_spec. simpl. lia. }
    by destruct (decide _).
Qed.

Lemma row_scan grid p m row m' :
  0 ≤ row - (p.1 - 1) < 3 → length m = 9%nat →
  (if decide (0 ≤ row < grid_rows cfg)
   then fold_opt
          (λ m col,
             tag ← grid_get grid (row, col);
             if has_agent tag then np_set m (row - (p.1 - 1)) (col - (p.2 - 1)) 1%Q
             else Some m)
          (range (Z.max 0 (p.2 - 1)) (Z.min (p.2 + 1 + 1) (grid_cols cfg))) m
   else Some m) = Some m' →
  length m' = 9%nat ∧
  ∀ j, m' !! j =
       mark cfg grid (row, p.2 + 1) (Z.to_nat (3 * (row - (p.1 - 1)) + 2))
         (mark cfg grid (row, p.2) (Z.to_nat (3 * (row - (p.1 - 1)) + 1))
            (mark cfg grid (row, p.2 - 1) (Z.to_nat (3 * (row - (p.1 - 1)) + 0))
               (λ j, m !! j))) j.
Proof.
  intros Ha Hlen H. destruct (decide (0 ≤ row < grid_rows cfg)) as [Hrow|Hrow].
  - rewrite range_clip, fold_opt_filter in H. cbn [fold_opt] in H.
    apply bind_Some in H as (m1 & H1 & H). apply bind_Some in H as (m2 & H2 & H).
    apply bind_Some in H as (m3 & H3 & H). injection H as <-.
    apply cell_scan in H1 as [Hl1 H1]; [|lia..].
    apply cell_scan in H2 as [Hl2 H2]; [|lia..].
    apply cell_scan in H3 as [Hl3 H3]; [|lia..].
    split; [done|]. intros j. unfold mark. rewrite H3, H2, H1.
    replace (3 * (row - (p.1 - 1)) + (p.2 + 1 - (p.2 - 1))) with
      (3 * (row - (p.1 - 1)) + 2) by lia.
    replace (3 * (row - (p.1 - 1)) + (p.2 - (p.2 - 1))) with
      (3 * (row - (p.1 - 1)) + 1) by lia.
    replace (3 * (row - (p.1 - 1)) + (p.2 - 1 - (p.2 - 1))) with
      (3 * (row - (p.1 - 1)) + 0) by lia.
    done.
  - injection H as <-. split; [done|]. intros j. unfold mark, agent_at.
    assert (∀ col, is_valid cfg (row, col) = false) as Hout.
    { intros col. apply not_true_is_false. rewrite is_valid_spec. simpl. lia. }
    rewrite !Hout. simpl. by repeat destruct (decide _).
Qed.

Lemma view_mask_spec grid p mask :
  view_mask cfg grid p = Some mask → mask = neighbourhood_mask cfg grid p.
Proof.
  unfold view_mask. intros H. apply bind_Some in H as (m & H & Hcentre).
  rewrite (range_clip p.1), fold_opt_filter in H. cbn [fold_opt] in H.
  apply bind_Some in H as (m1 & H1 & H). apply bind_Some in H as (m2 & H2 & H).
  apply bind_Some in H as (m3 & H3 & H). injection H as ->.
  apply row_scan in H1 as [Hl1 H1]; [|lia|done].
  apply row_scan in H2 as [Hl2 H2]; [|lia|done].
  apply row_scan in H3 as [Hl3 H3]; [|lia|done].
  unfold np_set in Hcentre. simpl in Hcentre. injection Hcentre as <-.
  replace (Z.to_nat (3 * (p.1 - 1 - (p.1 - 1)) + 0)) with 0%nat in H1 by lia.
  replace (Z.to_nat (3 * (p.1 - 1 - (p.1 - 1)) + 1)) with 1%nat in H1 by lia.
  replace (Z.to_nat (3 * (p.1 - 1 - (p.1 - 1)) + 2)) with 2%nat in H1 by lia.
  replace (Z.to_nat (3 * (p.1 - (p.1 - 1)) + 0)) with 3%nat in H2 by lia.
  replace (Z.to_nat (3 * (p.1 - (p.1 - 1)) + 1)) with 4%nat in H2 by lia.
  replace (Z.to_nat (3 * (p.1 - (p.1 - 1)) + 2)) with 5%nat in H2 by lia.
  replace (Z.to_nat (3 * (p.1 + 1 - (p.1 - 1)) + 0)) with 6%nat in H3 by lia.
  replace (Z.to_nat (3 * (p.1 + 1 - (p.1 - 1)) + 1)) with 7%nat in H3 by lia.
  replace (Z.to_nat (3 * (p.1 + 1 - (p.1 - 1)) + 2)) with 8%nat in H3 by lia.
  change (S (S (S (Z.to_nat 1)))) with 4%nat.
  assert (neighbourhood_mask cfg grid p =
          [if agent_at cfg grid (p.1 - 1, p.2 - 1) then 1%Q else 0%Q;
           if agent_at cfg grid (p.1 - 1, p.2) then 1%Q else 0%Q;
           if agent_at cfg grid (p.1 - 1, p.2 + 1) then 1%Q else 0%Q;
           if agent_at cfg grid (p.1, p.2 - 1) then 1%Q else 0%Q;
           0%Q;
           if agent_at cfg grid (p.1, p.2 + 1) then 1%Q else 0%Q;
           if agent_at cfg grid (p.1 + 1, p.2 - 1) then 1%Q else 0%Q;
           if agent_at cfg grid (p.1 + 1, p.2) then 1%Q else 0%Q;
           if agent_at cfg grid (p.1 + 1, p.2 + 1) then 1%Q else 0%Q]) as ->.
  { unfold neighbourhood_mask. cbn [mbind list_bind foldr app]. rewrite !Z.add_0_r. reflexivity. }
  apply list_eq. intros j.
  destruct (decide (j = 4%nat)) as [->|Hne].
  - rewrite list_lookup_insert_eq by lia. done.
  - rewrite list_lookup_insert_ne by done. rewrite H3. unfold mark at 1 2 3.
    destruct j as [|[|[|[|[|[|[|[|[|j]]]]]]]]]; simpl;
      rewrite ?H2; unfold mark; simpl; rewrite ?H1; unfold mark; simpl;
      try done; by destruct (agent_at _ _ _).
Qed.

Lemma one_hot_insert n i :
  (i < n)%nat → <[i:=1%Q]> (replicate n 0%Q) = one_hot n i.
Proof.
  intros Hi. apply list_eq. intros j. unfold one_hot. rewrite list_lookup_fmap.
  destruct (decide (j < n)%nat) as [Hj|Hj].
  - rewrite lookup_seq_lt by done. simpl. destruct (decide (j = i)) as [->|Hne].
    + rewrite list_lookup_insert_eq by (by rewrite length_replicate).
      by rewrite bool_decide_eq_true_2.
    + rewrite list_lookup_insert_ne by done. rewrite lookup_replicate_2 by done.
      by rewrite bool_decide_eq_false_2.
  - rewrite lookup_seq_ge by lia. simpl. apply lookup_ge_None_2.
    rewrite length_insert, length_replicate. lia.
Qed.

Lemma agent_obs_reader i : reader (agent_obs cfg i).
Proof. repeat reader_step. Qed.

Lemma agent_obs_Returns i s g o s' g' :
  agent_obs cfg i s g = Returns o s' g' →
  (i < n_agents cfg)%nat ∧
  ∃ p, agent_pos s !! i = Some p ∧
       grid_rows cfg ≠ 0 ∧ grid_cols cfg - 1 ≠ 0 ∧
       o = one_hot (n_agents cfg) i ++ neighbourhood_mask cfg (_full_obs s) p ++
           [(inject_Z p.1 / inject_Z (grid_rows cfg))%Q;
            (inject_Z p.2 / inject_Z (grid_cols cfg - 1))%Q].
Proof.
  intros H. unfold agent_obs, get_pos, py_div in H. run.
  match goal with H : view_mask _ _ _ = Some _ |- _ => apply view_mask_spec in H as -> end.
  match goal with H : (_ < length (replicate _ _))%nat |- _ =>
    rewrite length_replicate in H; rename H into Hi end.
  split; [done|]. eexists. split; [eassumption|].
  repeat match goal with H : (_ =? 0) = false |- _ => apply Z.eqb_neq in H end.
  split; [done|]. split; [done|]. by rewrite one_hot_insert.
Qed.

Lemma get_agent_obs_slots s g obs s' g' :
  full_observable cfg = false →
  get_agent_obs cfg s g = Returns obs s' g' →
  length obs = n_agents cfg ∧
  ∀ i, (i < n_agents cfg)%nat →
       ∃ o, obs !! i = Some o ∧ agent_obs cfg i s g = Returns o s g.
Proof.
  intros Hmode H. unfold get_agent_obs in H. rewrite Hmode in H. run.
  match goal with H : foldM _ _ _ _ _ = Returns _ _ _ |- _ => revert H end.
  apply (fold_range_inv
           (λ k acc st, st = s ∧ length acc = k ∧
                        ∀ i, (i < k)%nat →
                             ∃ o, acc !! i = Some o ∧ agent_obs cfg i s g = Returns o s g));
    [|split; [done|]; split; [done|]; intros i Hi; lia].
  intros k acc st gt acc' st' gt' Hk (-> & Hlen & Hacc) Hbody. run.
  match goal with H : agent_obs _ _ _ _ = Returns _ _ _ |- _ =>
    apply (reader_Returns _ _ _ _ _ _ (agent_obs_reader _)) in H as (-> & -> & Hk') end.
  split; [done|]. split; [rewrite length_app; simpl; lia|].
  intros i Hi. destruct (decide (i = length acc)) as [->|Hne].
  - eexists. split; [|apply Hk']. rewrite lookup_app_r by lia.
    by rewrite Nat.sub_diag.
  - destruct (Hacc i ltac:(lia)) as (o & Ho & Hobs). exists o. split; [|done].
    rewrite lookup_app_l by lia. done.
Qed.

Lemma unit_fraction a b :
  0 ≤ a ≤ b → 0 < b → (0 <= inject_Z a / inject_Z b <= 1)%Q.
Proof.
  intros Ha Hb. assert (0 < inject_Z b)%Q as Hpos by (unfold Qlt; simpl; lia).
  split.
  - apply Qle_shift_div_l; [done|]. rewrite Qmult_0_l. unfold Qle. simpl. lia.
  - apply Qle_shift_div_r; [done|]. rewrite Qmult_1_l. unfold Qle. simpl. lia.
Qed.
End Mask.

(** C9, as amended.  Without full observability, the observation of each
    slot is the one-hot identifier of the slot among [n_agents], then the
    flattened 3x3 neighbourhood mask around the slot's recorded cell (centre
    0, cells outside the grid 0), then the row divided by the number of rows
    and the column divided by the number of columns minus one; for a cell of
    the grid both quotients lie in [0, 1]. *)
Theorem observation_vector cfg s g obs s' g' :
  full_observable cfg = false →
  get_agent_obs cfg s g = Returns obs s' g' →
  length obs = n_agents cfg ∧
  ∀ i, (i < n_agents cfg)%nat →
    ∃ p, agent_pos s !! i = Some p ∧
      obs !! i = Some (one_hot (n_agents cfg) i ++
                       neighbourhood_mask cfg (_full_obs s) p ++
                       [(inject_Z p.1 / inject_Z (grid_rows cfg))%Q;
                        (inject_Z p.2 / inject_Z (grid_cols cfg - 1))%Q]) ∧
      (is_valid cfg p = true →
       (0 <= inject_Z p.1 / inject_Z (grid_rows cfg) <= 1)%Q ∧
       (0 <= inject_Z p.2 / inject_Z (grid_cols cfg - 1) <= 1)%Q).
Proof.
  intros Hmode H. destruct (get_agent_obs_slots _ _ _ _ _ _ Hmode H) as [Hlen Hslots].
  split; [done|]. intros i Hi. destruct (Hslots i Hi) as (o & Ho & Hobs).
  apply agent_obs_Returns in Hobs as (_ & p & Hp & HR & HC & ->).
  exists p. split; [done|]. split; [done|].
  intros Hvalid. apply is_valid_spec in Hvalid as [Hr Hc].
  split; apply unit_fraction; lia.
Qed.

Lemma observation_vector_witness :
  ∃ s0 obs s g',
    constructed default_config = Some s0 ∧
    reset default_config s0 [0; 0; 1; 0; 2; 0; 3; 0; 0; 0; 0; 0]%N = Returns obs s g' ∧
    length obs = 4%nat ∧
    ∃ p, agent_pos s !! 3%nat = Some p ∧
      obs !! 3%nat = Some (one_hot 4 3 ++ neighbourhood_mask default_config (_full_obs s) p ++
                           [(inject_Z p.1 / inject_Z 14)%Q; (inject_Z p.2 / inject_Z (14 - 1))%Q]).
Proof.
  eexists _, _, _, _.
  split; [vm_compute; reflexivity|].
  match goal with
  | |- ?reset_eq ∧ _ => assert reset_eq as Hreset by (vm_compute; reflexivity)
  end.
  split; [exact Hreset|].
  apply reset_Returns in Hreset as (_ & _ & Hobs).
  destruct (observation_vector default_config _ _ _ _ _ eq_refl Hobs) as [Hlen Hslots].
  split; [exact Hlen|].
  destruct (Hslots 3%nat ltac:(vm_compute; lia)) as (p & Hp & Ho & _).
  exists p. split; [exact Hp | exact Ho].
Defined.

(** C9 as stated fails: the car of slot 3 is on column 13 of 14 and the
    last entry of its observation is 13/13, not 13/14. *)
Lemma column_divided_by_cols_minus_one :
  ∃ s0 obs s g' o,
    constructed default_config = Some s0 ∧
    reset default_config s0 [0; 0; 1; 0; 2; 0; 3; 0; 0; 0; 0; 0]%N = Returns obs s g' ∧
    agent_pos s !! 3%nat = Some (6, 13) ∧
    obs !! 3%nat = Some o ∧
    last o = Some (inject_Z 13 / inject_Z 13)%Q ∧
    ¬ (inject_Z 13 / inject_Z 13 == inject_Z 13 / inject_Z (grid_cols default_config))%Q.
Proof.
  eexists _, _, _, _, _.
  split; [vm_compute; reflexivity|]. split; [vm_compute; reflexivity|].
  split; [vm_compute; reflexivity|]. split; [vm_compute; reflexivity|].
  split; [vm_compute; reflexivity|]. vm_compute. discriminate.
Qed.

(** * Recorded positions *)

#[global] Instance stays_on_preorder : PreOrder stays_on.
Proof. split; unfold stays_on; [by intros ? | intros ??? H1 H2 i Hi; auto]. Qed.

#[global] Instance keeps_slots_preorder : PreOrder keeps_slots.
Proof. split; unfold keeps_slots; [by intros ? | intros ??? H1 H2 i Hi; auto]. Qed.

Ltac frame_assignment :=
  intros; unfold stays_on, keeps_slots;
  repeat match goal with
         | H : mbind _ _ = Some _ |- _ => apply bind_Some in H as (? & ? & H)
         | H : Some _ = Some _ |- _ => injection H as <-
         | H : list_set _ _ _ = Some _ |- _ => apply list_set_Some in H as (? & ->)
         end;
  simpl;
  let i := fresh "i" in
  intros i ?;
  first
    [ done
    | match goal with
      | |- <[?k:=true]> _ !! i = Some true =>
          destruct (decide (i = k)) as [->|];
          [by apply list_lookup_insert_eq | by rewrite list_lookup_insert_ne]
      | |- is_Some (<[?k:=_]> _ !! i) =>
          apply lookup_insert_is_Some'; by right
      end ].

Section Positions.
Context (cfg : config).

Lemma arrival_pass_stays_on : frame stays_on (arrival_pass cfg).
Proof. repeat frame_step_by frame_assignment. Qed.

Lemma step_keeps_slots acts : frame keeps_slots (step cfg acts).
Proof. repeat frame_step_by frame_assignment. Qed.

Lemma departure_pass_core : frame (keeps agent_pos) (departure_pass cfg).
Proof. frame_auto. Qed.

(** A car taken off the road by a step is on a destination cell, and that
    cell stays its recorded position. *)
Lemma step_departed acts s g res s' g' i :
  tracked cfg s → step cfg acts s g = Returns res s' g' →
  on_the_road s !! i = Some true → on_the_road s' !! i = Some false →
  ∃ p, agent_pos s' !! i = Some p ∧ p ∈ _destination cfg.
Proof.
  intros Htr H Hon Hoff. unfold step in H. run.
  framed (movement_pass_frame cfg _ _).
  framed arrival_pass_stays_on.
  framed (termination_check_core cfg).
  framed (reward_finalization_core cfg _).
  framed (observation_pure cfg). subst.
  repeat match goal with H : keeps _ _ _ |- _ => unfold keeps in H end.
  match goal with H : movement_pass _ _ _ _ _ = Returns _ _ _ |- _ =>
    apply movement_pass_tracked in H as [Ht1 _];
      [|by apply (tracked_core cfg s)] end.
  match goal with H : arrival_pass _ _ _ = Returns _ _ _ |- _ =>
    apply arrival_pass_tracked in H as [Ht2 _]; [|done] end.
  unfold movement_frame, core in *. simplify_eq/=.
  match goal with
  | H : departure_pass _ ?s2 _ = Returns _ ?s3 _, Hs : stays_on _ ?s2 |- _ =>
      destruct (departure_pass_departing _ _ _ _ _ _ H Ht2) as [Hpos _ _ Hroad _];
      assert (on_the_road s2 !! i = Some true) as Hon2 by (apply Hs; congruence);
      assert (on_the_road s3 !! i = Some false) as Hoff3 by congruence;
      destruct (tr_marked _ _ Ht2 i Hon2) as (p & Hp & _)
  end.
  exists p. split; [congruence|].
  destruct (decide (p ∈ _destination cfg)) as [|Hnot]; [done|]. exfalso.
  match goal with H : departure_pass _ _ _ = Returns _ ?s3 _ |- _ =>
    assert (on_the_road s3 !! i = Some true) as Hstill; [|congruence] end.
  apply Hroad. split; [done|]. intros [_ (q & Hq & Hd)]. congruence.
Qed.
End Positions.

Lemma episode_reachable cfg actions s0 g out s g' :
  episode cfg actions s0 g = Returns out s g' → reachable cfg s.
Proof.
  unfold episode. intros H. run.
  match goal with H : foldM _ _ _ _ _ = Returns _ _ _ |- _ => revert H end.
  apply (foldM_inv (λ _ _ st, reachable cfg st) _ _) with (seen := []).
  - intros seen acts acc st gt acc' st' gt' Hst Hbody. run. by eapply reach_step.
  - by eapply reach_reset.
Qed.

(** * Two cars and one cell *)

#[global] Instance others_kept_preorder h : PreOrder (others_kept h).
Proof.
  split; unfold others_kept.
  - by intros ?.
  - intros s1 s2 s3 (Hr1 & Hd1 & Hs1) (Hr2 & Hd2 & Hs2).
    split; [congruence|]. split; [congruence|].
    intros k Hk. rewrite Hs2, Hs1; done.
Qed.

Ltac frame_slot :=
  intros; unfold others_kept, slot;
  repeat match goal with
         | H : mbind _ _ = Some _ |- _ => apply bind_Some in H as (? & ? & H)
         | H : Some _ = Some _ |- _ => injection H as <-
         | H : list_set _ _ _ = Some _ |- _ => apply list_set_Some in H as (? & ->)
         end;
  simpl; split; [done|]; split; [done|];
  let k := fresh "k" in
  intros k ?; rewrite ?lookup_insert_ne, ?list_lookup_insert_ne by done; done.

Section Contention.
Context (cfg : config).

Lemma movement_body_others rw h a :
  within False (others_kept h) (movement_body cfg rw (h, a)).
Proof. unfold movement_body. repeat frame_step_by frame_slot. Qed.

Lemma gas_target_aim i route curr s g np s' g' :
  gas_target cfg i 0 route curr s g = Returns np s' g' →
  agent_pos s !! i = Some curr → _agents_routes s !! i = Some route →
  aim cfg s i = Some np.
Proof.
  unfold gas_target, __get_next_move, get_direction, get_turned.
  intros H Hp Hr. unfold aim, slot. rewrite Hp, Hr.
  cbn -[dict_get pair_get _turning_places turned_vector add_pos]. run.
  all: simplify_eq.
  all: repeat match goal with
              | H : true = _ |- _ => symmetry in H
              | H : false = _ |- _ => symmetry in H
              end.
  all: repeat (progress (repeat match goal with
                                | H : _ = Some _ |- _ => rewrite H
                                | H : _ = true |- _ => rewrite H
                                | H : _ = false |- _ => rewrite H
                                end;
                         cbn -[dict_get pair_get _turning_places turned_vector add_pos])).
  all: done.
Qed.

Lemma candidate_aim s i c : candidate cfg s i = Some c → aim cfg s i = Some c.
Proof.
  unfold candidate.
  destruct ((curr_pos ← get_pos i; route ← get_route i; gas_target cfg i 0 route curr_pos) s [])
    as [np s1 g1| |] eqn:E; [|done|done].
  intros [= <-]. unfold get_pos, get_route in E. run. by eapply gas_target_aim.
Qed.

Lemma aim_slot s s' i : slot s' i = slot s i → aim cfg s' i = aim cfg s i.
Proof. unfold aim. by intros ->. Qed.

Lemma update_agent_pos_effect i move s g r s' g' :
  __update_agent_pos cfg i move s g = Returns r s' g' → tracked cfg s → moved cfg i move s r s'.
Proof.
  intros H Htr. unfold moved.
  unfold __update_agent_pos, put_pos, __update_agent_view, get_pos, get_route in H.
  unfold write_cell in H. run.
  all: try match goal with
           | Hm : (_ =? 0) = true |- _ => apply Z.eqb_eq in Hm; subst
           | Hm : (_ =? 0) = false |- _ => apply Z.eqb_neq in Hm
           end.
  all: try match goal with
           | Hg : gas_target _ _ _ _ _ _ _ = Returns _ _ _ |- _ =>
               pose proof (gas_target_aim _ _ _ _ _ _ _ _ Hg ltac:(eassumption) ltac:(eassumption))
                 as Haim
           end.
  all: run_cells.
  all: repeat match goal with
              | H : keeps core _ _ |- _ =>
                  unfold keeps in H; pose proof H as [= Hgrid Hroad Hpos]; rename H into Hcore
              | H : true = _ |- _ => symmetry in H
              | H : false = _ |- _ => symmetry in H
              end.
  all: unfold occupied, vacant in *.
  - right. split; [done|]. eexists _, _. split; [done|]. split; [done|]. left.
    rewrite <- Hgrid. done.
  - right. split; [done|]. eexists _, _. split; [done|]. split; [done|]. right. right.
    simpl in *.
    match goal with H : <[i:=_]> _ !! i = Some _ |- _ =>
      rewrite lookup_insert_eq in H; injection H as <- end.
    rewrite Hgrid in *. rewrite Hpos.
    match goal with
    | Hc : agent_pos s !! i = Some ?curr, Hv : empty_at cfg _ ?np = true,
      H1 : grid_set _ ?curr PRE_empty = Some ?g1, H2 : grid_set ?g1 ?np _ = Some _ |- _ =>
        assert (is_valid cfg curr = true) as Hvx by (eapply tr_valid; eauto);
        assert (is_valid cfg np = true) as Hvn
          by (unfold empty_at in Hv; apply andb_true_iff in Hv as [? _]; done);
        destruct (grid_set_tests cfg _ _ _ _ (tr_shape _ _ Htr) Hvx H1) as (Hshape1 & _ & He1);
        destruct (grid_set_tests cfg _ _ _ _ Hshape1 Hvn H2) as (_ & _ & He2)
    end.
    split; [done|]. split; [done|]. split; [done|].
    intros q. rewrite He2, He1. done.
  - right. split; [done|]. eexists _, _. split; [done|]. split; [done|]. right. left.
    rewrite <- Hgrid. done.
  - left. done.
Qed.

Lemma aim_gas_target i route curr s g np :
  aim cfg s i = Some np →
  agent_pos s !! i = Some curr → _agents_routes s !! i = Some route →
  ∃ s', gas_target cfg i 0 route curr s g = Returns np s' g.
Proof.
  unfold aim, slot. intros H Hp Hr. rewrite Hp, Hr in H.
  cbn -[dict_get pair_get _turning_places turned_vector add_pos] in H.
  destruct (_agents_direction s !! i) as [d|] eqn:Hd; [|done].
  cbn -[dict_get pair_get _turning_places turned_vector add_pos] in H.
  pose proof (lookup_lt_Some _ _ _ Hd) as Hld.
  unfold gas_target, __get_next_move, get_direction, get_turned, put_direction, put_turned.
  destruct (route =? 1) eqn:Hr1.
  { injection H as <-. eexists. exec. }
  apply bind_Some in H as (turn_pos & Hturn & H).
  apply bind_Some in H as (tp & Htp & H).
  apply bind_Some in H as (turn_now & Hnow & H). injection H as <-.
  destruct (bool_decide (curr = tp)) eqn:Hb.
  - apply fmap_Some in Hnow as (t & Ht & ->).
    pose proof (lookup_lt_Some _ _ _ Ht) as Hlt.
    destruct t; eexists; exec.
  - injection Hnow as <-. eexists. exec.
Qed.

Lemma candidate_eq_aim s i : candidate cfg s i = aim cfg s i.
Proof.
  destruct (aim cfg s i) as [c|] eqn:Haim.
  - pose proof Haim as H. unfold aim, slot in H.
    destruct (agent_pos s !! i) as [curr|] eqn:Hp; [|done].
    destruct (_agents_routes s !! i) as [route|] eqn:Hr; [|done].
    destruct (aim_gas_target i route curr s [] c Haim Hp Hr) as [s' Hrun].
    unfold candidate, get_pos, get_route.
    rewrite (bind_Returns_eq _ _ _ _ _ _ _ (gets_Some KeyError _ s [] curr Hp)).
    rewrite (bind_Returns_eq _ _ _ _ _ _ _ (gets_Some IndexError _ s [] route Hr)).
    by rewrite Hrun.
  - destruct (candidate cfg s i) as [c|] eqn:Hc; [|done].
    apply candidate_aim in Hc. congruence.
Qed.

Lemma movement_body_effect rw h a s g rw' s' g' :
  movement_body cfg rw (h, a) s g = Returns rw' s' g' → tracked cfg s →
  (rw' = rw ∧ s' = s ∧
   ¬ (on_the_road s !! h = Some true ∧ _agent_dones s !! h = Some false)) ∨
  (on_the_road s !! h = Some true ∧ _agent_dones s !! h = Some false ∧
   ∃ r x, rw !! h = Some r ∧ rw' = <[h:=(r + x)%Q]> rw ∧ moved cfg h a s x s').
Proof.
  unfold movement_body, get_done, get_on_the_road. intros H Htr. run.
  - right. split; [done|]. split; [done|]. eexists _, _. split; [done|]. split; [done|].
    by eapply update_agent_pos_effect.
  - left. split; [done|]. split; [done|]. intros [? ?]. congruence.
  - left. split; [done|]. split; [done|]. intros [? ?]. congruence.
Qed.

(** The movement pass when slots [i < j] aim at the same vacant cell [c]
    and no moving slot before [i] does. *)
Lemma movement_pass_contention acts rw s g rw' s' g' i j c r :
  tracked cfg s →
  movement_pass cfg acts rw s g = Returns rw' s' g' →
  (i < j)%nat →
  acts !! i = Some 0 → acts !! j = Some 0 →
  on_the_road s !! i = Some true → _agent_dones s !! i = Some false →
  on_the_road s !! j = Some true → _agent_dones s !! j = Some false →
  aim cfg s i = Some c → aim cfg s j = Some c →
  vacant cfg s c = true →
  (∀ h, (h < i)%nat → acts !! h = Some 0 →
        on_the_road s !! h = Some true → _agent_dones s !! h = Some false →
        aim cfg s h ≠ Some c) →
  rw !! j = Some r →
  agent_pos s' !! i = Some c ∧ occupied cfg s' c = true ∧
  agent_pos s' !! j = agent_pos s !! j ∧ rw' !! j = Some (r + rcoll cfg)%Q.
Proof.
  intros Htr Hrun Hij Hai Haj Honi Hdi Honj Hdj Hci Hcj Hvac Hfirst Hrj.
  rewrite movement_pass_body in Hrun.
  set (I := λ (k : nat) (rwk : list Q) (st : state),
     tracked cfg st ∧ on_the_road st = on_the_road s ∧ _agent_dones st = _agent_dones s ∧
     (∀ h, (k ≤ h)%nat → slot st h = slot s h ∧ rwk !! h = rw !! h) ∧
     ((k ≤ i)%nat → vacant cfg st c = true) ∧
     ((i < k)%nat → agent_pos st !! i = Some c) ∧
     ((j < k)%nat →
      agent_pos st !! j = agent_pos s !! j ∧ rwk !! j = Some (r + rcoll cfg)%Q)).
  assert (I (length acts) rw' s') as (Htr' & Hroad' & _ & _ & _ & Hwin & Hlose).
  { revert Hrun. apply (fold_enum_inv I).
    2: { unfold I. split; [done|]. split; [done|]. split; [done|]. split; [done|].
         split; [done|]. split; intros; lia. }
    intros k a rwk st gt rwk' st' gt' Hk
      (Ht & Hroad & Hdone & Hrest & Hbefore & Hafter & Hloser) Hbody.
    pose proof (within_Returns _ _ _ _ _ _ _ _ (movement_body_others rwk k a) Hbody)
      as (Hroad1 & Hdone1 & Hothers).
    destruct (movement_body_tracked _ _ _ _ _ _ _ _ Hbody Ht) as [Ht' _].
    destruct (Hrest k (Nat.le_refl k)) as [Hslot Hrk].
    pose proof (aim_slot _ _ _ Hslot) as Haim.
    assert (∀ h, h ≠ k → rwk' !! h = rwk !! h ∧ agent_pos st' !! h = agent_pos st !! h)
      as Hkeep.
    { intros h Hne. split.
      - destruct (movement_body_effect _ _ _ _ _ _ _ _ Hbody Ht)
          as [(-> & _)|(_ & _ & r0 & x & _ & -> & _)]; [done|].
        by rewrite list_lookup_insert_ne.
      - by pose proof (Hothers h Hne) as [= -> _ _ _]. }
    unfold I. split; [done|]. split; [congruence|]. split; [congruence|].
    split; [|split; [|split]].
    - intros h Hh. assert (h ≠ k) as Hne by lia.
      destruct (Hrest h ltac:(lia)) as [Hs Hr]. destruct (Hkeep h Hne) as [-> _].
      split; [|done]. rewrite (Hothers h Hne). done.
    - intros Hlt. specialize (Hbefore ltac:(lia)).
      destruct (movement_body_effect _ _ _ _ _ _ _ _ Hbody Ht)
        as [(_ & -> & _)|(Hon & Hdn & r0 & x & _ & _ & Hmoved)]; [done|].
      destruct Hmoved as [(_ & _ & Hcore)|(-> & curr & np & _ & Hnp & Hcase)].
      { unfold vacant. injection Hcore as -> _ _. done. }
      assert (np ≠ c) as Hne.
      { intros ->. apply (Hfirst k); [lia|done|congruence|congruence|congruence]. }
      destruct Hcase as [(_ & _ & Hcore)|[(_ & _ & _ & Hcore)|(_ & _ & _ & Hgrid)]].
      + unfold vacant. injection Hcore as -> _ _. done.
      + unfold vacant. injection Hcore as -> _ _. done.
      + rewrite Hgrid, decide_False by done. by destruct (decide (c = curr)).
    - intros Hlt. destruct (decide (i = k)) as [->|Hne].
      + specialize (Hbefore (Nat.le_refl k)). assert (a = 0) as -> by congruence.
        destruct (movement_body_effect _ _ _ _ _ _ _ _ Hbody Ht)
          as [(_ & _ & Hidle)|(_ & _ & r0 & x & _ & _ & Hmoved)].
        { destruct Hidle. split; congruence. }
        destruct Hmoved as [(? & _)|(_ & curr & np & _ & Hnp & Hcase)]; [done|].
        assert (np = c) as -> by congruence.
        pose proof (empty_not_agent cfg _ _ Hbefore) as Hfree. unfold occupied in Hcase.
        destruct Hcase as [(? & _)|[(_ & ? & _)|(_ & _ & -> & _)]]; [congruence|congruence|].
        by rewrite lookup_insert_eq.
      + destruct (Hkeep i Hne) as [_ ->]. apply Hafter. lia.
    - intros Hlt. destruct (decide (j = k)) as [->|Hne].
      + assert (a = 0) as -> by congruence. specialize (Hafter Hij).
        assert (occupied cfg st c = true) as Hocc.
        { destruct (tr_marked _ _ Ht i) as (p & Hp & Ho); congruence. }
        destruct (movement_body_effect _ _ _ _ _ _ _ _ Hbody Ht)
          as [(_ & _ & Hidle)|(_ & _ & r0 & x & Hr0 & -> & Hmoved)].
        { destruct Hidle. split; congruence. }
        destruct Hmoved as [(? & _)|(_ & curr & np & _ & Hnp & Hcase)]; [done|].
        assert (np = c) as -> by congruence.
        assert (r0 = r) as -> by congruence.
        destruct Hcase as [(_ & -> & Hcore)|[(? & _)|(Hv & _)]]; [|congruence|].
        * injection Hcore as _ _ ->. split.
          { by pose proof Hslot as [= -> _ _ _]. }
          apply list_lookup_insert_eq. by eapply lookup_lt_Some.
        * apply (empty_not_agent cfg) in Hv. unfold occupied in Hocc. congruence.
      + destruct (Hkeep j Hne) as [-> ->]. apply Hloser. lia. }
  split; [apply Hwin; by eapply lookup_lt_Some|]. split.
  - destruct (tr_marked _ _ Htr' i) as (p & Hp & Ho); [congruence|].
    rewrite Hwin in Hp by by eapply lookup_lt_Some. by injection Hp as <-.
  - apply Hlose. by eapply lookup_lt_Some.
Qed.
End Contention.

(** C7, as amended.  In the movement pass of a step from a state where the
    grid and the registry agree, let the cars of slots [i < j] be on the road
    and not done (the pass skips the others), both take GAS, and both aim at
    the same vacant cell [c], slot [i] being the first moving slot that aims
    at it.  Then the car of slot [i] is recorded on [c] and [c] is marked
    after the pass, while the car of slot [j] keeps its position and its
    reward for the step is increased by the collision reward [rcoll]. *)
Theorem earlier_slot_wins cfg acts rw s g rw' s' g' i j c r :
  tracked cfg s →
  movement_pass cfg acts rw s g = Returns rw' s' g' →
  (i < j)%nat →
  acts !! i = Some 0 → acts !! j = Some 0 →
  on_the_road s !! i = Some true → _agent_dones s !! i = Some false →
  on_the_road s !! j = Some true → _agent_dones s !! j = Some false →
  candidate cfg s i = Some c → candidate cfg s j = Some c →
  vacant cfg s c = true →
  (∀ h, (h < i)%nat → acts !! h = Some 0 →
        on_the_road s !! h = Some true → _agent_dones s !! h = Some false →
        candidate cfg s h ≠ Some c) →
  rw !! j = Some r →
  agent_pos s' !! i = Some c ∧ occupied cfg s' c = true ∧
  agent_pos s' !! j = agent_pos s !! j ∧ rw' !! j = Some (r + rcoll cfg)%Q.
Proof.
  intros Htr Hrun Hij Hai Haj Honi Hdi Honj Hdj Hci Hcj Hvac Hfirst Hrj.
  rewrite candidate_eq_aim in Hci, Hcj.
  eapply movement_pass_contention; eauto.
  intros h. rewrite <- candidate_eq_aim. apply Hfirst.
Qed.

Lemma earlier_slot_wins_witness :
  ∃ s0 out s6 g6 rw' s' g',
    constructed default_config = Some s0 ∧
    episode default_config ([0; 1; 1; 1] :: replicate 5 [0; 0; 1; 1]) s0
            ([0; 0; 1; 0; 2; 0; 3; 0; 0; 0; 0; 0] ++ replicate 6 (2 ^ 52))%N
      = Returns out s6 g6 ∧
    agent_pos s6 !! 0%nat = Some (7, 6) ∧ agent_pos s6 !! 1%nat = Some (8, 7) ∧
    candidate default_config s6 0 = Some (7, 7) ∧
    candidate default_config s6 1 = Some (7, 7) ∧
    vacant default_config s6 (7, 7) = true ∧
    movement_pass default_config [0; 0; 1; 1] (replicate 4 _step_cost) s6 g6
      = Returns rw' s' g' ∧
    agent_pos s' !! 0%nat = Some (7, 7) ∧ occupied default_config s' (7, 7) = true ∧
    agent_pos s' !! 1%nat = Some (8, 7) ∧ rw' !! 1%nat = Some (0 + -10)%Q.
Proof.
  eexists _, _, _, _, _, _, _.
  match goal with
  | |- ?c ∧ ?episode_eq ∧ ?p0 ∧ ?p1 ∧ ?c0 ∧ ?c1 ∧ ?vac ∧ ?pass_eq ∧ _ =>
      assert c as Hc by (vm_compute; reflexivity);
      assert episode_eq as Hepisode by (vm_compute; reflexivity);
      assert p0 as Hp0 by (vm_compute; reflexivity);
      assert p1 as Hp1 by (vm_compute; reflexivity);
      assert c0 as Hc0 by (vm_compute; reflexivity);
      assert c1 as Hc1 by (vm_compute; reflexivity);
      assert vac as Hvac by (vm_compute; reflexivity);
      assert pass_eq as Hpass by (vm_compute; reflexivity)
  end.
  destruct (earlier_slot_wins default_config [0; 0; 1; 1] _ _ _ _ _ _ 0%nat 1%nat (7, 7) 0%Q
              (proj1 (reachable_tracked _ _ (episode_reachable _ _ _ _ _ _ _ Hepisode)))
              Hpass ltac:(lia) eq_refl eq_refl
              ltac:(vm_compute; reflexivity) ltac:(vm_compute; reflexivity)
              ltac:(vm_compute; reflexivity) ltac:(vm_compute; reflexivity)
              Hc0 Hc1 Hvac ltac:(intros; lia) eq_refl)
    as (Hwin & Hocc & Hstay & Hrw).
  exact (conj Hc (conj Hepisode (conj Hp0 (conj Hp1 (conj Hc0 (conj Hc1 (conj Hvac
          (conj Hpass (conj Hwin (conj Hocc (conj (eq_trans Hstay Hp1) Hrw))))))))))).
Defined.

(** C7 as stated fails: once the horizon is reached every car is done and
    the movement pass passes them over.  Cars 0 and 1, on the road, both take
    GAS and both aim at the vacant cell (7, 7); neither moves and neither
    reward changes. *)
Lemma done_cars_do_not_contend :
  ∃ s0 out s g rw' s' g',
    constructed default_config = Some s0 ∧
    episode default_config
            ([0; 1; 1; 1] :: replicate 5 [0; 0; 1; 1] ++ replicate 94 [1; 1; 1; 1]) s0
            ([0; 0; 1; 0; 2; 0; 3; 0; 0; 0; 0; 0] ++ replicate 100 (2 ^ 52))%N
      = Returns out s g ∧
    _step_count s = 100 ∧ _agent_dones s = [true; true; true; true] ∧
    on_the_road s = [true; true; true; true] ∧
    agent_pos s !! 0%nat = Some (7, 6) ∧ agent_pos s !! 1%nat = Some (8, 7) ∧
    candidate default_config s 0 = Some (7, 7) ∧
    candidate default_config s 1 = Some (7, 7) ∧
    vacant default_config s (7, 7) = true ∧
    movement_pass default_config [0; 0; 1; 1] (replicate 4 _step_cost) s g
      = Returns rw' s' g' ∧
    agent_pos s' !! 0%nat = Some (7, 6) ∧ agent_pos s' !! 1%nat = Some (8, 7) ∧
    vacant default_config s' (7, 7) = true ∧
    rw' = [0; 0; 0; 0]%Q.
Proof.
  eexists _, _, _, _, _, _, _.
  split; [vm_compute; reflexivity|]. split; [vm_compute; reflexivity|].
  repeat (split; [vm_compute; reflexivity|]). vm_compute. reflexivity.
Qed.

(** * Turns *)

(** X1.  [__get_next_move] on a car whose direction lies along an axis:
    with route 1 it raises (the name it returns was never bound); with route 2
    it returns the direction turned a quarter to the right, with any other
    route the direction turned a quarter to the left.  Nothing is changed. *)
Theorem get_next_move_turns move route curr_pos agent_i d s g :
  _agents_direction s !! agent_i = Some d →
  d.1 = 0 ∨ d.2 = 0 →
  __get_next_move move route curr_pos agent_i s g =
    if route =? 1 then Raises UnboundLocalError s g
    else Returns (if route =? 2 then turn_right d else turn_left d) s g.
Proof.
  intros Hd Haxis. unfold __get_next_move, get_direction.
  rewrite (bind_Returns_eq _ _ _ _ _ _ _ (gets_Some IndexError _ s g d Hd)).
  destruct (route =? 1); [done|]. unfold ret. f_equal.
  unfold turn_right, turn_left. destruct d as [r c]. simpl in *.
  destruct (route =? 2), (Z.eqb_spec c 0), (Z.eqb_spec r 0); simpl; f_equal; lia.
Qed.

Lemma get_next_move_turns_witness :
  ∃ s0, constructed default_config = Some s0 ∧
    __get_next_move 0 2 (7, 6) 0
      (set_agents_direction [(0, 1); (-1, 0); (1, 0); (0, -1)] s0) [] =
    Returns (1, 0) (set_agents_direction [(0, 1); (-1, 0); (1, 0); (0, -1)] s0) [].
Proof.
  eexists. split; [vm_compute; reflexivity|].
  refine (get_next_move_turns 0 2 (7, 6) 0%nat (0, 1) (set_agents_direction _ _) [] _ _);
    [reflexivity | left; reflexivity].
Defined.

(** * Cars and cells *)

(** X2.  In every state an object goes through, two different slots whose
    cars are on the road have different recorded positions, and the cell of
    each is marked in the grid: the movement pass and the arrival pass only
    ever put a car on a cell they found vacant. *)
Theorem cars_never_share_a_cell cfg s i j p :
  reachable cfg s →
  on_the_road s !! i = Some true → on_the_road s !! j = Some true →
  agent_pos s !! i = Some p → agent_pos s !! j = Some p →
  i = j ∧ occupied cfg s p = true.
Proof.
  intros Hreach Hi Hj Hpi Hpj. destruct (reachable_tracked _ _ Hreach) as [Htr _].
  split; [by eapply tr_apart|].
  destruct (tr_marked _ _ Htr i Hi) as (q & Hq & Hocc). congruence.
Qed.

Lemma cars_never_share_a_cell_witness :
  ∃ s0 out s g,
    constructed default_config = Some s0 ∧
    episode default_config ([0; 1; 1; 1] :: replicate 5 [0; 0; 1; 1]) s0
            ([0; 0; 1; 0; 2; 0; 3; 0; 0; 0; 0; 0] ++ replicate 6 (2 ^ 52))%N
      = Returns out s g ∧
    agent_pos s !! 1%nat = Some (8, 7) ∧
    occupied default_config s (8, 7) = true.
Proof.
  eexists _, _, _, _.
  match goal with
  | |- ?c ∧ ?episode_eq ∧ ?p1 ∧ _ =>
      assert c as Hc by (vm_compute; reflexivity);
      assert episode_eq as Hepisode by (vm_compute; reflexivity);
      assert p1 as Hp1 by (vm_compute; reflexivity)
  end.
  destruct (cars_never_share_a_cell default_config _ 1%nat 1%nat (8, 7)
              (episode_reachable _ _ _ _ _ _ _ Hepisode)
              ltac:(vm_compute; reflexivity) ltac:(vm_compute; reflexivity) Hp1 Hp1)
    as [_ Hocc].
  exact (conj Hc (conj Hepisode (conj Hp1 Hocc))).
Defined.

(** * A grid with one column *)

Lemma get_agent_obs_columns cfg s g obs s' g' :
  get_agent_obs cfg s g = Returns obs s' g' →
  (0 < n_agents cfg)%nat → grid_cols cfg - 1 ≠ 0.
Proof.
  unfold get_agent_obs. intros H Hn.
  destruct (n_agents cfg) as [|n]; [lia|]. cbn [seq foldM] in H. run.
  all: match goal with H : agent_obs _ _ _ _ = Returns _ _ _ |- _ =>
         apply agent_obs_Returns in H as (_ & p & _ & _ & HC & _) end; done.
Qed.

(** X3.  With a single column and at least one slot no observation can be
    built: the column of a position is divided by the number of columns minus
    one.  So [get_agent_obs], and with it [reset] and [step], never return. *)
Theorem single_column_has_no_observation cfg :
  grid_cols cfg = 1 → (0 < n_agents cfg)%nat →
  ∀ s g,
    (∀ obs s' g', get_agent_obs cfg s g ≠ Returns obs s' g') ∧
    (∀ obs s' g', reset cfg s g ≠ Returns obs s' g') ∧
    (∀ acts res s' g', step cfg acts s g ≠ Returns res s' g').
Proof.
  intros HC Hn s g. split; [|split].
  - intros obs s' g' H. apply get_agent_obs_columns in H; [lia|done].
  - intros obs s' g' H. unfold reset in H. run.
    match goal with H : get_agent_obs _ _ _ = Returns _ _ _ |- _ =>
      apply get_agent_obs_columns in H; [lia|done] end.
  - intros acts res s' g' H. unfold step in H. run.
    match goal with H : get_agent_obs _ _ _ = Returns _ _ _ |- _ =>
      apply get_agent_obs_columns in H; [lia|done] end.
Qed.

Lemma single_column_has_no_observation_witness :
  ∃ s0 s,
    constructed one_column_config = Some s0 ∧
    reset one_column_config s0 [0; 0; 0; 0; 0; 0]%N = Raises ZeroDivisionError s [] ∧
    on_the_road s = [true] ∧
    ∀ obs s' g', reset one_column_config s0 [0; 0; 0; 0; 0; 0]%N ≠ Returns obs s' g'.
Proof.
  eexists _, _.
  split; [vm_compute; reflexivity|]. split; [vm_compute; reflexivity|].
  split; [vm_compute; reflexivity|].
  exact (proj1 (proj2 (single_column_has_no_observation one_column_config
                         eq_refl ltac:(vm_compute; lia) _ _))).
Defined.

(** * Before the horizon *)

Section Early.
Context (cfg : config).

Lemma arrival_pass_flags : frame (keeps _agent_dones) (arrival_pass cfg).
Proof. frame_auto. Qed.

Lemma departure_pass_flags : frame (keeps _agent_dones) (departure_pass cfg).
Proof. frame_auto. Qed.

Lemma termination_check_early s g u s' g' :
  termination_check cfg s g = Returns u s' g' → _step_count s < _max_steps → s' = s.
Proof.
  unfold termination_check, get_step_count. intros H Hk. run; [|done].
  match goal with H : (_ <=? _) = true |- _ => apply Z.leb_le in H end. lia.
Qed.

Lemma step_flags_early acts s g res s' g' :
  step cfg acts s g = Returns res s' g' →
  _step_count s' < _max_steps → _agent_dones s' = _agent_dones s.
Proof.
  intros H Hk. pose proof (step_counter _ _ _ _ _ _ _ H) as Hcount.
  unfold step in H. run. simpl in *.
  framed (movement_pass_frame cfg _ _).
  framed arrival_pass_flags.
  framed (arrival_pass_counter cfg).
  framed departure_pass_flags.
  framed (departure_pass_counter cfg).
  framed (reward_finalization_frame cfg _).
  framed (observation_pure cfg). subst.
  repeat match goal with H : keeps _ _ _ |- _ => unfold keeps in H end.
  unfold movement_frame, ledger in *. simplify_eq/=.
  match goal with H : termination_check _ _ _ = Returns _ _ _ |- _ =>
    apply termination_check_early in H; [subst|] end; congruence.
Qed.
End Early.

(** X4.  The step counter of an object that has been reset is never
    negative, and as long as it is below the horizon of 100 no done flag is
    set: a car that has left the road is not marked done before the episode
    ends. *)
Theorem no_done_before_horizon cfg s :
  reachable cfg s →
  0 ≤ _step_count s ∧
  (_step_count s < _max_steps → _agent_dones s = replicate (n_agents cfg) false).
Proof.
  induction 1 as [s0 g obs s g' Hreset|s acts g res s' g' _ [Hpos Hflags] Hstep].
  - apply reset_Returns in Hreset as (_ & Hc & _). unfold counters in Hc.
    injection Hc as -> _ -> _. done.
  - pose proof (step_counter _ _ _ _ _ _ _ Hstep) as Hcount. split; [lia|].
    intros Hk. rewrite (step_flags_early _ _ _ _ _ _ _ Hstep Hk). apply Hflags. lia.
Qed.

Lemma no_done_before_horizon_witness :
  ∃ s0 out s g,
    constructed default_config = Some s0 ∧
    episode default_config (replicate 13 [0; 1; 1; 1]) s0
            ([0; 0; 1; 0; 2; 0; 3; 0; 0; 0; 0; 0] ++ replicate 13 (2 ^ 52))%N
      = Returns out s g ∧
    on_the_road s = [false; true; true; true] ∧
    _step_count s = 13 ∧
    _agent_dones s = [false; false; false; false].
Proof.
  eexists _, _, _, _.
  match goal with
  | |- ?c ∧ ?episode_eq ∧ ?road ∧ ?count ∧ _ =>
      assert c as Hc by (vm_compute; reflexivity);
      assert episode_eq as Hepisode by (vm_compute; reflexivity);
      assert road as Hroad by (vm_compute; reflexivity);
      assert count as Hcount by (vm_compute; reflexivity)
  end.
  destruct (no_done_before_horizon default_config _
              (episode_reachable _ _ _ _ _ _ _ Hepisode)) as [_ Hflags].
  exact (conj Hc (conj Hepisode (conj Hroad (conj Hcount
           (Hflags ltac:(rewrite Hcount; reflexivity)))))).
Defined.

(** * Episode totals *)

Section Totals.
Context (cfg : config).

(** One [step] adds the reward it returns for a slot to the slot's total. *)
Lemma step_ledger acts s g res s' g' :
  step cfg acts s g = Returns res s' g' →
  ∀ i, (i < n_agents cfg)%nat →
    ∃ total r, _total_episode_reward s !! i = Some total ∧
               step_rewards res !! i = Some r ∧
               _total_episode_reward s' !! i = Some (total + r)%Q.
Proof.
  intros H. unfold step in H. run. simpl in *.
  framed (movement_pass_frame cfg _ _).
  framed (arrival_pass_counter cfg).
  framed (departure_pass_counter cfg).
  framed (termination_check_counter cfg).
  framed (observation_pure cfg). subst.
  repeat match goal with H : keeps _ _ _ |- _ => unfold keeps in H end.
  unfold movement_frame, ledger in *. simplify_eq/=.
  match goal with H : reward_finalization _ _ _ _ = Returns _ _ _ |- _ =>
    pose proof (reward_finalization_spec _ _ _ _ _ _ _ H) as Hspec end.
  intros i Hi. destruct (Hspec i Hi) as (base & total & on & _ & Ht & _ & Hr & Htot).
  exists total. eexists. split; [congruence|]. split; [exact Hr | exact Htot].
Qed.
End Totals.

(** X5.  At the end of an episode ([reset], then one [step] per action
    vector, all of which returned) the step counter is the number of steps
    taken, and the episode total of each slot is the sum of the rewards the
    steps returned for the slot, added up in order from 0. *)
Theorem episode_totals cfg actions s0 g out s g' i :
  episode cfg actions s0 g = Returns out s g' → (i < n_agents cfg)%nat →
  length out = length actions ∧
  _step_count s = Z.of_nat (length actions) ∧
  length (rewards_of out i) = length actions ∧
  _total_episode_reward s !! i = Some (running_total (rewards_of out i)).
Proof.
  unfold episode. intros H Hi. run.
  match goal with H : reset _ _ _ = Returns _ _ _ |- _ =>
    apply reset_Returns in H as (_ & Hc & _) end.
  unfold counters in Hc. injection Hc as Hcount Htotal _ _.
  match goal with H : foldM _ _ _ _ _ = Returns _ _ _ |- _ => revert H end.
  change actions with ([] ++ actions) at 2 3 4.
  apply (foldM_inv (λ seen acc st,
           length acc = length seen ∧ _step_count st = Z.of_nat (length seen) ∧
           length (rewards_of acc i) = length seen ∧
           _total_episode_reward st !! i = Some (running_total (rewards_of acc i)))).
  - intros seen acts acc st gt acc' st' gt' (Hlen & Hk & Hrs & Htot) Hbody. run.
    match goal with H : step _ _ _ _ = Returns ?res _ _ |- _ =>
      pose proof (step_counter _ _ _ _ _ _ _ H) as Hstep;
      destruct (step_ledger _ _ _ _ _ _ _ H i Hi) as (total & r & Ht & Hr & Ht');
      assert (rewards_of (acc ++ [res]) i = rewards_of acc i ++ [r]) as Hsnoc
        by (unfold rewards_of; rewrite omap_app; simpl; by rewrite Hr)
    end.
    rewrite Hsnoc, !length_app. simpl.
    split; [lia|]. split; [lia|]. split; [lia|].
    unfold running_total in *. rewrite foldl_app. simpl. congruence.
  - split; [done|]. split; [done|]. split; [done|].
    rewrite Htotal. by apply lookup_replicate_2.
Qed.

Lemma episode_totals_witness :
  ∃ s0 out s g,
    constructed default_config = Some s0 ∧
    episode default_config ([0; 1; 1; 1] :: replicate 6 [0; 0; 1; 1]) s0
            ([0; 0; 1; 0; 2; 0; 3; 0; 0; 0; 0; 0] ++ replicate 7 (2 ^ 52))%N
      = Returns out s g ∧
    _step_count s = 7 ∧
    _total_episode_reward s !! 1%nat = Some (running_total (rewards_of out 1)) ∧
    (running_total (rewards_of out 1) == -1028 # 100)%Q.
Proof.
  eexists _, _, _, _.
  match goal with
  | |- ?c ∧ ?episode_eq ∧ _ =>
      assert c as Hc by (vm_compute; reflexivity);
      assert episode_eq as Hepisode by (vm_compute; reflexivity)
  end.
  destruct (episode_totals default_config _ _ _ _ _ _ 1%nat Hepisode ltac:(vm_compute; lia))
    as (_ & Hcount & _ & Htotal).
  refine (conj Hc (conj Hepisode (conj Hcount (conj Htotal _)))).
  vm_compute. reflexivity.
Defined.

(** * The movement pass, slot by slot *)

Section SlotByslot.
Context (cfg : config).

Lemma movement_pass_effect acts rw s g rw' s' g' :
  tracked cfg s →
  movement_pass cfg acts rw s g = Returns rw' s' g' →
  ∀ i, slot_effect cfg acts rw rw' s s' i.
Proof.
  intros Htr Hrun. rewrite movement_pass_body in Hrun.
  set (I := λ (k : nat) (rwk : list Q) (st : state),
     tracked cfg st ∧ on_the_road st = on_the_road s ∧ _agent_dones st = _agent_dones s ∧
     (∀ h, (k ≤ h)%nat → slot st h = slot s h ∧ rwk !! h = rw !! h) ∧
     (∀ h, (h < k)%nat → slot_effect cfg acts rw rwk s st h)).
  assert (I (length acts) rw' s') as (_ & _ & _ & Hrest & Hdone).
  { revert Hrun. apply (fold_enum_inv I).
    2: { split; [done|]. split; [done|]. split; [done|]. split; [done|]. intros; lia. }
    intros k a rwk st gt rwk' st' gt' Hk (Ht & Hroad & Hflags & Hrest & Hdone) Hbody.
    pose proof (within_Returns _ _ _ _ _ _ _ _ (movement_body_others cfg rwk k a) Hbody)
      as (Hroad1 & Hflags1 & Hothers).
    destruct (movement_body_tracked _ _ _ _ _ _ _ _ Hbody Ht) as [Ht' _].
    destruct (Hrest k (Nat.le_refl k)) as [Hslot Hrk].
    pose proof (aim_slot cfg _ _ _ Hslot) as Haim.
    pose proof Hslot as [= Hpos _ _ _].
    pose proof (movement_body_effect _ _ _ _ _ _ _ _ _ Hbody Ht) as Heff.
    assert (∀ h, h ≠ k → rwk' !! h = rwk !! h ∧ agent_pos st' !! h = agent_pos st !! h)
      as Hkeep.
    { intros h Hne. split.
      - destruct Heff as [(-> & _)|(_ & _ & r0 & x & _ & -> & _)]; [done|].
        by rewrite list_lookup_insert_ne.
      - by pose proof (Hothers h Hne) as [= -> _ _ _]. }
    split; [done|]. split; [congruence|]. split; [congruence|]. split.
    - intros h Hh. assert (h ≠ k) as Hne by lia.
      destruct (Hrest h ltac:(lia)) as [Hs Hr]. destruct (Hkeep h Hne) as [-> _].
      split; [|done]. rewrite (Hothers h Hne). done.
    - intros h Hh. unfold slot_effect. destruct (decide (h = k)) as [->|Hne].
      + rewrite <- Hpos, <- Hrk, <- Hroad, <- Hflags.
        destruct Heff as [(-> & -> & _)|(Hon & Hdn & r0 & x & Hr0 & -> & Hmoved)].
        { by left. }
        assert (<[k:=(r0 + x)%Q]> rwk !! k = Some (r0 + x)%Q) as Hnew.
        { apply list_lookup_insert_eq. by eapply lookup_lt_Some. }
        right. split; [done|]. split; [done|]. exists r0. split; [done|].
        destruct Hmoved as [(_ & -> & Hcore)|(-> & curr & np & Hcurr & Hnp & Hcase)].
        { left. injection Hcore as _ _ ->. done. }
        destruct Hcase as [(_ & -> & Hcore)|[(_ & _ & -> & Hcore)|(_ & -> & Hmove & _)]].
        * right. left. injection Hcore as _ _ ->. done.
        * left. injection Hcore as _ _ ->. done.
        * right. right. split; [done|]. split; [done|]. exists np.
          split; [congruence|]. rewrite Hmove. by rewrite lookup_insert_eq.
      + destruct (Hkeep h Hne) as [Hr Hp]. specialize (Hdone h ltac:(lia)).
        unfold slot_effect in Hdone. rewrite Hr, Hp. done. }
  intros i. destruct (decide (i < length acts)%nat) as [Hi|Hi]; [by apply Hdone|].
  destruct (Hrest i ltac:(lia)) as [[= Hpos _ _ _] Hrw]. by left.
Qed.
End SlotByslot.

(** * Directions *)

Lemma dict_get_elem {K V} `{EqDecision K} (k : K) (v : V) d :
  dict_get k d = Some v → (k, v) ∈ d.
Proof.
  induction d as [|[k' v'] d IH]; simpl; [done|].
  case_decide.
  - intros [= <-]. subst. left.
  - intros H'. right. auto.
Qed.

Lemma dict_set_elem {K V} `{EqDecision K} (k k0 : K) (v v0 : V) d :
  (k, v) ∈ dict_set k0 v0 d → (k, v) = (k0, v0) ∨ (k, v) ∈ d.
Proof.
  induction d as [|[k' v'] d IH]; simpl.
  - intros Hin. apply list_elem_of_singleton in Hin. by left.
  - case_decide.
    + intros Hin. apply elem_of_cons in Hin as [|]; [by left|]. right. by right.
    + intros Hin. apply elem_of_cons in Hin as [->|Hin]; [right; left|].
      destruct (IH Hin); [by left|]. right. by right.
Qed.

Lemma turned_vector_heading route d : d ∈ headings → turned_vector route d ∈ headings.
Proof.
  unfold headings. intros Hd.
  repeat (apply elem_of_cons in Hd as [->|Hd]); [..|by apply elem_of_nil in Hd];
    unfold turned_vector; simpl; destruct (route =? 2); simpl; set_solver.
Qed.

(** The operations that leave the directions alone. *)
Ltac keep_direction :=
  repeat match goal with
         | H : ?m ?s ?g = Returns _ _ _ |- _ =>
             let F := fresh "F" in
             assert (frame (keeps _agents_direction) m) as F by frame_auto;
             apply (within_Returns _ _ _ _ _ _ _ _ F) in H; clear F;
             unfold keeps in H
         end.

Ltac same_direction :=
  repeat match goal with
         | H : _agents_direction _ = _agents_direction _ |- _ =>
             first [rewrite H in * | rewrite <- H in *]; clear H
         end.

Lemma headed_insert k l i d :
  headed k l → d ∈ headings → headed k (<[i:=d]> l).
Proof.
  intros Hs Hd j e Hj. destruct (decide (j = i)) as [->|Hne].
  - intros He. apply list_lookup_insert_Some in He as [(_ & <- & _)|(? & _)]; done.
  - rewrite list_lookup_insert_ne by done. by apply Hs.
Qed.

Lemma headed_next k l d :
  headed k l → d ∈ headings → (k < length l)%nat → headed (S k) (<[k:=d]> l).
Proof.
  intros Hs Hd Hlen j e Hj. destruct (decide (j = k)) as [->|Hne].
  - rewrite list_lookup_insert_eq by done. by intros [= <-].
  - rewrite list_lookup_insert_ne by done. apply Hs. lia.
Qed.

Lemma headed_fewer k k' l : (k' ≤ k)%nat → headed k l → headed k' l.
Proof. intros Hle Hs i d Hi. apply Hs. lia. Qed.

Section Steered.
Context (cfg : config).

Lemma route_vectors_headings p d :
  dict_get p (_route_vectors cfg) = Some d → d ∈ headings.
Proof.
  intros H. apply dict_get_elem in H. unfold _route_vectors in H.
  repeat (apply dict_set_elem in H as [[= _ ->]|H]); [..|by apply elem_of_nil in H];
    unfold headings; set_solver.
Qed.

Lemma gas_target_headed k i move route curr s g np s' g' :
  gas_target cfg i move route curr s g = Returns np s' g' →
  (i < k)%nat → headed k (_agents_direction s) → headed k (_agents_direction s').
Proof.
  unfold gas_target, __get_next_move, get_direction, get_turned, put_direction, put_turned.
  intros H Hi Hs. run; simpl in *; try done.
  apply headed_insert; [done|].
  apply (turned_vector_heading route). eapply Hs; eauto.
Qed.

Lemma update_agent_pos_headed k i move s g r s' g' :
  __update_agent_pos cfg i move s g = Returns r s' g' →
  (i < k)%nat → headed k (_agents_direction s) → headed k (_agents_direction s').
Proof.
  unfold __update_agent_pos. intros H Hi Hs. run.
  all: keep_direction.
  all: try match goal with H : gas_target _ _ _ _ _ _ _ = Returns _ _ _ |- _ =>
             apply (gas_target_headed k) in H; [|done|]; same_direction; try done end.
  all: same_direction; done.
Qed.

Lemma movement_pass_headed acts rw s g rw' s' g' :
  movement_pass cfg acts rw s g = Returns rw' s' g' →
  tracked cfg s → headed (n_agents cfg) (_agents_direction s) →
  headed (n_agents cfg) (_agents_direction s').
Proof.
  rewrite movement_pass_body. intros H Htr Hs.
  apply (foldM_inv (λ _ _ st, tracked cfg st ∧ headed (n_agents cfg) (_agents_direction st))
           (movement_body cfg) (zip (seq 0 (length acts)) acts)) with (seen := []) in H;
    [by destruct H | | done].
  clear. intros _ [i a] acc st gt acc' st' gt' [Ht Hs] Hbody.
  split; [by eapply movement_body_tracked|].
  unfold movement_body, get_done, get_on_the_road in Hbody. run; try done.
  match goal with H : __update_agent_pos _ _ _ _ _ = Returns _ _ _ |- _ =>
    apply (update_agent_pos_headed (n_agents cfg)) in H; [done| |done] end.
  rewrite <- (tr_slots _ _ Ht). by eapply lookup_lt_Some.
Qed.

Lemma choose_gate_direction k s g p s' g' :
  choose_gate cfg k s g = Returns p s' g' →
  ∃ d, d ∈ headings ∧ (k < length (_agents_direction s))%nat ∧
       _agents_direction s' = <[k:=d]> (_agents_direction s).
Proof.
  unfold choose_gate, random_choice, put_direction. intros H. run. simpl.
  eexists. split; [by eapply route_vectors_headings|]. done.
Qed.

Lemma arrival_attempt_headed n k s g b s' g' :
  arrival_attempt cfg k s g = Returns b s' g' →
  headed n (_agents_direction s) → headed n (_agents_direction s').
Proof.
  unfold arrival_attempt. intros H Hs. run.
  all: match goal with H : choose_gate _ _ _ _ = Returns _ _ _ |- _ =>
         apply choose_gate_direction in H as (d & Hd & _ & Hset) end.
  all: keep_direction; same_direction.
  all: rewrite Hset; by apply headed_insert.
Qed.

Lemma arrival_pass_headed n s g u s' g' :
  arrival_pass cfg s g = Returns u s' g' →
  headed n (_agents_direction s) → headed n (_agents_direction s').
Proof.
  unfold arrival_pass, random_uniform, random_random, get_cars_count. intros H Hs.
  run; [|done].
  match goal with H : for_each _ _ _ _ = Returns _ _ _ |- _ => revert H end.
  apply (for_range_inv (λ _ st, headed n (_agents_direction st))); [|done].
  intros k st gt ut st' gt' Hk Hst Hbody.
  unfold __is_gate_free, get_on_the_road in Hbody. run; try done.
  match goal with H : while_true _ _ _ = Returns _ _ _ |- _ => revert H end.
  apply (while_true_inv (λ st, headed n (_agents_direction st))
                        (λ st, headed n (_agents_direction st))); [|done].
  intros sa ga b sb gb Ha Hatt. apply arrival_attempt_headed with (n := n) in Hatt; [|done].
  by destruct b.
Qed.

Lemma step_headed n acts s g res s' g' :
  step cfg acts s g = Returns res s' g' →
  tracked cfg s → n = n_agents cfg →
  headed n (_agents_direction s) → headed n (_agents_direction s').
Proof.
  intros H Htr -> Hs. unfold step in H. run. simpl in *.
  match goal with H : movement_pass _ _ _ _ _ = Returns _ _ _ |- _ =>
    apply movement_pass_headed in H; [|by apply (tracked_core cfg s)|done] end.
  match goal with H : arrival_pass _ _ _ = Returns _ _ _ |- _ =>
    apply (arrival_pass_headed (n_agents cfg)) in H; [|done] end.
  keep_direction. same_direction. done.
Qed.

Lemma init_attempt_headed k s g b s' g' :
  init_attempt cfg k s g = Returns b s' g' →
  headed k (_agents_direction s) → headed (S k) (_agents_direction s').
Proof.
  unfold init_attempt. intros H Hs. run.
  all: match goal with H : choose_gate _ _ _ _ = Returns _ _ _ |- _ =>
         apply choose_gate_direction in H as (d & Hd & Hlen & Hset) end.
  all: keep_direction; same_direction.
  all: rewrite Hset; by apply headed_next.
Qed.

Lemma reset_headed s0 g obs s g' :
  reset cfg s0 g = Returns obs s g' → headed (n_agents cfg) (_agents_direction s).
Proof.
  unfold reset, __init_full_obs. intros H. run.
  match goal with H : for_each _ _ _ _ = Returns _ _ _ |- _ =>
    apply (for_range_inv (λ k st, headed k (_agents_direction st))) in H end.
  - keep_direction. same_direction. done.
  - intros k st gt ut st' gt' Hk Hst Hbody. revert Hbody.
    apply (while_true_inv (λ st, headed k (_agents_direction st))
                          (λ st, headed (S k) (_agents_direction st))); [|done].
    intros sa ga b sb gb Ha Hatt. apply init_attempt_headed in Hatt; [|done].
    destruct b; [done|]. eapply headed_fewer; [|done]. lia.
  - intros i d Hi. lia.
Qed.
End Steered.

Lemma reachable_headed cfg s :
  reachable cfg s → headed (n_agents cfg) (_agents_direction s).
Proof.
  induction 1 as [s0 g obs s g' Hreset|s acts g res s' g' Hreach Hs Hstep].
  - by eapply reset_headed.
  - eapply step_headed; [done| |done|done]. by destruct (reachable_tracked _ _ Hreach).
Qed.

(** * One cell at a time *)

#[global] Instance others_placed_preorder k : PreOrder (others_placed k).
Proof.
  split; unfold others_placed.
  - by intros ?.
  - intros s1 s2 s3 H1 H2 i Hi. destruct (H1 i Hi) as [<- <-]. by apply H2.
Qed.

Ltac frame_placed :=
  intros; unfold others_placed;
  repeat match goal with
         | H : mbind _ _ = Some _ |- _ => apply bind_Some in H as (? & ? & H)
         | H : Some _ = Some _ |- _ => injection H as <-
         | H : list_set _ _ _ = Some _ |- _ => apply list_set_Some in H as (? & ->)
         end;
  simpl; unfold slot; simpl;
  let i := fresh "i" in
  intros i ?; rewrite ?lookup_insert_ne, ?list_lookup_insert_ne by done; done.

Section OneCell.
Context (cfg : config).

Lemma arrival_attempt_others k : frame (others_placed k) (arrival_attempt cfg k).
Proof. repeat frame_step_by frame_placed. Qed.

(** The arrival pass leaves the cars that are on the road where they are. *)
Lemma arrival_pass_positions s g u s' g' :
  arrival_pass cfg s g = Returns u s' g' →
  ∀ i, on_the_road s !! i = Some true →
       on_the_road s' !! i = Some true ∧ agent_pos s' !! i = agent_pos s !! i.
Proof.
  unfold arrival_pass, random_uniform, random_random, get_cars_count. intros H.
  run; [|done].
  match goal with H : for_each _ _ _ _ = Returns _ _ _ |- _ => revert H end.
  apply (for_range_inv
           (λ _ st, ∀ i, on_the_road s !! i = Some true →
                         on_the_road st !! i = Some true ∧
                         agent_pos st !! i = agent_pos s !! i)); [|done].
  intros k st gt ut st' gt' Hk Hst Hbody.
  unfold __is_gate_free, get_on_the_road in Hbody. run; try done.
  match goal with H : while_true _ _ _ = Returns _ _ _ |- _ =>
    apply (within_Returns _ _ _ _ _ _ _ _
             (within_while_true _ _ _ I (arrival_attempt_others k))) in H;
      rename H into Hloop end.
  match goal with H : on_the_road st !! k = Some ?b |- _ =>
    destruct b; [done|]; rename H into Hoff end.
  intros i Hi. destruct (Hst i Hi) as [Hon Hpos].
  assert (i ≠ k) as Hne by (intros ->; congruence).
  destruct (Hloop i Hne) as [[= -> _ _ _] ->]. done.
Qed.

Lemma aim_heading s i p np :
  aim cfg s i = Some np → agent_pos s !! i = Some p →
  (∀ d, _agents_direction s !! i = Some d → d ∈ headings) →
  ∃ d, d ∈ headings ∧ np = add_pos p d.
Proof.
  unfold aim, slot. intros H Hp Hd. rewrite Hp in H.
  cbn -[dict_get pair_get _turning_places turned_vector add_pos] in H.
  destruct (_agents_routes s !! i) as [route|]; [|done].
  destruct (_agents_direction s !! i) as [d|]; [|done].
  cbn -[dict_get pair_get _turning_places turned_vector add_pos] in H.
  specialize (Hd d eq_refl).
  destruct (route =? 1); [injection H as <-; eauto|].
  apply bind_Some in H as (turn_pos & _ & H).
  apply bind_Some in H as (tp & _ & H).
  apply bind_Some in H as ([|] & _ & H); injection H as <-; [|eauto].
  eexists. split; [|done]. by apply turned_vector_heading.
Qed.

Lemma step_positions acts s g res s' g' i p :
  tracked cfg s → headed (n_agents cfg) (_agents_direction s) →
  step cfg acts s g = Returns res s' g' →
  on_the_road s !! i = Some true → agent_pos s !! i = Some p →
  agent_pos s' !! i = Some p ∨
  (acts !! i = Some 0 ∧ _agent_dones s !! i = Some false ∧
   ∃ d, d ∈ headings ∧ agent_pos s' !! i = Some (add_pos p d)).
Proof.
  intros Htr Hs H Hon Hp. unfold step in H. run. simpl in *.
  match goal with H : movement_pass _ _ _ ?s1 _ = Returns _ _ _ |- _ =>
    pose proof (within_Returns _ _ _ _ _ _ _ _ (movement_pass_frame cfg _ _) H) as Hframe;
    assert (tracked cfg s1) as Htr1 by (by apply (tracked_core cfg s));
    pose proof (movement_pass_effect _ _ _ _ _ _ _ _ Htr1 H i) as Heff end.
  unfold keeps, movement_frame in Hframe. injection Hframe as Hroad _ _ _ _.
  match goal with H : arrival_pass _ _ _ = Returns _ _ _ |- _ =>
    destruct (arrival_pass_positions _ _ _ _ _ H i) as [_ Harr]; [congruence|] end.
  framed (departure_pass_core cfg).
  framed (termination_check_core cfg).
  framed (reward_finalization_core cfg _).
  framed (observation_pure cfg). subst.
  repeat match goal with H : keeps _ _ _ |- _ => unfold keeps in H end.
  unfold core in *. simplify_eq/=.
  assert (i < n_agents cfg)%nat as Hi.
  { rewrite <- (tr_slots _ _ Htr). by eapply lookup_lt_Some. }
  match goal with
  | Hm : movement_pass _ _ _ _ _ = Returns _ ?s1 _,
    Ho : get_agent_obs _ ?sf _ = Returns _ _ _ |- _ =>
      assert (agent_pos sf !! i = agent_pos s1 !! i) as Hfinal by congruence
  end.
  rewrite Hfinal. unfold slot_effect in Heff. simpl in Heff.
  destruct Heff as [[Hsame _]|(_ & Hdn & r & _ & [[Hsame _]|[(_ & Hsame & _)|Hgo]])];
    [left; congruence..|].
  destruct Hgo as (Hact & _ & np & Haim & Hnp).
  right. split; [done|]. split; [done|].
  destruct (aim_heading _ i p np Haim Hp) as (d & Hd & ->); [|eauto].
  intros d. by apply Hs.
Qed.
End OneCell.

(** X6.  A [step] moves a car that is on the road by at most one cell: its
    recorded position stays what it was, or the slot took GAS, was not done,
    and the new position is the old one plus one of the four headings.  In
    particular a car that brakes stays. *)
Theorem car_moves_one_cell cfg acts s g res s' g' i p :
  reachable cfg s →
  step cfg acts s g = Returns res s' g' →
  on_the_road s !! i = Some true → agent_pos s !! i = Some p →
  agent_pos s' !! i = Some p ∨
  (acts !! i = Some 0 ∧ _agent_dones s !! i = Some false ∧
   ∃ d, d ∈ headings ∧ agent_pos s' !! i = Some (add_pos p d)).
Proof.
  intros Hreach. apply step_positions.
  - by destruct (reachable_tracked _ _ Hreach).
  - by apply reachable_headed.
Qed.

Lemma car_moves_one_cell_witness :
  ∃ s0 out s g res s' g',
    constructed default_config = Some s0 ∧
    episode default_config ([0; 1; 1; 1] :: replicate 5 [0; 0; 1; 1]) s0
            ([0; 0; 1; 0; 2; 0; 3; 0; 0; 0; 0; 0] ++ replicate 6 (2 ^ 52))%N
      = Returns out s g ∧
    step default_config [0; 0; 1; 1] s [2 ^ 52]%N = Returns res s' g' ∧
    agent_pos s !! 0%nat = Some (7, 6) ∧ agent_pos s' !! 0%nat = Some (7, 7) ∧
    agent_pos s !! 2%nat = Some (0, 6) ∧ agent_pos s' !! 2%nat = Some (0, 6) ∧
    (agent_pos s' !! 2%nat = Some (0, 6) ∨
     [0; 0; 1; 1] !! 2%nat = Some 0 ∧ _agent_dones s !! 2%nat = Some false ∧
     ∃ d, d ∈ headings ∧ agent_pos s' !! 2%nat = Some (add_pos (0, 6) d)).
Proof.
  eexists _, _, _, _, _, _, _.
  match goal with
  | |- ?c ∧ ?episode_eq ∧ ?step_eq ∧ ?p0 ∧ ?p0' ∧ ?p2 ∧ ?p2' ∧ _ =>
      assert c as Hc by (vm_compute; reflexivity);
      assert episode_eq as Hepisode by (vm_compute; reflexivity);
      assert step_eq as Hstep by (vm_compute; reflexivity);
      assert p0 as Hp0 by (vm_compute; reflexivity);
      assert p0' as Hp0' by (vm_compute; reflexivity);
      assert p2 as Hp2 by (vm_compute; reflexivity);
      assert p2' as Hp2' by (vm_compute; reflexivity)
  end.
  pose proof (car_moves_one_cell default_config [0; 0; 1; 1] _ _ _ _ _ 2%nat (0, 6)
                (episode_reachable _ _ _ _ _ _ _ Hepisode) Hstep
                ltac:(vm_compute; reflexivity) Hp2) as Hmove.
  exact (conj Hc (conj Hepisode (conj Hstep (conj Hp0 (conj Hp0' (conj Hp2
          (conj Hp2' Hmove))))))).
Defined.

(** * The values of a reward *)

Section RewardValues.
Context (cfg : config).

Lemma step_reward_base acts s g res s' g' i :
  tracked cfg s →
  step cfg acts s g = Returns res s' g' → (i < n_agents cfg)%nat →
  ∃ base on,
    on_the_road s' !! i = Some on ∧
    step_rewards res !! i =
      Some (if on : bool then base + (-1 # 100) * inject_Z (_step_count s') else base)%Q ∧
    ((base == 0)%Q ∨
     ((base == rcoll cfg)%Q ∧ acts !! i = Some 0 ∧
      on_the_road s !! i = Some true ∧ _agent_dones s !! i = Some false ∧
      agent_pos s' !! i = agent_pos s !! i)).
Proof.
  intros Htr H Hi. pose proof (step_counter _ _ _ _ _ _ _ H) as Hcount.
  unfold step in H. run. simpl in *.
  match goal with H : movement_pass _ _ _ ?s1 _ = Returns _ _ _ |- _ =>
    pose proof (within_Returns _ _ _ _ _ _ _ _ (movement_pass_frame cfg _ _) H) as Hframe;
    assert (tracked cfg s1) as Htr1 by (by apply (tracked_core cfg s));
    pose proof (movement_pass_effect _ _ _ _ _ _ _ _ Htr1 H i) as Heff end.
  unfold keeps, movement_frame in Hframe. injection Hframe as Hroad _ _ _ _.
  match goal with H : arrival_pass _ _ _ = Returns _ _ _ |- _ =>
    pose proof (arrival_pass_positions _ _ _ _ _ _ H i) as Harr;
    pose proof (within_Returns _ _ _ _ _ _ _ _ (arrival_pass_counter cfg) H) as Hc1 end.
  match goal with H : departure_pass _ _ _ = Returns _ _ _ |- _ =>
    pose proof (within_Returns _ _ _ _ _ _ _ _ (departure_pass_core cfg) H) as Hdep;
    pose proof (within_Returns _ _ _ _ _ _ _ _ (departure_pass_counter cfg) H) as Hc2 end.
  match goal with H : termination_check _ _ _ = Returns _ _ _ |- _ =>
    pose proof (within_Returns _ _ _ _ _ _ _ _ (termination_check_core cfg) H) as Hterm;
    pose proof (within_Returns _ _ _ _ _ _ _ _ (termination_check_counter cfg) H) as Hc3 end.
  match goal with H : reward_finalization _ _ _ _ = Returns _ _ _ |- _ =>
    pose proof (within_Returns _ _ _ _ _ _ _ _ (reward_finalization_frame cfg _) H) as Hfin;
    destruct (reward_finalization_spec _ _ _ _ _ _ _ H i Hi)
      as (base & total & on & Hb & Ht & Hon & Hr & Htot) end.
  framed (observation_pure cfg). subst.
  repeat match goal with H : keeps _ _ _ |- _ => unfold keeps in H end.
  unfold core, ledger in *. simplify_eq/=.
  exists base, on. split; [congruence|]. split.
  { match goal with
    | H : _step_count ?sf = _step_count _
      |- _ = Some (if on then (_ + _ * inject_Z (_step_count ?sf))%Q else _) => rewrite H
    end. exact Hr. }
  unfold slot_effect in Heff. simpl in Heff.
  assert (replicate (n_agents cfg) _step_cost !! i = Some 0%Q) as Hzero
    by by apply lookup_replicate_2.
  destruct Heff as [[_ Hsame]|(Hon0 & Hdn & r & Hr0 & Hcase)].
  { left. rewrite Hsame, Hzero in Hb. by injection Hb as <-. }
  assert (r = 0%Q) as -> by congruence.
  destruct Hcase as [[_ Hrw]|[(Hact & Hsame & Hrw)|(_ & Hrw & _)]].
  - left. rewrite Hrw in Hb. injection Hb as <-. reflexivity.
  - right. rewrite Hrw in Hb. injection Hb as <-.
    split; [apply Qplus_0_l|]. split; [done|]. split; [done|]. split; [done|].
    destruct Harr as [_ Harr]; [congruence|]. congruence.
  - left. rewrite Hrw in Hb. injection Hb as <-. reflexivity.
Qed.
End RewardValues.

(** X7.  The reward [step] returns for a slot is a base, to which the time
    penalty is added if the car of the slot is on the road after the step.
    The base is 0, or it is the collision reward; and it is the collision
    reward only for a car that was on the road and not done, took GAS, and is
    where it was before the step. *)
Theorem step_reward_values cfg acts s g res s' g' i :
  reachable cfg s →
  step cfg acts s g = Returns res s' g' → (i < n_agents cfg)%nat →
  ∃ base on,
    on_the_road s' !! i = Some on ∧
    step_rewards res !! i =
      Some (if on : bool then base + (-1 # 100) * inject_Z (_step_count s') else base)%Q ∧
    ((base == 0)%Q ∨
     ((base == rcoll cfg)%Q ∧ acts !! i = Some 0 ∧
      on_the_road s !! i = Some true ∧ _agent_dones s !! i = Some false ∧
      agent_pos s' !! i = agent_pos s !! i)).
Proof.
  intros Hreach. apply step_reward_base. by destruct (reachable_tracked _ _ Hreach).
Qed.

Lemma step_reward_values_witness :
  ∃ s0 out s g res s' g' r,
    constructed default_config = Some s0 ∧
    episode default_config ([0; 1; 1; 1] :: replicate 5 [0; 0; 1; 1]) s0
            ([0; 0; 1; 0; 2; 0; 3; 0; 0; 0; 0; 0] ++ replicate 6 (2 ^ 52))%N
      = Returns out s g ∧
    step default_config [0; 0; 1; 1] s [2 ^ 52]%N = Returns res s' g' ∧
    step_rewards res !! 1%nat = Some r ∧ (r == -1007 # 100)%Q ∧
    ∃ base on,
      on_the_road s' !! 1%nat = Some on ∧
      step_rewards res !! 1%nat =
        Some (if on : bool then base + (-1 # 100) * inject_Z (_step_count s') else base)%Q ∧
      ((base == 0)%Q ∨
       ((base == rcoll default_config)%Q ∧ [0; 0; 1; 1] !! 1%nat = Some 0 ∧
        on_the_road s !! 1%nat = Some true ∧ _agent_dones s !! 1%nat = Some false ∧
        agent_pos s' !! 1%nat = agent_pos s !! 1%nat)).
Proof.
  eexists _, _, _, _, _, _, _, _.
  match goal with
  | |- ?c ∧ ?episode_eq ∧ ?step_eq ∧ ?r1 ∧ _ =>
      assert c as Hc by (vm_compute; reflexivity);
      assert episode_eq as Hepisode by (vm_compute; reflexivity);
      assert step_eq as Hstep by (vm_compute; reflexivity);
      assert r1 as Hr1 by (vm_compute; reflexivity)
  end.
  pose proof (step_reward_values default_config [0; 0; 1; 1] _ _ _ _ _ 1%nat
                (episode_reachable _ _ _ _ _ _ _ Hepisode) Hstep
                ltac:(vm_compute; lia)) as Hvalues.
  refine (conj Hc (conj Hepisode (conj Hstep (conj Hr1 (conj _ Hvalues))))).
  vm_compute. reflexivity.
Defined.

(** * Destinations *)

Section Destinations.
Context (cfg : config).

Lemma step_clears_destinations acts s g res s' g' i p :
  tracked cfg s → step cfg acts s g = Returns res s' g' →
  on_the_road s' !! i = Some true → agent_pos s' !! i = Some p →
  p ∉ _destination cfg.
Proof.
  intros Htr H Hon Hp Hdest. unfold step in H. run.
  framed (termination_check_core cfg).
  framed (reward_finalization_core cfg _).
  framed (observation_pure cfg). subst.
  repeat match goal with H : keeps _ _ _ |- _ => unfold keeps in H end.
  match goal with H : movement_pass _ _ _ _ _ = Returns _ _ _ |- _ =>
    apply movement_pass_tracked in H as [Ht1 _];
      [|by apply (tracked_core cfg s)] end.
  match goal with H : arrival_pass _ _ _ = Returns _ _ _ |- _ =>
    apply arrival_pass_tracked in H as [Ht2 _]; [|done] end.
  unfold core in *. simplify_eq/=.
  match goal with
  | H : departure_pass _ ?s2 _ = Returns _ ?s3 _ |- _ =>
      destruct (departure_pass_departing _ _ _ _ _ _ H Ht2) as [Hpos _ Hslots Hroad _];
      assert (on_the_road s3 !! i = Some true) as Hon3 by congruence;
      assert (agent_pos s2 !! i = Some p) as Hp2 by congruence
  end.
  apply Hroad in Hon3 as [Hon2 Hstay]. apply Hstay. split; [|eauto].
  rewrite <- (tr_slots _ _ Ht2). by eapply lookup_lt_Some.
Qed.
End Destinations.

(** X8.  When [step] has returned, no car that is on the road is on a
    destination cell: the departure pass takes every car whose recorded
    position is a destination off the road. *)
Theorem no_car_left_on_destination cfg acts s g res s' g' i p :
  reachable cfg s →
  step cfg acts s g = Returns res s' g' →
  on_the_road s' !! i = Some true → agent_pos s' !! i = Some p →
  p ∉ _destination cfg.
Proof.
  intros Hreach. apply step_clears_destinations.
  by destruct (reachable_tracked _ _ Hreach).
Qed.

Lemma no_car_left_on_destination_witness :
  ∃ s0 out s g res s' g',
    constructed default_config = Some s0 ∧
    episode default_config (replicate 12 [0; 1; 1; 1]) s0
            ([0; 0; 1; 0; 2; 0; 3; 0; 0; 0; 0; 0] ++ replicate 12 (2 ^ 52))%N
      = Returns out s g ∧
    step default_config [0; 1; 1; 1] s [2 ^ 52]%N = Returns res s' g' ∧
    agent_pos s !! 0%nat = Some (7, 12) ∧ agent_pos s' !! 0%nat = Some (7, 13) ∧
    on_the_road s' = [false; true; true; true] ∧
    agent_pos s' !! 1%nat = Some (13, 7) ∧ (13, 7) ∉ _destination default_config.
Proof.
  eexists _, _, _, _, _, _, _.
  match goal with
  | |- ?c ∧ ?episode_eq ∧ ?step_eq ∧ ?p0 ∧ ?p0' ∧ ?road ∧ ?p1 ∧ _ =>
      assert c as Hc by (vm_compute; reflexivity);
      assert episode_eq as Hepisode by (vm_compute; reflexivity);
      assert step_eq as Hstep by (vm_compute; reflexivity);
      assert p0 as Hp0 by (vm_compute; reflexivity);
      assert p0' as Hp0' by (vm_compute; reflexivity);
      assert road as Hroad by (vm_compute; reflexivity);
      assert p1 as Hp1 by (vm_compute; reflexivity)
  end.
  pose proof (no_car_left_on_destination default_config [0; 1; 1; 1] _ _ _ _ _ 1%nat (13, 7)
                (episode_reachable _ _ _ _ _ _ _ Hepisode) Hstep
                ltac:(vm_compute; reflexivity) Hp1) as Hnot.
  exact (conj Hc (conj Hepisode (conj Hstep (conj Hp0 (conj Hp0' (conj Hroad
          (conj Hp1 Hnot))))))).
Defined.

(** * Arrivals *)

Section Arriving.
Context (cfg : config).

Lemma choose_gate_effect k s g p s' g' :
  choose_gate cfg k s g = Returns p s' g' →
  ∃ d, dict_get p (_route_vectors cfg) = Some d ∧
       (k < length (_agents_direction s))%nat ∧
       s' = set_agents_direction (<[k:=d]> (_agents_direction s)) s.
Proof.
  unfold choose_gate, random_choice, put_direction. intros H. run. eauto.
Qed.

Lemma arrival_attempt_arrived k s g b s' g' :
  arrival_attempt cfg k s g = Returns b s' g' →
  if b then arrived cfg s' k ∧ on_the_road s' !! k = Some true
  else on_the_road s' = on_the_road s.
Proof.
  unfold arrival_attempt, put_pos, add_cars_count, put_on_the_road, put_turned, put_route,
    random_randint, __update_agent_view, get_pos, write_cell.
  intros H.
  apply bind_Returns in H as (p & s1 & g1 & Hgate & H).
  apply choose_gate_effect in Hgate as (d & Hd & Hk & ->).
  run_cells; simpl in *; [|done].
  split; [|by apply list_lookup_insert_eq].
  eexists p, d, _. simpl.
  rewrite lookup_insert_eq.
  rewrite !list_lookup_insert_eq by (rewrite ?length_insert; done).
  split; [done|]. split; [done|]. split; [done|]. split; [done|]. split; [done|].
  match goal with |- 1 ≤ 1 + ?x `mod` (3 - 1 + 1) ≤ 3 =>
    pose proof (Z.mod_pos_bound x (3 - 1 + 1) ltac:(lia)) end. lia.
Qed.

Lemma arrived_slot s s' i : slot s' i = slot s i → arrived cfg s i → arrived cfg s' i.
Proof. unfold arrived. by intros [= -> -> -> ->]. Qed.

Lemma arrival_pass_arrivals s g u s' g' i :
  arrival_pass cfg s g = Returns u s' g' →
  on_the_road s !! i = Some false → on_the_road s' !! i = Some true →
  arrived cfg s' i ∧ curr_cars_count s < Z.of_nat (n_max cfg).
Proof.
  unfold arrival_pass, random_uniform, random_random, get_cars_count.
  intros H Hoff Hon. run; [|congruence].
  match goal with H : _ && _ = true |- _ =>
    apply andb_true_iff in H as [_ Hcount]; apply Z.ltb_lt in Hcount end.
  split; [|done].
  match goal with H : for_each _ _ _ _ = Returns _ _ _ |- _ => rename H into Hloop end.
  apply (for_range_inv
           (λ k st, ((i < k)%nat → on_the_road st !! i = Some true → arrived cfg st i) ∧
                    ((k ≤ i)%nat → on_the_road st !! i = Some false))) in Hloop.
  - destruct Hloop as [Hdone Hrest].
    destruct (decide (i < n_agents cfg)%nat); [by apply Hdone|].
    rewrite Hrest in Hon by lia. done.
  - intros k st gt ut st' gt' Hk [Hdone Hrest] Hbody.
    unfold __is_gate_free, get_on_the_road in Hbody. run.
    all: try (split; [intros ? ?; destruct (decide (i = k)) as [Heq|];
                        [specialize (Hrest ltac:(lia)); congruence | apply Hdone; [lia|done]]
                     | intros; apply Hrest; lia]).
    2: match goal with H : false && _ = true |- _ => discriminate H end.
    match goal with H : while_true _ _ _ = Returns _ _ _ |- _ =>
      pose proof (within_Returns _ _ _ _ _ _ _ _
                    (within_while_true _ _ _ I (arrival_attempt_others cfg k)) H) as Hothers;
      apply (while_true_inv (λ _, True) (λ st, arrived cfg st k)) in H; [|clear|done] end.
    2: { intros sa ga b sb gb _ Hatt. apply arrival_attempt_arrived in Hatt.
         destruct b; [by destruct Hatt | done]. }
    split.
    + intros Hi Hon'. destruct (decide (i = k)) as [->|Hne]; [done|].
      destruct (Hothers i Hne) as [Hslot Hroad].
      apply (arrived_slot st); [done|]. apply Hdone; [lia|congruence].
    + intros Hi. destruct (Hothers i ltac:(lia)) as [_ ->]. apply Hrest. lia.
  - split; [lia|done].
Qed.
End Arriving.

#[global] Instance none_enters_preorder : PreOrder none_enters.
Proof. split; unfold none_enters; [by intros ? | intros ??? H1 H2 i Hi; auto]. Qed.

Ltac frame_leaving :=
  intros; unfold none_enters;
  repeat match goal with
         | H : mbind _ _ = Some _ |- _ => apply bind_Some in H as (? & ? & H)
         | H : Some _ = Some _ |- _ => injection H as <-
         | H : list_set _ _ _ = Some _ |- _ => apply list_set_Some in H as (? & ->)
         end;
  simpl;
  let i := fresh "i" in
  intros i ?;
  first
    [ done
    | match goal with
      | H : <[?k:=false]> _ !! i = Some true |- _ =>
          destruct (decide (i = k)) as [->|];
          [by rewrite list_lookup_insert_eq in H by done
          | by rewrite list_lookup_insert_ne in H by done]
      end ].

Section ArrivingStep.
Context (cfg : config).

Lemma departure_pass_none_enters : frame none_enters (departure_pass cfg).
Proof. repeat frame_step_by frame_leaving. Qed.

Lemma departure_pass_records : frame (keeps records) (departure_pass cfg).
Proof. frame_auto. Qed.

Lemma termination_check_records :
  frame (keeps (λ s, (records s, on_the_road s))) (termination_check cfg).
Proof. frame_auto. Qed.

Lemma reward_finalization_records rw :
  frame (keeps (λ s, (records s, on_the_road s))) (reward_finalization cfg rw).
Proof. frame_auto. Qed.

Lemma arrived_records s s' i : records s' = records s → arrived cfg s i → arrived cfg s' i.
Proof. unfold records. intros [= Hp Hr Hd Ht]. apply arrived_slot. unfold slot. congruence. Qed.

End ArrivingStep.

(** X9.  A slot whose car was off the road before a [step] and is on the
    road after it has been placed by the arrival pass: its position is a key
    of [_route_vectors], its direction the one [_route_vectors] gives for
    that key, its turned flag is false and its route is 1, 2 or 3; and the
    live-car counter was below [n_max] before the step. *)
Theorem arriving_car cfg acts s g res s' g' i :
  step cfg acts s g = Returns res s' g' →
  on_the_road s !! i = Some false → on_the_road s' !! i = Some true →
  arrived cfg s' i ∧ curr_cars_count s < Z.of_nat (n_max cfg).
Proof.
  intros H Hoff Hon. unfold step in H. run. simpl in *.
  framed (movement_pass_frame cfg _ _).
  framed (departure_pass_none_enters cfg).
  framed (departure_pass_records cfg).
  framed (termination_check_records cfg).
  framed (reward_finalization_records cfg _).
  framed (observation_pure cfg). subst.
  repeat match goal with H : keeps _ _ _ |- _ => unfold keeps in H end.
  unfold movement_frame in *. simplify_eq/=.
  match goal with
  | H : arrival_pass _ ?s1 _ = Returns _ ?s2 _, Hd : none_enters ?s2 ?s3 |- _ =>
      destruct (arrival_pass_arrivals _ _ _ _ _ _ i H) as [Harr Hcount];
        [congruence | apply Hd; congruence |]
  end.
  split; [|congruence]. eapply arrived_records; [|exact Harr].
  unfold records. congruence.
Qed.

Lemma arriving_car_witness :
  ∃ s0 out s g res s' g',
    constructed default_config = Some s0 ∧
    episode default_config (replicate 13 [0; 1; 1; 1]) s0
            ([0; 0; 1; 0; 2; 0; 3; 0; 0; 0; 0; 0] ++ replicate 13 (2 ^ 52))%N
      = Returns out s g ∧
    step default_config [1; 1; 1; 1] s [0; 0; 1]%N = Returns res s' g' ∧
    on_the_road s = [false; true; true; true] ∧
    on_the_road s' = [true; true; true; true] ∧
    agent_pos s' !! 0%nat = Some (7, 0) ∧ _agents_routes s' !! 0%nat = Some 2 ∧
    arrived default_config s' 0 ∧ curr_cars_count s < 4.
Proof.
  eexists _, _, _, _, _, _, _.
  match goal with
  | |- ?c ∧ ?episode_eq ∧ ?step_eq ∧ ?road ∧ ?road' ∧ ?p0 ∧ ?r0 ∧ _ =>
      assert c as Hc by (vm_compute; reflexivity);
      assert episode_eq as Hepisode by (vm_compute; reflexivity);
      assert step_eq as Hstep by (vm_compute; reflexivity);
      assert road as Hroad by (vm_compute; reflexivity);
      assert road' as Hroad' by (vm_compute; reflexivity);
      assert p0 as Hp0 by (vm_compute; reflexivity);
      assert r0 as Hr0 by (vm_compute; reflexivity)
  end.
  pose proof (arriving_car default_config [1; 1; 1; 1] _ _ _ _ _ 0%nat Hstep
                ltac:(vm_compute; reflexivity) ltac:(vm_compute; reflexivity)) as Harr.
  exact (conj Hc (conj Hepisode (conj Hstep (conj Hroad (conj Hroad' (conj Hp0
          (conj Hr0 Harr))))))).
Defined.

(** * The road *)

Section Road.
Context (cfg : config).

Lemma grid_set_Some grid p v :
  shape cfg grid → is_valid cfg p = true → is_Some (grid_set grid p v).
Proof.
  intros Hshape Hp.
  destruct (grid_get_inside cfg grid p Hshape Hp) as (row & tag & Hrow & Htag & _).
  destruct Hshape as [Hrows Hcols]. apply is_valid_spec in Hp as [Hr Hc].
  assert (length row = Z.to_nat (grid_cols cfg)) as Hlen.
  { eapply Forall_lookup_1 in Hcols; [exact Hcols | exact Hrow]. }
  unfold grid_set, py_get, py_set.
  rewrite py_index_inside by lia. simpl. rewrite Hrow. simpl.
  rewrite py_index_inside by lia. simpl. done.
Qed.

Lemma create_grid_columns n :
  2 ≤ grid_cols cfg →
  ∀ a g,
    Z.of_nat (a + n) = grid_rows cfg → shape cfg g →
    (∀ p, is_valid cfg p = true → grid_get g p = Some (cell_after cfg (Z.of_nat a) p)) →
    ∃ g', foldl (λ og row,
                   g ← og;
                   ga ← grid_set g (Z.of_nat row, grid_cols cfg `div` 2 - 1) PRE_empty;
                   grid_set ga (Z.of_nat row, grid_cols cfg `div` 2) PRE_empty)
                (Some g) (seq a n) = Some g' ∧
          shape cfg g' ∧
          ∀ p, is_valid cfg p = true → grid_get g' p = Some (cell_after cfg (grid_rows cfg) p).
Proof.
  intros HC. induction n as [|n IH]; intros a g Ha Hshape Hcells; simpl.
  { exists g. split; [done|]. split; [done|]. intros p Hp.
    rewrite Hcells by done. do 2 f_equal. lia. }
  assert (is_valid cfg (Z.of_nat a, grid_cols cfg `div` 2 - 1) = true) as Hv1.
  { apply is_valid_spec. simpl. split; [lia|].
    pose proof (Z.div_le_lower_bound (grid_cols cfg) 2 1 ltac:(lia) ltac:(lia)).
    pose proof (Z.div_lt (grid_cols cfg) 2 ltac:(lia) ltac:(lia)). lia. }
  assert (is_valid cfg (Z.of_nat a, grid_cols cfg `div` 2) = true) as Hv2.
  { apply is_valid_spec. simpl. split; [lia|].
    pose proof (Z.div_le_lower_bound (grid_cols cfg) 2 1 ltac:(lia) ltac:(lia)).
    pose proof (Z.div_lt (grid_cols cfg) 2 ltac:(lia) ltac:(lia)). lia. }
  destruct (grid_set_Some g _ PRE_empty Hshape Hv1) as [ga Hga]. rewrite Hga. simpl.
  destruct (grid_set_inside cfg _ _ _ _ Hshape Hv1 Hga) as (Hshape1 & Hsame1 & Hother1).
  destruct (grid_set_Some ga _ PRE_empty Hshape1 Hv2) as [gb Hgb]. rewrite Hgb.
  destruct (grid_set_inside cfg _ _ _ _ Hshape1 Hv2 Hgb) as (Hshape2 & Hsame2 & Hother2).
  apply IH; [lia|done|].
  intros p Hp. pose proof Hp as Hvalid. apply is_valid_spec in Hvalid as [Hr Hc].
  destruct (decide (p = (Z.of_nat a, grid_cols cfg `div` 2))) as [->|Hne2].
  { rewrite Hsame2. unfold cell_after. simpl.
    replace (Z.of_nat a <? Z.of_nat (S a)) with true by (symmetry; apply Z.ltb_lt; lia).
    rewrite Z.eqb_refl. by rewrite !orb_true_r. }
  rewrite Hother2 by done.
  destruct (decide (p = (Z.of_nat a, grid_cols cfg `div` 2 - 1))) as [->|Hne1].
  { rewrite Hsame1. unfold cell_after. simpl.
    replace (Z.of_nat a <? Z.of_nat (S a)) with true by (symmetry; apply Z.ltb_lt; lia).
    rewrite Z.eqb_refl. simpl. by rewrite !orb_true_r. }
  rewrite Hother1, Hcells by done. unfold cell_after. destruct p as [r c]. simpl in *.
  destruct (Z.eqb_spec r (grid_rows cfg `div` 2 - 1)); [done|].
  destruct (Z.eqb_spec r (grid_rows cfg `div` 2)); [done|]. simpl.
  destruct (Z.ltb_spec r (Z.of_nat a)), (Z.ltb_spec r (Z.of_nat (S a))); try lia; [done| |done].
  assert (r = Z.of_nat a) as -> by lia. simpl.
  destruct (Z.eqb_spec c (grid_cols cfg `div` 2 - 1)); [by subst|].
  destruct (Z.eqb_spec c (grid_cols cfg `div` 2)); [by subst|]. done.
Qed.

Lemma foldl_failed {A B} (f : option B → A → option B) (l : list A) :
  (∀ x, f None x = None) → foldl f None l = None.
Proof. intros Hf. induction l as [|x l IH]; simpl; [done|]. by rewrite Hf. Qed.

Lemma create_grid_cells :
  2 ≤ grid_rows cfg → 2 ≤ grid_cols cfg →
  ∃ grid, __create_grid cfg = Some grid ∧ shape cfg grid ∧
    ∀ p, is_valid cfg p = true →
         grid_get grid p = Some (if on_track cfg p then PRE_empty else PRE_wall).
Proof.
  intros HR HC. unfold __create_grid.
  pose proof (Z.div_le_lower_bound (grid_rows cfg) 2 1 ltac:(lia) ltac:(lia)) as Hlo.
  pose proof (Z.div_lt (grid_rows cfg) 2 ltac:(lia) ltac:(lia)) as Hhi.
  set (nR := Z.to_nat (grid_rows cfg)). set (nC := Z.to_nat (grid_cols cfg)).
  set (k1 := Z.to_nat (grid_rows cfg `div` 2 - 1)).
  set (k2 := Z.to_nat (grid_rows cfg `div` 2)).
  assert (py_set (replicate nR (replicate nC PRE_wall)) (grid_rows cfg `div` 2 - 1)
                 (replicate nC PRE_empty)
          = Some (<[k1:=replicate nC PRE_empty]> (replicate nR (replicate nC PRE_wall))))
    as ->.
  { unfold py_set. rewrite length_replicate, py_index_inside by lia. done. }
  simpl.
  assert (py_set (<[k1:=replicate nC PRE_empty]> (replicate nR (replicate nC PRE_wall)))
                 (grid_rows cfg `div` 2) (replicate nC PRE_empty)
          = Some (<[k2:=replicate nC PRE_empty]>
                    (<[k1:=replicate nC PRE_empty]> (replicate nR (replicate nC PRE_wall)))))
    as ->.
  { unfold py_set. rewrite length_insert, length_replicate, py_index_inside by lia. done. }
  simpl.
  destruct (create_grid_columns nR HC 0%nat
              (<[k2:=replicate nC PRE_empty]>
                 (<[k1:=replicate nC PRE_empty]> (replicate nR (replicate nC PRE_wall)))))
    as (grid & Hgrid & Hshape & Hcells).
  - unfold nR. lia.
  - split; [by rewrite !length_insert, length_replicate|].
    do 2 (apply Forall_insert; [|by rewrite length_replicate]).
    apply Forall_replicate. by rewrite length_replicate.
  - intros p Hp. apply is_valid_spec in Hp as [Hr Hc].
    unfold grid_get, py_get. rewrite !length_insert, length_replicate.
    rewrite py_index_inside by lia. simpl.
    unfold cell_after. replace (p.1 <? Z.of_nat 0) with false by (symmetry; apply Z.ltb_ge; lia).
    simpl. rewrite orb_false_r.
    destruct (Z.eqb_spec p.1 (grid_rows cfg `div` 2)) as [E2|N2].
    { rewrite orb_true_r. replace (Z.to_nat p.1) with k2 by (unfold k2; lia).
      rewrite list_lookup_insert_eq by (rewrite length_insert, length_replicate; lia). simpl.
      rewrite length_replicate, py_index_inside by lia. simpl.
      apply lookup_replicate_2. lia. }
    rewrite list_lookup_insert_ne by (unfold k2; lia). rewrite orb_false_r.
    destruct (Z.eqb_spec p.1 (grid_rows cfg `div` 2 - 1)) as [E1|N1].
    { replace (Z.to_nat p.1) with k1 by (unfold k1; lia).
      rewrite list_lookup_insert_eq by (rewrite length_replicate; lia). simpl.
      rewrite length_replicate, py_index_inside by lia. simpl.
      apply lookup_replicate_2. lia. }
    rewrite list_lookup_insert_ne by (unfold k1; lia).
    rewrite lookup_replicate_2 by lia. simpl.
    rewrite length_replicate, py_index_inside by lia. simpl.
    apply lookup_replicate_2. lia.
  - exists grid. split; [exact Hgrid|]. split; [done|].
    intros p Hp. rewrite Hcells by done. unfold cell_after, on_track.
    apply is_valid_spec in Hp as [Hr Hc].
    replace (p.1 <? grid_rows cfg) with true by (symmetry; apply Z.ltb_lt; lia).
    simpl. by rewrite orb_assoc.
Qed.

Lemma py_index_empty i : py_index 0 i = None.
Proof.
  unfold py_index. change (- 0) with 0.
  destruct (Z.leb_spec 0 i), (Z.ltb_spec i 0); simpl; try lia; done.
Qed.

Lemma create_grid_no_cells :
  grid_rows cfg ≤ 0 ∨ grid_cols cfg ≤ 0 → __create_grid cfg = None.
Proof.
  intros Hdim. unfold __create_grid.
  destruct (Z_le_gt_dec (grid_rows cfg) 0) as [HR|HR].
  { replace (Z.to_nat (grid_rows cfg)) with 0%nat by lia. simpl.
    unfold py_set. simpl. by rewrite py_index_empty. }
  destruct Hdim as [|HC]; [lia|].
  replace (Z.to_nat (grid_cols cfg)) with 0%nat by lia. simpl.
  destruct (py_set _ _ _) as [g1|] eqn:E1; [simpl|done].
  destruct (py_set g1 _ _) as [g2|] eqn:E2; [simpl|done].
  destruct (Z.to_nat (grid_rows cfg)) as [|n] eqn:En; [lia|].
  cbn [seq foldl]. simpl in E1, E2.
  assert (grid_set g2 (Z.of_nat 0, grid_cols cfg `div` 2 - 1) PRE_empty = None) as Hnone.
  { unfold grid_set.
    destruct (py_get g2 (Z.of_nat 0, grid_cols cfg `div` 2 - 1).1) as [row|] eqn:Hrow; [simpl|done].
    assert (row = []) as ->.
    { apply py_get_elem in Hrow.
      apply bind_Some in E2 as (i2 & _ & [= <-]). apply bind_Some in E1 as (i1 & _ & [= <-]).
      assert (Forall (λ r : list string, r = []) (<[i2:=[]]> (<[i1:=[]]> ([] :: replicate n []))))
        as Hall.
      { destruct i1, i2; simpl; repeat constructor;
          try (apply Forall_insert); try (apply Forall_insert);
          try (by apply Forall_replicate); done. }
      by eapply Forall_forall in Hall. }
    unfold py_set. simpl. by rewrite py_index_empty. }
  cbn [mbind option_bind]. rewrite Hnone. cbn [mbind option_bind]. by apply foldl_failed.
Qed.

Lemma destination_on_track p : p ∈ _destination cfg → on_track cfg p = true.
Proof.
  unfold _destination, on_track. intros Hp.
  repeat (apply elem_of_cons in Hp as [->|Hp]); [..|by apply elem_of_nil in Hp]; simpl;
    rewrite ?Z.eqb_refl, ?orb_true_r; done.
Qed.

Lemma roadway_core s s' : core s' = core s → on_roadway cfg s → on_roadway cfg s'.
Proof.
  unfold core, on_roadway, vacant. intros [= Hg Hon Hpos]. by rewrite Hg, Hon, Hpos.
Qed.

Lemma roadway_intro s s' :
  on_roadway cfg s →
  (∀ q, on_track cfg q = false → vacant cfg s' q = true → vacant cfg s q = true) →
  (∀ i p, on_the_road s' !! i = Some true → agent_pos s' !! i = Some p →
          (on_the_road s !! i = Some true ∧ agent_pos s !! i = Some p) ∨
          vacant cfg s p = true) →
  on_roadway cfg s'.
Proof.
  intros [Hwalls Hcars] Hcells Hslots. split.
  - intros q Hq. destruct (vacant cfg s' q) eqn:E; [|done].
    apply Hcells in E; [|done]. by rewrite Hwalls in E.
  - intros i p Hon Hp. destruct (Hslots i p Hon Hp) as [[Hon0 Hp0]|Hvac]; [eauto|].
    destruct (on_track cfg p) eqn:E; [done|]. by rewrite Hwalls in Hvac.
Qed.

Lemma update_agent_pos_roadway i move s g r s' g' :
  __update_agent_pos cfg i move s g = Returns r s' g' →
  on_the_road s !! i = Some true → tracked cfg s →
  on_roadway cfg s → on_roadway cfg s'.
Proof.
  intros H Hon Htr Hroad.
  pose proof (within_Returns _ _ _ _ _ _ _ _ (update_agent_pos_frame cfg i move) H) as Hframe.
  unfold keeps, movement_frame in Hframe. injection Hframe as Hsame _ _ _ _.
  destruct (update_agent_pos_effect _ _ _ _ _ _ _ _ H Htr)
    as [(_ & _ & Hcore)|(_ & curr & np & Hcurr & _ & Hcase)]; [by eapply roadway_core|].
  destruct Hcase as [(_ & _ & Hcore)|[(_ & _ & _ & Hcore)|(Hvac & _ & Hpos & Hgrid)]];
    [by eapply roadway_core..|].
  apply (roadway_intro s); [done| |].
  - intros q Hq. rewrite Hgrid. destruct (decide (q = np)); [done|].
    destruct (decide (q = curr)) as [->|]; [|done].
    destruct Hroad as [_ Hcars]. rewrite (Hcars i curr) in Hq; done.
  - intros j p. rewrite Hsame, Hpos. destruct (decide (j = i)) as [->|Hne].
    + rewrite lookup_insert_eq. intros _ [= <-]. by right.
    + rewrite lookup_insert_ne by done. by left.
Qed.

Lemma movement_pass_roadway acts rw s g rw' s' g' :
  movement_pass cfg acts rw s g = Returns rw' s' g' →
  tracked cfg s → on_roadway cfg s → on_roadway cfg s'.
Proof.
  rewrite movement_pass_body. intros H Htr Hs.
  apply (foldM_inv (λ _ _ st, tracked cfg st ∧ on_roadway cfg st)
           (movement_body cfg) (zip (seq 0 (length acts)) acts)) with (seen := []) in H;
    [by destruct H | | done].
  clear. intros _ [i a] acc st gt acc' st' gt' [Ht Hs] Hbody.
  split; [by eapply movement_body_tracked|].
  unfold movement_body, get_done, get_on_the_road in Hbody. run; try done.
  match goal with H : __update_agent_pos _ _ _ _ _ = Returns _ _ _ |- _ =>
    by apply update_agent_pos_roadway in H end.
Qed.

Lemma roadway_spawn s s' k p g1 :
  on_roadway cfg s → shape cfg (_full_obs s) → vacant cfg s p = true →
  grid_set (_full_obs s) p (agent_tag k) = Some g1 →
  _full_obs s' = g1 →
  (∀ i, i ≠ k → on_the_road s' !! i = on_the_road s !! i) →
  agent_pos s' = <[k:=p]> (agent_pos s) →
  on_roadway cfg s'.
Proof.
  intros Hroad Hshape Hvac Hg1 Hgrid Hon Hpos.
  assert (is_valid cfg p = true) as Hp.
  { unfold vacant, empty_at in Hvac. by apply andb_true_iff in Hvac as [? _]. }
  destruct (grid_set_tests cfg _ _ _ _ Hshape Hp Hg1) as (_ & _ & Hempty).
  apply (roadway_intro s); [done| |].
  - intros q _. unfold vacant. rewrite Hgrid, Hempty. by destruct (decide (q = p)).
  - intros i q. rewrite Hpos. destruct (decide (i = k)) as [->|Hne].
    + rewrite lookup_insert_eq. intros _ [= <-]. by right.
    + rewrite lookup_insert_ne, Hon by done. by left.
Qed.

Lemma arrival_attempt_roadway k s g b s' g' :
  arrival_attempt cfg k s g = Returns b s' g' →
  shape cfg (_full_obs s) → on_roadway cfg s → on_roadway cfg s'.
Proof.
  intros H Hshape Hroad.
  unfold arrival_attempt, put_pos, add_cars_count, put_on_the_road, put_turned,
    put_route, random_randint, __update_agent_view, get_pos in H.
  unfold write_cell in H.
  apply bind_Returns in H as (p & s1 & g1 & Hgate & H).
  apply (within_Returns _ _ _ _ _ _ _ _ (choose_gate_core cfg k)) in Hgate.
  unfold keeps in Hgate. pose proof Hgate as [= Hg Hon Hpos].
  apply (roadway_core s s1 Hgate) in Hroad. rewrite <- Hg in Hshape.
  run_cells; simpl in *; [|done].
  match goal with H : <[k:=_]> _ !! k = Some _ |- _ =>
    rewrite lookup_insert_eq in H; injection H as <- end.
  match goal with
  | Hv : true = vacant _ _ _, H1 : grid_set _ _ _ = Some ?g1 |- on_roadway _ ?st' =>
      apply (roadway_spawn s1 st' k p g1); try done
  end.
  intros i Hne. simpl. by rewrite list_lookup_insert_ne.
Qed.

Lemma arrival_pass_roadway s g u s' g' :
  arrival_pass cfg s g = Returns u s' g' →
  tracked cfg s → on_roadway cfg s → on_roadway cfg s'.
Proof.
  unfold arrival_pass, random_uniform, random_random, get_cars_count. intros H Htr Hroad.
  run; [|done].
  match goal with H : for_each _ _ _ _ = Returns _ _ _ |- _ => revert H end.
  intros H.
  apply (for_range_inv (λ _ st, tracked cfg st ∧ on_roadway cfg st)) in H;
    [by destruct H| |by split].
  clear. intros k st gt ut st' gt' Hk [Ht Hr] Hbody.
  unfold __is_gate_free, get_on_the_road in Hbody. run; try done.
  match goal with H : while_true _ _ _ = Returns _ _ _ |- _ => revert H end.
  apply (while_true_inv
           (λ st', (tracked cfg st' ∧ on_roadway cfg st') ∧ on_the_road st' !! k = Some false)
           (λ st', tracked cfg st' ∧ on_roadway cfg st'));
    [|match goal with H : on_the_road st !! k = Some ?b |- _ => by destruct b end].
  intros sa ga b sb gb [[Hta Hra] Hoff] Hatt.
  destruct (arrival_attempt_tracked _ _ _ _ _ _ _ Hatt Hoff Hta) as [[Htb _] Hb].
  apply arrival_attempt_roadway in Hatt; [|apply Hta|done].
  destruct b; [split|split; [split|]]; auto.
Qed.

Lemma departure_round_roadway s k st g u st' g' :
  tracked cfg s → departing cfg s k st → on_roadway cfg st →
  (reached ← __reached_dest cfg k;
   if reached : bool then put_on_the_road k false;; add_cars_count (-1) else mret tt)
    st g = Returns u st' g' →
  on_roadway cfg st'.
Proof.
  intros Htr [Hpos Hshape _ _ _] Hroad H.
  unfold __reached_dest, get_pos, put_on_the_road, add_cars_count in H.
  unfold write_cell in H. run; simpl in *; [|done].
  match goal with H : bool_decide _ = true |- _ =>
    apply bool_decide_eq_true in H; rename H into Hdest end.
  match goal with H : agent_pos _ !! k = Some ?p |- _ => rename H into Hk; set (pk := p) in * end.
  assert (is_valid cfg pk = true) as Hvalid by (rewrite Hpos in Hk; eapply tr_valid; eauto).
  match goal with H : grid_set _ _ _ = Some _ |- _ =>
    destruct (grid_set_tests cfg _ _ _ _ Hshape Hvalid H) as (_ & _ & Hempty) end.
  apply (roadway_intro st); [done| |].
  - intros q Hq. unfold vacant. simpl. rewrite Hempty.
    destruct (decide (q = pk)) as [->|]; [|done].
    by rewrite (destination_on_track pk) in Hq.
  - intros i p. simpl. intros Hi Hp. left. split; [|done].
    destruct (decide (i = k)) as [->|Hne].
    + apply list_lookup_insert_Some in Hi as [(_ & ? & _)|[? _]]; done.
    + by rewrite list_lookup_insert_ne in Hi.
Qed.

Lemma departure_pass_roadway s g u s' g' :
  departure_pass cfg s g = Returns u s' g' →
  tracked cfg s → on_roadway cfg s → on_roadway cfg s'.
Proof.
  unfold departure_pass. intros H Htr Hroad.
  apply (for_range_inv (λ k st, departing cfg s k st ∧ on_roadway cfg st)) in H;
    [by destruct H| |by split; [apply departing_start|]].
  intros k st gt ut st' gt' _ [Hd Hr] Hbody.
  split; [by eapply departing_round | by eapply departure_round_roadway].
Qed.

Lemma step_roadway acts s g res s' g' :
  step cfg acts s g = Returns res s' g' →
  tracked cfg s → on_roadway cfg s → on_roadway cfg s'.
Proof.
  intros H Htr Hroad. unfold step in H. run.
  framed (termination_check_core cfg).
  framed (reward_finalization_core cfg _).
  framed (observation_pure cfg). subst.
  repeat match goal with H : keeps core _ _ |- _ => unfold keeps in H end.
  match goal with H : movement_pass _ _ _ ?s1 _ = Returns _ _ _ |- _ =>
    assert (core s1 = core s) as Hc1 by done;
    pose proof (movement_pass_tracked _ _ _ _ _ _ _ _ H (tracked_core cfg s s1 Hc1 Htr)) as [Ht1 _];
    apply movement_pass_roadway in H as Hr1;
      [|by apply (tracked_core cfg s)|by apply (roadway_core s)] end.
  match goal with H : arrival_pass _ _ _ = Returns _ _ _ |- _ =>
    pose proof (arrival_pass_tracked _ _ _ _ _ _ H Ht1) as [Ht2 _];
    apply arrival_pass_roadway in H as Hr2; [|done..] end.
  match goal with H : departure_pass _ _ _ = Returns _ _ _ |- _ =>
    apply departure_pass_roadway in H as Hr3; [|done..] end.
  eapply roadway_core; [|exact Hr3]. congruence.
Qed.

Lemma init_attempt_roadway k s g b s' g' :
  (k < n_agents cfg)%nat → initialised cfg k s → on_roadway cfg s →
  init_attempt cfg k s g = Returns b s' g' → on_roadway cfg s'.
Proof.
  intros Hk Hinit Hroad H. unfold init_attempt in H.
  apply bind_Returns in H as (p & s1 & g1 & Hgate & H).
  apply choose_gate_Returns in Hgate as (Hp & Hcore & Hcount).
  apply (initialised_core cfg k s s1 Hcore Hcount) in Hinit.
  apply (roadway_core s s1 Hcore) in Hroad. clear Hcore Hcount s.
  destruct Hinit as [Ht _ Hr _ _].
  unfold put_pos, add_cars_count, put_on_the_road, put_route, random_randint,
    __update_agent_view, get_pos, get_cars_count in H.
  unfold write_cell in H. run_cells; simpl in *; [| |done].
  all: try match goal with H : <[?j:=_]> _ !! ?j = Some _ |- _ =>
    rewrite lookup_insert_eq in H; injection H as <- end.
  all: pose proof (Hr k (le_n _) Hk) as Hoff.
  - match goal with
    | Hv : true = vacant _ _ _, Hg : grid_set _ _ _ = Some ?g1 |- on_roadway _ ?st' =>
        apply (roadway_spawn s1 st' k p g1); try done; [apply Ht|]
    end.
    intros i Hne. simpl. by rewrite list_lookup_insert_ne.
  - match goal with Hg : grid_set _ _ _ = Some ?g1 |- _ =>
      pose proof (grid_set_origin_valid cfg _ _ _ (tr_shape _ _ Ht) Hg) as Hvalid;
      destruct (grid_set_tests cfg _ _ _ _ (tr_shape _ _ Ht) Hvalid Hg) as (_ & _ & Hempty)
    end.
    apply (roadway_intro s1); [done| |].
    + intros q _. unfold vacant. simpl. rewrite Hempty. by destruct (decide (q = (0, 0))).
    + intros i q. simpl. intros Hi Hq. left. split; [done|].
      destruct (decide (i = k)) as [->|Hne]; [congruence|].
      by rewrite lookup_insert_ne in Hq.
Qed.

Lemma reset_roadway s0 g obs s g' :
  2 ≤ grid_rows cfg → 2 ≤ grid_cols cfg →
  reset cfg s0 g = Returns obs s g' → on_roadway cfg s.
Proof.
  intros HR HC H. unfold reset in H. run.
  match goal with H : get_agent_obs _ _ _ = Returns _ _ _ |- _ =>
    apply (reader_Returns _ _ _ _ _ _ (get_agent_obs_reader cfg)) in H as (-> & -> & _) end.
  match goal with H : for_each _ _ _ _ = Returns _ _ _ |- _ =>
    assert (frame eq (for_each (_entry_gates cfg)
              (λ _, c ← get_cars_count;
                    if c <=? Z.of_nat (n_max cfg) then _ ← random_random; mret tt
                    else mret tt))) as Htail by frame_auto;
    apply (within_Returns _ _ _ _ _ _ _ _ Htail) in H; subst end.
  match goal with H : __init_full_obs _ _ _ = Returns _ _ _ |- _ => rename H into Hinit end.
  unfold __init_full_obs in Hinit. run.
  match goal with H : __create_grid _ = Some ?grid |- _ =>
    pose proof (create_grid_fresh cfg _ H) as [Hshape Hfresh];
    destruct (create_grid_cells HR HC) as (grid' & Hgrid' & _ & Hcells);
    rewrite H in Hgrid'; injection Hgrid' as <- end.
  match goal with H : for_each _ _ _ _ = Returns _ _ _ |- _ =>
    apply (for_range_inv (λ k st, initialised cfg k st ∧ on_roadway cfg st)) in H;
      [by destruct H| |] end.
  - intros k st gt ut st' gt' Hk HI.
    apply (while_true_inv (λ st, initialised cfg k st ∧ on_roadway cfg st)
             (λ st, initialised cfg (S k) st ∧ on_roadway cfg st)); [|done].
    intros sa ga b sb gb [Ha Hra] Hatt.
    pose proof (init_attempt_initialised cfg _ _ _ _ _ _ Hk Ha Hatt) as Hb.
    pose proof (init_attempt_roadway _ _ _ _ _ _ Hk Ha Hra Hatt) as Hrb.
    by destruct b.
  - split.
    + split.
      * split; simpl.
        -- done.
        -- by rewrite length_replicate.
        -- intros i p. by rewrite lookup_empty.
        -- intros i Hi. by apply lookup_replicate in Hi as [? _].
        -- intros i j p Hi. by apply lookup_replicate in Hi as [? _].
      * intros _ p. unfold occupied. simpl. by rewrite Hfresh.
      * intros i _ Hi. simpl. by apply lookup_replicate_2.
      * unfold live_cars. simpl.
        clear. induction (n_agents cfg) as [|n IH]; [done|]. simpl. by rewrite filter_cons.
      * intros i Hi. lia.
    + split.
      * intros p Hp. unfold vacant, empty_at. simpl.
        destruct (is_valid cfg p) eqn:Hv; [|done]. by rewrite (Hcells p Hv), Hp.
      * intros i p. simpl. by rewrite lookup_empty.
Qed.
End Road.

Lemma reachable_roadway cfg s :
  2 ≤ grid_rows cfg → 2 ≤ grid_cols cfg → reachable cfg s → on_roadway cfg s.
Proof.
  intros HR HC. induction 1 as [s0 g obs s g' H|s acts g res s' g' Hs IH H].
  - by eapply reset_roadway.
  - eapply step_roadway; [exact H| by apply reachable_tracked | done].
Qed.

(** X10.  [__create_grid] draws a cross: on a grid of at least two rows and
    two columns it returns a grid of the configured shape whose cells are
    empty on the two middle rows and the two middle columns and walls
    everywhere else; with no row the assignment of a middle row is out of
    range, with no column the write of a middle-column cell is, and the call
    raises. *)
Theorem create_grid_draws_a_cross cfg :
  (2 ≤ grid_rows cfg ∧ 2 ≤ grid_cols cfg →
   ∃ grid, __create_grid cfg = Some grid ∧ shape cfg grid ∧
     ∀ p, is_valid cfg p = true →
          grid_get grid p = Some (if on_track cfg p then PRE_empty else PRE_wall)) ∧
  (grid_rows cfg ≤ 0 ∨ grid_cols cfg ≤ 0 → __create_grid cfg = None).
Proof.
  split.
  - intros [HR HC]. by apply create_grid_cells.
  - apply create_grid_no_cells.
Qed.

(** X11.  Cars keep to the roads: on a grid of at least two rows and two
    columns, in every state reached by [reset] and [step], a car that is on
    the road stands on a cell of the grid that lies on one of the two middle
    rows or one of the two middle columns. *)
Theorem cars_keep_to_the_roads cfg s i p :
  2 ≤ grid_rows cfg → 2 ≤ grid_cols cfg → reachable cfg s →
  on_the_road s !! i = Some true → agent_pos s !! i = Some p →
  is_valid cfg p = true ∧ on_track cfg p = true.
Proof.
  intros HR HC Hreach Hon Hp. split.
  - destruct (reachable_tracked _ _ Hreach) as [Htr _]. by eapply tr_valid.
  - destruct (reachable_roadway cfg s HR HC Hreach) as [_ Hcars]. by eapply Hcars.
Qed.

Lemma cars_keep_to_the_roads_witness :
  ∃ s0 out s g,
    constructed default_config = Some s0 ∧
    episode default_config ([0; 1; 1; 1] :: replicate 5 [0; 0; 1; 1]) s0
            ([0; 0; 1; 0; 2; 0; 3; 0; 0; 0; 0; 0] ++ replicate 6 (2 ^ 52))%N
      = Returns out s g ∧
    on_the_road s !! 1%nat = Some true ∧ agent_pos s !! 1%nat = Some (8, 7) ∧
    is_valid default_config (8, 7) = true ∧ on_track default_config (8, 7) = true.
Proof.
  eexists _, _, _, _.
  match goal with
  | |- ?c ∧ ?episode_eq ∧ ?on ∧ ?at_p ∧ _ =>
      assert c as Hc by (vm_compute; reflexivity);
      assert episode_eq as Hepisode by (vm_compute; reflexivity);
      assert on as Hon by (vm_compute; reflexivity);
      assert at_p as Hp by (vm_compute; reflexivity)
  end.
  pose proof (cars_keep_to_the_roads default_config _ 1%nat (8, 7)
                ltac:(vm_compute; discriminate) ltac:(vm_compute; discriminate)
                (episode_reachable _ _ _ _ _ _ _ Hepisode) Hon Hp) as Hroad.
  exact (conj Hc (conj Hepisode (conj Hon (conj Hp Hroad)))).
Defined.

(** * The car counter *)

Lemma count_insert_false (l : list bool) k :
  (length (filter (λ b : bool, b = true) l)
   ≤ S (length (filter (λ b : bool, b = true) (<[k:=false]> l))))%nat.
Proof.
  revert k. induction l as [|b l IH]; intros [|k]; simpl; [lia..| |].
  - rewrite !filter_cons. destruct b; simpl; lia.
  - rewrite !filter_cons. specialize (IH k). destruct b; simpl; lia.
Qed.

Lemma undercounted_tally s s' : tally s' = tally s → undercounted s → undercounted s'.
Proof. unfold tally, undercounted, live_cars. intros [= -> ->]. done. Qed.

Section Counter.
Context (cfg : config).

Lemma movement_pass_tally acts rw :
  within False (keeps tally) (movement_pass cfg acts rw).
Proof. frame_auto. Qed.

Lemma choose_gate_tally k : frame (keeps tally) (choose_gate cfg k).
Proof. frame_auto. Qed.

Lemma termination_check_tally : frame (keeps tally) (termination_check cfg).
Proof. frame_auto. Qed.

Lemma reward_finalization_tally rw : frame (keeps tally) (reward_finalization cfg rw).
Proof. frame_auto. Qed.

Lemma arrival_attempt_undercounted k s g b s' g' :
  arrival_attempt cfg k s g = Returns b s' g' →
  on_the_road s !! k = Some false →
  undercounted s →
  undercounted s' ∧ (b = false → on_the_road s' !! k = Some false).
Proof.
  intros H Hoff Hs.
  unfold arrival_attempt, put_pos, add_cars_count, put_on_the_road, put_turned,
    put_route, random_randint, __update_agent_view, get_pos in H.
  unfold write_cell in H.
  apply bind_Returns in H as (p & s1 & g1 & Hgate & H).
  apply (within_Returns _ _ _ _ _ _ _ _ (choose_gate_tally k)) in Hgate.
  unfold keeps in Hgate. pose proof Hgate as [= Hon Hcount].
  apply (undercounted_tally s s1 Hgate) in Hs. rewrite <- Hon in Hoff.
  run_cells; simpl in *; [|done].
  split; [|done]. unfold undercounted, live_cars in *. simpl.
  rewrite count_insert_true by done. lia.
Qed.

Lemma arrival_pass_undercounted s g u s' g' :
  arrival_pass cfg s g = Returns u s' g' → undercounted s → undercounted s'.
Proof.
  unfold arrival_pass, random_uniform, random_random, get_cars_count. intros H Hs.
  run; [|done].
  match goal with H : for_each _ _ _ _ = Returns _ _ _ |- _ => revert H end.
  apply (for_range_inv (λ _ st, undercounted st)); [|done].
  clear. intros k st gt ut st' gt' Hk Hs Hbody.
  unfold __is_gate_free, get_on_the_road in Hbody. run; try done.
  match goal with H : while_true _ _ _ = Returns _ _ _ |- _ => revert H end.
  apply (while_true_inv (λ st', undercounted st' ∧ on_the_road st' !! k = Some false)
           undercounted);
    [|match goal with H : on_the_road st !! k = Some ?b |- _ => by destruct b end].
  intros sa ga b sb gb [Hsa Hoff] Hatt.
  destruct (arrival_attempt_undercounted _ _ _ _ _ _ Hatt Hoff Hsa) as [Hsb Hb].
  destruct b; auto.
Qed.

Lemma departure_pass_undercounted s g u s' g' :
  departure_pass cfg s g = Returns u s' g' → undercounted s → undercounted s'.
Proof.
  unfold departure_pass. intros H Hs. revert H.
  apply (for_range_inv (λ _ st, undercounted st)); [|done].
  clear. intros k st gt ut st' gt' _ Hs Hbody.
  unfold __reached_dest, get_pos, put_on_the_road, add_cars_count in Hbody.
  unfold write_cell in Hbody. run; simpl in *; [|done].
  unfold undercounted, live_cars in *. simpl.
  pose proof (count_insert_false (on_the_road st) k). lia.
Qed.

Lemma step_undercounted acts s g res s' g' :
  step cfg acts s g = Returns res s' g' → undercounted s → undercounted s'.
Proof.
  intros H Hs. unfold step in H. run.
  framed termination_check_tally.
  framed (reward_finalization_tally _).
  framed (observation_pure cfg). subst.
  match goal with H : movement_pass _ _ _ ?s1 _ = Returns _ _ _ |- _ =>
    apply (within_Returns _ _ _ _ _ _ _ _ (movement_pass_tally _ _)) in H as Hm end.
  repeat match goal with H : keeps tally _ _ |- _ => unfold keeps in H end.
  match goal with H : arrival_pass _ ?s2 _ = Returns _ _ _ |- _ =>
    apply arrival_pass_undercounted in H as Ha; [|by apply (undercounted_tally s)] end.
  match goal with H : departure_pass _ _ _ = Returns _ _ _ |- _ =>
    apply departure_pass_undercounted in H as Hd; [|done] end.
  eapply undercounted_tally; [|exact Hd]. congruence.
Qed.
End Counter.

Lemma reachable_undercounted cfg s : reachable cfg s → undercounted s.
Proof.
  induction 1 as [s0 g obs s g' H|s acts g res s' g' Hs IH H].
  - apply reset_Returns in H as [[_ _ _ Hcount _] _]. unfold undercounted. lia.
  - by eapply step_undercounted.
Qed.

(** X12.  The car counter never overstates the traffic: in every state
    reached by [reset] and [step], [curr_cars_count] is at most the number of
    slots whose car is on the road.  So the cap of the arrival pass,
    [curr_cars_count < n_max], lets cars in whenever fewer than [n_max] cars
    are on the road. *)
Theorem counter_never_overstates cfg s :
  reachable cfg s →
  curr_cars_count s ≤ Z.of_nat (live_cars s) ∧
  ((live_cars s < n_max cfg)%nat → (curr_cars_count s <? Z.of_nat (n_max cfg)) = true).
Proof.
  intros Hreach. pose proof (reachable_undercounted cfg s Hreach) as Hs.
  unfold undercounted in Hs. split; [done|].
  intros Hlive. apply Z.ltb_lt. lia.
Qed.

Lemma counter_never_overstates_witness :
  ∃ s0 out s g,
    constructed default_config = Some s0 ∧
    episode default_config (replicate 14 [0; 1; 1; 1]) s0
            ([0; 0; 1; 0; 2; 0; 3; 0; 0; 0; 0; 0] ++ replicate 14 (2 ^ 52))%N
      = Returns out s g ∧
    curr_cars_count s = 2 ∧ live_cars s = 3%nat ∧
    (curr_cars_count s ≤ Z.of_nat (live_cars s) ∧
     ((live_cars s < n_max default_config)%nat →
      (curr_cars_count s <? Z.of_nat (n_max default_config)) = true)).
Proof.
  eexists _, _, _, _.
  match goal with
  | |- ?c ∧ ?episode_eq ∧ ?count ∧ ?live ∧ _ =>
      assert c as Hc by (vm_compute; reflexivity);
      assert episode_eq as Hepisode by (vm_compute; reflexivity);
      assert count as Hcount by (vm_compute; reflexivity);
      assert live as Hlive by (vm_compute; reflexivity)
  end.
  pose proof (counter_never_overstates default_config _
                (episode_reachable _ _ _ _ _ _ _ Hepisode)) as Hle.
  exact (conj Hc (conj Hepisode (conj Hcount (conj Hlive Hle)))).
Defined.

Lemma create_grid_draws_a_cross_witness :
  ∃ grid, __create_grid default_config = Some grid ∧ shape default_config grid ∧
    (∀ p, is_valid default_config p = true →
          grid_get grid p = Some (if on_track default_config p then PRE_empty else PRE_wall)) ∧
    grid_get grid (6, 3) = Some PRE_empty ∧ grid_get grid (3, 3) = Some PRE_wall.
Proof.
  destruct (proj1 (create_grid_draws_a_cross default_config))
    as (grid & Hgrid & Hshape & Hcells); [split; vm_compute; discriminate|].
  exists grid. split; [done|]. split; [done|]. split; [done|].
  split; [exact (Hcells (6, 3) eq_refl) | exact (Hcells (3, 3) eq_refl)].
Defined.

(** * Observations and the declared observation space *)

Lemma length_concat_uniform {A} (l : list (list A)) m :
  Forall (λ o, length o = m) l → length (concat l) = (length l * m)%nat.
Proof.
  induction 1 as [|o l Ho _ IH]; [done|]. simpl. rewrite length_app, IH, Ho. lia.
Qed.

Lemma Forall_concat {A} (P : A → Prop) (l : list (list A)) :
  Forall (Forall P) l → Forall P (concat l).
Proof. induction 1; simpl; [done|]. by apply Forall_app. Qed.

Section ObservationSpace.
Context (cfg : config).

(** The list [get_agent_obs] builds before the mode is looked at. *)
Lemma get_agent_obs_parts s g obs s' g' :
  get_agent_obs cfg s g = Returns obs s' g' →
  ∃ per, length per = n_agents cfg ∧
    Forall (λ o, ∃ i, agent_obs cfg i s g = Returns o s g) per ∧
    obs = if full_observable cfg then replicate (n_agents cfg) (concat per) else per.
Proof.
  intros H. unfold get_agent_obs in H. apply bind_Returns in H as (per & s1 & g1 & H & Hmode).
  exists per.
  assert (length per = n_agents cfg ∧
          Forall (λ o, ∃ i, agent_obs cfg i s g = Returns o s g) per) as [Hlen Hper].
  { clear Hmode.
    apply (fold_range_inv
             (λ k acc st, st = s ∧ length acc = k ∧
                Forall (λ o, ∃ i, agent_obs cfg i s g = Returns o s g) acc)) in H;
      [by destruct H as (_ & ? & ?)| |split; [done|]; split; [done|]; apply Forall_nil_2].
    clear H. intros k acc st gt acc' st' gt' Hk (-> & Hlen & Hacc) Hbody. run.
    match goal with H : agent_obs _ _ _ _ = Returns _ _ _ |- _ =>
      apply (reader_Returns _ _ _ _ _ _ (agent_obs_reader _ _)) in H as (-> & -> & Hk') end.
    split; [done|]. split; [rewrite length_app; simpl; lia|].
    apply Forall_app. split; [done|]. apply Forall_singleton. eauto. }
  split; [done|]. split; [done|]. destruct (full_observable cfg); by run.
Qed.

Lemma agent_obs_length i s g o s' g' :
  agent_obs cfg i s g = Returns o s' g' → length o = (n_agents cfg + 11)%nat.
Proof.
  intros H. apply agent_obs_Returns in H as (_ & p & _ & _ & _ & ->).
  rewrite !length_app. unfold one_hot. rewrite length_fmap, length_seq.
  unfold neighbourhood_mask. simpl. lia.
Qed.

Lemma obs_bounds_length :
  length (_obs_high cfg) =
    (if full_observable cfg then n_agents cfg * (n_agents cfg + 2) else n_agents cfg + 2)%nat ∧
  length (_obs_low cfg) = length (_obs_high cfg).
Proof.
  unfold _obs_high, _obs_low, np_tile. destruct (full_observable cfg).
  - rewrite !(length_concat_uniform _ (n_agents cfg + 2)).
    + by rewrite !length_replicate.
    + apply Forall_replicate. rewrite length_app, length_replicate. simpl. lia.
    + apply Forall_replicate. rewrite length_app, length_replicate. simpl. lia.
  - rewrite !length_app, !length_replicate. simpl. lia.
Qed.

Lemma agent_obs_unit i s g o s' g' :
  tracked cfg s → agent_obs cfg i s g = Returns o s' g' →
  Forall (λ x, (0 <= x <= 1)%Q) o.
Proof.
  intros Htr H. apply agent_obs_Returns in H as (_ & p & Hp & HR & HC & ->).
  assert (is_valid cfg p = true) as Hvalid by (eapply tr_valid; eauto).
  apply is_valid_spec in Hvalid as [Hr Hc].
  apply Forall_app. split; [|apply Forall_app; split].
  - unfold one_hot. apply Forall_fmap, Forall_forall. intros j _. simpl.
    by destruct (bool_decide _).
  - unfold neighbourhood_mask. cbn [mbind list_bind foldr app].
    repeat (apply Forall_cons; split;
            [cbn [andb Z.eqb]; try done; by destruct (agent_at _ _ _)|]).
    apply Forall_nil_2.
  - repeat (apply Forall_cons; split); [| |apply Forall_nil_2]; apply unit_fraction; lia.
Qed.

Lemma get_agent_obs_unit s g obs s' g' :
  tracked cfg s → get_agent_obs cfg s g = Returns obs s' g' → unit_valued obs.
Proof.
  intros Htr H. apply get_agent_obs_parts in H as (per & _ & Hper & ->).
  assert (unit_valued per) as Hunit.
  { eapply Forall_impl; [exact Hper|]. intros o [i Ho]. by eapply agent_obs_unit. }
  destruct (full_observable cfg); [|done].
  apply Forall_replicate. by apply Forall_concat.
Qed.
End ObservationSpace.

(** X13.  No observation has the size of the declared observation space.
    Every observation [get_agent_obs] returns has [n_agents + 11] entries
    (the identifier, the nine cells of the mask, the two coordinates), or
    [n_agents * (n_agents + 11)] with full observability, while the bounds
    [_obs_low] and [_obs_high] that [__init__] gives to the [Box] of a slot
    have [n_agents + 2] entries, or [n_agents * (n_agents + 2)]. *)
Theorem observation_outgrows_declared_space cfg s g obs s' g' o :
  get_agent_obs cfg s g = Returns obs s' g' → o ∈ obs →
  length o = (if full_observable cfg then n_agents cfg * (n_agents cfg + 11)
              else n_agents cfg + 11)%nat ∧
  length (_obs_high cfg) = (if full_observable cfg then n_agents cfg * (n_agents cfg + 2)
                            else n_agents cfg + 2)%nat ∧
  length (_obs_low cfg) = length (_obs_high cfg) ∧
  length o ≠ length (_obs_high cfg).
Proof.
  intros H Ho. destruct (obs_bounds_length cfg) as [Hhigh Hlow].
  apply get_agent_obs_parts in H as (per & Hlen & Hper & ->).
  assert (Forall (λ o, length o = (n_agents cfg + 11)%nat) per) as Hsizes.
  { eapply Forall_impl; [exact Hper|]. intros o' [i Ho']. by eapply agent_obs_length. }
  assert (length o = (if full_observable cfg then n_agents cfg * (n_agents cfg + 11)
                      else n_agents cfg + 11)%nat ∧ (0 < n_agents cfg)%nat) as [Hsize Hn].
  { destruct (full_observable cfg).
    - apply elem_of_replicate in Ho as [-> Hn].
      rewrite (length_concat_uniform _ _ Hsizes), Hlen. lia.
    - split; [by eapply (proj1 (Forall_forall _ _) Hsizes)|].
      rewrite <- Hlen. destruct per; [by apply elem_of_nil in Ho|simpl; lia]. }
  split; [done|]. split; [done|]. split; [done|].
  rewrite Hsize, Hhigh. destruct (full_observable cfg); nia.
Qed.

Lemma observation_outgrows_declared_space_witness :
  ∃ s0 obs s g' o,
    constructed default_config = Some s0 ∧
    reset default_config s0 [0; 0; 1; 0; 2; 0; 3; 0; 0; 0; 0; 0]%N = Returns obs s g' ∧
    obs !! 0%nat = Some o ∧
    length o = 15%nat ∧ length (_obs_high default_config) = 6%nat ∧
    length (_obs_low default_config) = length (_obs_high default_config) ∧
    length o ≠ length (_obs_high default_config).
Proof.
  eexists _, _, _, _, _.
  match goal with
  | |- ?c ∧ ?reset_eq ∧ ?first ∧ _ =>
      assert c as Hc by (vm_compute; reflexivity);
      assert reset_eq as Hreset by (vm_compute; reflexivity);
      assert first as Hfirst by (vm_compute; reflexivity)
  end.
  pose proof (reset_Returns _ _ _ _ _ _ Hreset) as (_ & _ & Hobs).
  pose proof (observation_outgrows_declared_space default_config _ _ _ _ _ _ Hobs
                (list_elem_of_lookup_2 _ _ _ Hfirst)) as Hsizes.
  exact (conj Hc (conj Hreset (conj Hfirst Hsizes))).
Defined.

(** X14.  Every entry of every observation that [reset] and [step] return
    lies between 0 and 1: for [reset] from any state, and for [step] from
    every state reached by [reset] and [step]. *)
Theorem observations_in_unit_range cfg :
  (∀ s0 g obs s g', reset cfg s0 g = Returns obs s g' → unit_valued obs) ∧
  (∀ s acts g res s' g',
     reachable cfg s → step cfg acts s g = Returns res s' g' →
     unit_valued (observations res)).
Proof.
  split.
  - intros s0 g obs s g' H. apply reset_Returns in H as ([Htr _ _ _ _] & _ & Hobs).
    by eapply get_agent_obs_unit.
  - intros s acts g res s' g' Hreach H.
    assert (tracked cfg s') as Htr.
    { eapply reachable_tracked, reach_step; eauto. }
    unfold step in H. run. simpl.
    match goal with H : get_agent_obs _ _ _ = Returns _ _ _ |- _ =>
      pose proof (within_Returns _ _ _ _ _ _ _ _ (observation_pure cfg) H); subst;
      by eapply get_agent_obs_unit end.
Qed.

Lemma observations_in_unit_range_witness :
  ∃ s0 out s g res s' g',
    constructed default_config = Some s0 ∧
    episode default_config ([0; 1; 1; 1] :: replicate 5 [0; 0; 1; 1]) s0
            ([0; 0; 1; 0; 2; 0; 3; 0; 0; 0; 0; 0] ++ replicate 6 (2 ^ 52))%N
      = Returns out s g ∧
    step default_config [0; 0; 1; 1] s [2 ^ 52]%N = Returns res s' g' ∧
    unit_valued (observations res).
Proof.
  eexists _, _, _, _, _, _, _.
  match goal with
  | |- ?c ∧ ?episode_eq ∧ ?step_eq ∧ _ =>
      assert c as Hc by (vm_compute; reflexivity);
      assert episode_eq as Hepisode by (vm_compute; reflexivity);
      assert step_eq as Hstep by (vm_compute; reflexivity)
  end.
  pose proof (proj2 (observations_in_unit_range default_config) _ _ _ _ _ _
                (episode_reachable _ _ _ _ _ _ _ Hepisode) Hstep) as Hunit.
  exact (conj Hc (conj Hepisode (conj Hstep Hunit))).
Defined.

(** * Legal actions never raise *)

(** ** Runs that raised *)

Lemma bind_Raises_inv {A B} (m : M A) (f : A → M B) s g e s' g' :
  (x ← m; f x) s g = Raises e s' g' →
  m s g = Raises e s' g' ∨
  ∃ a s1 g1, m s g = Returns a s1 g1 ∧ f a s1 g1 = Raises e s' g'.
Proof.
  unfold mbind, M_bind, bind. destruct (m s g) as [a s1 g1|e1 s1 g1|]; [| |done].
  - intros H. right. eauto.
  - intros [= -> -> ->]. by left.
Qed.

Lemma gets_Raises {A} e0 (f : state → option A) s g e s' g' :
  gets e0 f s g = Raises e s' g' → f s = None.
Proof. unfold gets. by destruct (f s). Qed.

Lemma update_Raises e0 f s g e s' g' :
  update e0 f s g = Raises e s' g' → f s = None.
Proof.
  unfold update. intros H. apply bind_Raises_inv in H as [H|(a & s1 & g1 & _ & H)];
    [by apply gets_Raises in H | done].
Qed.

Lemma draw_Raises s g e s' g' : draw s g = Raises e s' g' → False.
Proof. unfold draw. by destruct g. Qed.

Lemma list_set_None {A} (l : list A) i v : list_set l i v = None → (length l ≤ i)%nat.
Proof. unfold list_set. case_decide; [done|lia]. Qed.

Lemma fold_range_Raises {B} (I : nat → B → state → Prop) (body : B → nat → M B) n :
  (∀ k acc s g acc' s' g',
     (k < n)%nat → I k acc s → body acc k s g = Returns acc' s' g' → I (S k) acc' s') →
  ∀ acc s g e s' g',
    I 0%nat acc s → foldM body (seq 0 n) acc s g = Raises e s' g' →
    ∃ k acc1 s1 g1, (k < n)%nat ∧ I k acc1 s1 ∧ body acc1 k s1 g1 = Raises e s' g'.
Proof.
  intros Hbody.
  assert (∀ m k acc s g e s' g',
            (k + m = n)%nat → I k acc s →
            foldM body (seq k m) acc s g = Raises e s' g' →
            ∃ k acc1 s1 g1, (k < n)%nat ∧ I k acc1 s1 ∧
                            body acc1 k s1 g1 = Raises e s' g') as Hgen.
  { induction m as [|m IH]; intros k acc s g e s' g' Hkm HI Hrun; simpl in Hrun; [done|].
    apply bind_Raises_inv in Hrun as [H|(acc1 & s1 & g1 & H1 & H2)].
    - exists k, acc, s, g. split; [lia|done].
    - apply (IH (S k) acc1 s1 g1 e s' g'); [lia| |done].
      apply (Hbody k acc s g acc1 s1 g1); [lia|done|done]. }
  intros acc s g e s' g'. by apply (Hgen n 0%nat).
Qed.

Lemma for_range_Raises (I : nat → state → Prop) (body : nat → M unit) n :
  (∀ k s g u s' g',
     (k < n)%nat → I k s → body k s g = Returns u s' g' → I (S k) s') →
  ∀ s g e s' g',
    I 0%nat s → for_each (seq 0 n) body s g = Raises e s' g' →
    ∃ k s1 g1, (k < n)%nat ∧ I k s1 ∧ body k s1 g1 = Raises e s' g'.
Proof.
  intros Hbody s g e s' g' HI H. unfold for_each in H.
  apply (fold_range_Raises (λ k _ st, I k st)) in H as (k & u & s1 & g1 & ? & ? & ?);
    [by exists k, s1, g1| |done].
  intros k [] ? ? ? ? ?. apply Hbody.
Qed.

Lemma fold_enum_Raises {A B} (I : nat → B → state → Prop) (body : B → nat * A → M B)
    (l : list A) :
  (∀ k a acc s g acc' s' g',
     l !! k = Some a → I k acc s → body acc (k, a) s g = Returns acc' s' g' →
     I (S k) acc' s') →
  ∀ acc s g e s' g',
    I 0%nat acc s → foldM body (zip (seq 0 (length l)) l) acc s g = Raises e s' g' →
    ∃ k a acc1 s1 g1, l !! k = Some a ∧ I k acc1 s1 ∧
                      body acc1 (k, a) s1 g1 = Raises e s' g'.
Proof.
  intros Hbody.
  assert (∀ l' k acc s g e s' g',
            (∀ m a, l' !! m = Some a → l !! (k + m)%nat = Some a) →
            I k acc s →
            foldM body (zip (seq k (length l')) l') acc s g = Raises e s' g' →
            ∃ k a acc1 s1 g1, l !! k = Some a ∧ I k acc1 s1 ∧
                              body acc1 (k, a) s1 g1 = Raises e s' g') as Hgen.
  { induction l' as [|a l' IH]; intros k acc s g e s' g' Hsub HI Hrun;
      simpl in Hrun; [done|].
    assert (l !! k = Some a) as Hk by (rewrite <- (Nat.add_0_r k); by apply Hsub).
    apply bind_Raises_inv in Hrun as [H|(acc1 & s1 & g1 & H1 & H2)].
    - exists k, a, acc, s, g. done.
    - apply (IH (S k) acc1 s1 g1 e s' g'); [| |done].
      + intros m b Hm. replace (S k + m)%nat with (k + S m)%nat by lia. by apply Hsub.
      + by apply (Hbody k a acc s g acc1 s1 g1). }
  intros acc s g e s' g'. by apply (Hgen l 0%nat).
Qed.

Lemma repeat_until_Raises (P : state → Prop) (body : M bool) :
  (∀ s g s' g', P s → body s g = Returns false s' g' → P s') →
  ∀ fuel s g e s' g',
    P s → repeat_until fuel body s g = Raises e s' g' →
    ∃ s1 g1, P s1 ∧ body s1 g1 = Raises e s' g'.
Proof.
  intros Hbody. induction fuel as [|fuel IH]; intros s g e s' g' HP Hrun; simpl in Hrun;
    [done|].
  apply bind_Raises_inv in Hrun as [H|(b & s1 & g1 & H1 & H2)]; [by eauto|].
  destruct b; [done|]. eapply IH; [|exact H2]. eauto.
Qed.

Lemma while_true_Raises (P : state → Prop) (body : M bool) :
  (∀ s g s' g', P s → body s g = Returns false s' g' → P s') →
  ∀ s g e s' g',
    P s → while_true body s g = Raises e s' g' →
    ∃ s1 g1, P s1 ∧ body s1 g1 = Raises e s' g'.
Proof. intros Hbody s g e s' g' HP Hrun. eapply repeat_until_Raises; eauto. Qed.

(** Symbolic execution of a run that raised: the hypothesis is split into
    the operations that can have raised, each with the run that led to it. *)
Ltac crash_step :=
  match goal with
  | H : mbind _ _ _ _ = Raises _ _ _ |- _ =>
      apply bind_Raises_inv in H as [H|(? & ? & ? & ? & H)]
  | H : mret _ _ _ = Raises _ _ _ |- _ => discriminate H
  | H : ret _ _ _ = Raises _ _ _ |- _ => discriminate H
  | H : reads _ _ _ = Raises _ _ _ |- _ => discriminate H
  | H : modify _ _ _ = Raises _ _ _ |- _ => discriminate H
  | H : Returns _ _ _ = Raises _ _ _ |- _ => discriminate H
  | H : Starved = Raises _ _ _ |- _ => discriminate H
  | H : draw _ _ = Raises _ _ _ |- _ => destruct (draw_Raises _ _ _ _ _ H)
  | H : gets _ _ _ _ = Raises _ _ _ |- _ => apply gets_Raises in H
  | H : update _ _ _ _ = Raises _ _ _ |- _ => apply update_Raises in H
  | H : mbind _ _ = None |- _ => apply bind_None in H as [H|(? & ? & H)]
  | H : Some _ = None |- _ => discriminate H
  | H : (if ?b then _ else _) _ _ = Raises _ _ _ |- _ =>
      let E := fresh "Hif" in destruct b eqn:E
  | H : (match ?o with Some _ => _ | None => _ end) _ _ = Raises _ _ _ |- _ =>
      let E := fresh "Hopt" in destruct o eqn:E
  end.

Ltac crash := repeat (first [crash_step | run_step]; subst).

(** ** The states [step] can work on *)

(** Assignments to an entry of a list keep every length. *)
Ltac frame_insert :=
  intros;
  repeat match goal with
         | H : mbind _ _ = Some _ |- _ => apply bind_Some in H as (? & ? & H)
         | H : Some _ = Some _ |- _ => injection H as <-
         | H : list_set _ _ _ = Some _ |- _ => apply list_set_Some in H as (? & ->)
         end;
  unfold keeps, lengths; simpl; by rewrite ?length_insert.

Section Sound.
Context (cfg : config).

Lemma sound_same s s' :
  core s' = core s → records s' = records s → lengths s' = lengths s →
  sound cfg s → sound cfg s'.
Proof.
  intros Hcore Hrec Hlen [Ht Hz Hp Hh Hr].
  pose proof Hcore as [= Hg Hon Hpos]. pose proof Hrec as [= _ Hroutes Hdir _].
  split.
  - by eapply tracked_core.
  - unfold sized. by rewrite Hlen.
  - by rewrite Hpos.
  - by rewrite Hdir.
  - unfold routed. by rewrite Hon, Hroutes.
Qed.

Lemma movement_body_lengths rw slot : frame (keeps lengths) (movement_body cfg rw slot).
Proof. unfold movement_body. repeat frame_step_by frame_insert. Qed.

Lemma movement_body_slots rw slot : frame keeps_slots (movement_body cfg rw slot).
Proof. unfold movement_body. repeat frame_step_by frame_assignment. Qed.

Lemma movement_body_routes rw slot :
  frame (keeps (λ s, (on_the_road s, _agents_routes s))) (movement_body cfg rw slot).
Proof. unfold movement_body. frame_auto. Qed.

Lemma movement_body_sound rw slot s g rw' s' g' :
  movement_body cfg rw slot s g = Returns rw' s' g' → sound cfg s → sound cfg s'.
Proof.
  intros H [Ht Hz Hp Hh Hr].
  pose proof (within_Returns _ _ _ _ _ _ _ _ (movement_body_lengths rw slot) H) as Hlen.
  pose proof (within_Returns _ _ _ _ _ _ _ _ (movement_body_slots rw slot) H) as Hslots.
  pose proof (within_Returns _ _ _ _ _ _ _ _ (movement_body_routes rw slot) H) as Hroutes.
  unfold keeps in Hlen, Hroutes. injection Hroutes as Hon Hroutes.
  split.
  - by destruct (movement_body_tracked _ _ _ _ _ _ _ _ H Ht).
  - unfold sized. by rewrite Hlen.
  - intros i Hi. apply Hslots. auto.
  - destruct slot as [i a]. unfold movement_body, get_done, get_on_the_road in H.
    run; try done.
    match goal with H : __update_agent_pos _ _ _ _ _ = Returns _ _ _ |- _ =>
      apply (update_agent_pos_headed _ (n_agents cfg)) in H; [done| |done] end.
    rewrite <- (tr_slots _ _ Ht). by eapply lookup_lt_Some.
  - unfold routed. by rewrite Hon, Hroutes.
Qed.

Lemma arrival_attempt_lengths k : frame (keeps lengths) (arrival_attempt cfg k).
Proof. repeat frame_step_by frame_insert. Qed.

Lemma arrival_attempt_slots k : frame keeps_slots (arrival_attempt cfg k).
Proof. repeat frame_step_by frame_assignment. Qed.

Lemma arrival_attempt_sound k s g b s' g' :
  arrival_attempt cfg k s g = Returns b s' g' →
  on_the_road s !! k = Some false → sound cfg s →
  sound cfg s' ∧ (b = false → on_the_road s' !! k = Some false).
Proof.
  intros H Hoff [Ht Hz Hp Hh Hr].
  pose proof (within_Returns _ _ _ _ _ _ _ _ (arrival_attempt_lengths k) H) as Hlen.
  pose proof (within_Returns _ _ _ _ _ _ _ _ (arrival_attempt_slots k) H) as Hslots.
  pose proof (within_Returns _ _ _ _ _ _ _ _ (arrival_attempt_others cfg k) H) as Hothers.
  pose proof (arrival_attempt_arrived _ _ _ _ _ _ _ H) as Hk.
  destruct (arrival_attempt_tracked _ _ _ _ _ _ _ H Hoff Ht) as [[Ht' _] Hb].
  split; [|done]. split.
  - done.
  - unfold sized. unfold keeps in Hlen. by rewrite Hlen.
  - intros i Hi. apply Hslots. auto.
  - by eapply arrival_attempt_headed.
  - intros i r. destruct (decide (i = k)) as [->|Hne].
    + destruct b.
      * destruct Hk as [(_ & _ & r' & _ & _ & _ & _ & Hr' & Hrange) _]. congruence.
      * rewrite Hk, Hoff. done.
    + destruct (Hothers i Hne) as [[= _ Hroute _ _] Hon]. rewrite Hon, Hroute. apply Hr.
Qed.
End Sound.
Lemma turning_places_total cfg d : d ∈ headings → is_Some (dict_get d (_turning_places cfg)).
Proof.
  unfold headings. intros Hd.
  repeat (apply elem_of_cons in Hd as [->|Hd]); [..|by apply elem_of_nil in Hd];
    unfold _turning_places; simpl; repeat case_decide; try done; eauto.
Qed.

(** A lookup that failed against the length of the list. *)
Ltac out_of_range :=
  simpl in *;
  repeat match goal with
         | H : mbind _ _ = None |- _ => apply bind_None in H as [H|(? & ? & H)]
         | H : list_set _ _ _ = None |- _ => apply list_set_None in H
         | H : _ !! _ = None |- _ => apply lookup_ge_None in H
         | H : Some _ = None |- _ => discriminate H
         end;
  rewrite ?length_insert in *; unfold pos in *; lia.

(** ** One car's move *)

Section MovingSafely.
Context (cfg : config).

Lemma gas_target_safe i move route curr s g e s' g' :
  sized cfg s → headed (n_agents cfg) (_agents_direction s) → (i < n_agents cfg)%nat →
  2 ≤ route ≤ 3 ∨ route = 1 →
  gas_target cfg i move route curr s g = Raises e s' g' → False.
Proof.
  intros Hz Hh Hi Hroute H. unfold sized, lengths in Hz.
  injection Hz as Hdones Hturned Hroutes Hdirs Htotals.
  unfold gas_target, __get_next_move, get_direction, get_turned, put_direction,
    put_turned in H.
  crash.
  all: try out_of_range.
  - match goal with H : dict_get ?d _ = None |- _ =>
      destruct (turning_places_total cfg d) as [? Hsome]; [by eapply Hh|congruence] end.
  - match goal with H : pair_get _ _ = None |- _ => rename H into Hpair end.
    unfold pair_get in Hpair. apply bind_None in Hpair as [H|(k & Hk & H)].
    + unfold py_index in H. destruct Hroute as [Hroute| ->]; [|done].
    assert (route = 2 ∨ route = 3) as [-> | ->] by lia; done.
    + unfold py_index in Hk. destruct Hroute as [Hroute| ->]; [|done].
    assert (route = 2 ∨ route = 3) as [-> | ->] by lia; simpl in Hk; injection Hk as <-; done.
Qed.

Lemma grid_get_None grid p :
  shape cfg grid → is_valid cfg p = true → grid_get grid p = None → False.
Proof.
  intros Hshape Hp H. destruct (grid_get_inside cfg grid p Hshape Hp) as (? & ? & _ & _ & ?).
  congruence.
Qed.

Lemma grid_set_None grid p v :
  shape cfg grid → is_valid cfg p = true → grid_set grid p v = None → False.
Proof.
  intros Hshape Hp H. destruct (grid_set_Some cfg grid p v Hshape Hp). congruence.
Qed.

Lemma check_colision_safe p s g e s' g' :
  shape cfg (_full_obs s) → __check_colision cfg p s g = Raises e s' g' → False.
Proof.
  intros Hshape H. unfold __check_colision, read_cell in H. crash.
  by eapply grid_get_None.
Qed.

Lemma is_cell_vacant_safe p s g e s' g' :
  shape cfg (_full_obs s) → _is_cell_vacant cfg p s g = Raises e s' g' → False.
Proof.
  intros Hshape H. unfold _is_cell_vacant, read_cell in H. crash.
  by eapply grid_get_None.
Qed.

Lemma gas_target_lengths i move route curr :
  frame (keeps lengths) (gas_target cfg i move route curr).
Proof. repeat frame_step_by frame_insert. Qed.

Lemma update_agent_pos_safe i move s g e s' g' :
  sound cfg s → on_the_road s !! i = Some true → move = 0 ∨ move = 1 →
  __update_agent_pos cfg i move s g = Raises e s' g' → False.
Proof.
  intros [Ht Hz Hp Hh Hr] Hon Hmove H.
  assert (i < n_agents cfg)%nat as Hi.
  { rewrite <- (tr_slots _ _ Ht). by eapply lookup_lt_Some. }
  destruct (Hp i Hi) as [curr Hcurr].
  pose proof (tr_valid _ _ Ht i curr Hcurr) as Hvalid.
  pose proof (tr_shape _ _ Ht) as Hshape.
  pose proof Hz as Hz'. unfold sized, lengths in Hz'.
  injection Hz' as Hdones Hturned Hroutes Hdirs Htotals.
  unfold __update_agent_pos, get_pos, get_route in H.
  crash; try out_of_range; try congruence.
  all: try match goal with H : gas_target _ _ _ _ _ _ _ = Raises _ _ _ |- _ =>
    eapply gas_target_safe in H; try done;
    match goal with Hroute : _agents_routes _ !! _ = Some ?r |- _ =>
      pose proof (Hr _ _ Hon Hroute); lia end end.
  all: repeat match goal with
       | H : gas_target _ _ _ _ _ _ _ = Returns _ _ _ |- _ =>
           pose proof (within_Returns _ _ _ _ _ _ _ _ (gas_target_lengths _ _ _ _) H) as Hlen;
           apply (within_Returns _ _ _ _ _ _ _ _ (gas_target_core _ _ _ _ _)) in H;
           unfold keeps, lengths in Hlen; unfold keeps in H;
           injection Hlen as Hdones1 Hturned1 Hroutes1 Hdirs1 Htotals1;
           injection H as Hgrid1 Hon1 Hpos1
       | H : __get_next_move _ _ _ _ _ _ = Returns _ _ _ |- _ =>
           apply (within_Returns _ _ _ _ _ _ _ _ (get_next_move_pure _ _ _ _)) in H; subst
       | H : __check_colision _ _ _ _ = Returns _ _ _ |- _ =>
           apply check_colision_Returns in H as (? & ? & ?); subst
       | H : _is_cell_vacant _ _ _ _ = Returns _ _ _ |- _ =>
           apply is_cell_vacant_Returns in H as (? & ? & ?); subst
       end.
  all: try match goal with H : __get_next_move _ _ _ _ _ _ = Raises _ _ _ |- _ =>
         unfold __get_next_move, get_direction in H; crash; out_of_range end.
  all: try match goal with H : __check_colision _ _ _ _ = Raises _ _ _ |- _ =>
         apply check_colision_safe in H; [done|congruence] end.
  all: try match goal with H : _is_cell_vacant _ _ _ _ = Raises _ _ _ |- _ =>
         apply is_cell_vacant_safe in H; [done|congruence] end.
  all: match goal with
       | H : agent_pos ?s0 !! ?k = Some _, H' : agent_pos ?s0 !! ?k = Some _ |- _ =>
           rewrite H in H'; injection H' as <-
       end.
  all: match goal with H : true = vacant _ _ ?np |- _ =>
         assert (is_valid cfg np = true) as Hvalid0
           by (symmetry in H; unfold vacant, empty_at in H;
               by apply andb_true_iff in H as [? _]) end.
  all: unfold put_pos, write_cell, __update_agent_view, get_pos, write_cell in *.
  all: crash; simpl in *.
  - match goal with H : grid_set _ _ _ = None |- _ =>
      eapply grid_set_None in H; [done|congruence|done] end.
  - match goal with H : <[_:=_]> _ !! _ = None |- _ =>
      by rewrite lookup_insert_eq in H end.
  - match goal with H : <[_:=_]> _ !! _ = Some _ |- _ =>
      rewrite lookup_insert_eq in H; injection H as <- end.
    match goal with H1 : grid_set _ _ _ = Some ?g1, H2 : grid_set ?g1 _ _ = None |- _ =>
      apply (grid_set_tests cfg) in H1 as (Hshape1 & _ & _); [|congruence|done];
      by eapply grid_set_None in H2 end.
Qed.
End MovingSafely.

(** ** The movement pass *)

Section MovementSafety.
Context (cfg : config).

Lemma movement_body_rewards rw slot s g rw' s' g' :
  movement_body cfg rw slot s g = Returns rw' s' g' → length rw' = length rw.
Proof.
  destruct slot as [i a]. unfold movement_body, get_done, get_on_the_road. intros H.
  run; try done. by rewrite length_insert.
Qed.

Lemma movement_body_safe rw k a s g e s' g' :
  sound cfg s → (k < n_agents cfg)%nat → a = 0 ∨ a = 1 → length rw = n_agents cfg →
  movement_body cfg rw (k, a) s g = Raises e s' g' → False.
Proof.
  intros Hs Hk Ha Hrw H. pose proof Hs as [Ht Hz _ _ _].
  pose proof (tr_slots _ _ Ht) as Hroad.
  unfold sized, lengths in Hz. injection Hz as Hdones Hturned Hroutes Hdirs Htotals.
  unfold movement_body, get_done, get_on_the_road in H.
  crash; try out_of_range.
  by eapply update_agent_pos_safe.
Qed.

Lemma movement_pass_safe acts rw s g e s' g' :
  sound cfg s → legal cfg acts → length rw = n_agents cfg →
  movement_pass cfg acts rw s g = Raises e s' g' → False.
Proof.
  intros Hs [Hlen Hacts] Hrw H. rewrite movement_pass_body in H.
  apply (fold_enum_Raises (λ _ acc st, sound cfg st ∧ length acc = n_agents cfg)) in H
    as (k & a & acc1 & s1 & g1 & Hk & [Hs1 Hacc1] & H); [| |done].
  - eapply movement_body_safe; [done| | |done|exact H].
    + rewrite <- Hlen. by eapply lookup_lt_Some.
    + by eapply (proj1 (Forall_lookup _ _) Hacts).
  - intros k a acc st gt acc' st' gt' _ [Hst Hacc] Hbody. split.
    + by eapply movement_body_sound.
    + apply movement_body_rewards in Hbody. congruence.
Qed.

Lemma movement_pass_sound acts rw s g rw' s' g' :
  movement_pass cfg acts rw s g = Returns rw' s' g' → sound cfg s →
  sound cfg s' ∧ length rw' = length rw.
Proof.
  rewrite movement_pass_body. intros H Hs.
  apply (foldM_inv (λ _ acc st, sound cfg st ∧ length acc = length rw)
           (movement_body cfg) (zip (seq 0 (length acts)) acts)) with (seen := []) in H;
    [done| |done].
  intros _ slot acc st gt acc' st' gt' [Hst Hacc] Hbody. split.
  - by eapply movement_body_sound.
  - apply movement_body_rewards in Hbody. congruence.
Qed.
End MovementSafety.
Lemma dict_get_key {K V} `{EqDecision K} (k : K) (d : list (K * V)) :
  k ∈ d.*1 → is_Some (dict_get k d).
Proof.
  induction d as [|[k0 v0] d IH]; simpl; [by intros ?%elem_of_nil|].
  intros Hin. destruct (decide (k = k0)); [eauto|].
  apply elem_of_cons in Hin as [?|Hin]; [done|auto].
Qed.

Lemma dict_set_nonempty {K V} `{EqDecision K} (k : K) (v : V) d : dict_set k v d ≠ [].
Proof. destruct d as [|[k0 v0] d]; simpl; [done|]. by case_decide. Qed.

(** ** The arrival pass *)

Section ArrivalSafety.
Context (cfg : config).

Lemma choose_gate_safe k s g e s' g' :
  (k < length (_agents_direction s))%nat →
  choose_gate cfg k s g = Raises e s' g' → False.
Proof.
  intros Hk H. unfold choose_gate, random_choice, put_direction in H.
  crash; try out_of_range.
  - match goal with H : _ !! _ = None |- _ => apply lookup_ge_None in H; rename H into Hge end.
    assert (length (_route_vectors cfg).*1 ≠ 0%nat) as Hne.
    { rewrite length_fmap. unfold _route_vectors.
      intros Hnil%length_zero_iff_nil. by apply dict_set_nonempty in Hnil. }
    match type of Hge with
    | (_ ≤ ?a `mod` _)%nat => pose proof (Nat.mod_upper_bound a _ Hne)
    end. lia.
  - match goal with H : dict_get ?p _ = None, H' : _ !! _ = Some ?p |- _ =>
      apply list_elem_of_lookup_2, dict_get_key in H' as [? ?]; congruence end.
Qed.

Lemma choose_gate_lengths k : frame (keeps lengths) (choose_gate cfg k).
Proof. repeat frame_step_by frame_insert. Qed.

(** A gate that is vacant is taken: the assignments that follow the test,
    which the arrival pass and [__init_full_obs] share but for the turned
    flag. *)
Lemma arrival_attempt_safe k s g e s' g' :
  sound cfg s → (k < n_agents cfg)%nat →
  arrival_attempt cfg k s g = Raises e s' g' → False.
Proof.
  intros [Ht Hz _ _ _] Hk H.
  pose proof (tr_slots _ _ Ht) as Hroad. pose proof (tr_shape _ _ Ht) as Hshape.
  unfold sized, lengths in Hz. injection Hz as Hdones Hturned Hroutes Hdirs Htotals.
  unfold arrival_attempt in H.
  apply bind_Raises_inv in H as [H|(p & s1 & g1 & Hgate & H)].
  { apply choose_gate_safe in H; [done|]. unfold pos in *. lia. }
  pose proof (within_Returns _ _ _ _ _ _ _ _ (choose_gate_lengths k) Hgate) as Hlen.
  apply (within_Returns _ _ _ _ _ _ _ _ (choose_gate_core cfg k)) in Hgate.
  unfold keeps, lengths in Hlen. unfold keeps in Hgate.
  injection Hlen as Hdones1 Hturned1 Hroutes1 Hdirs1 Htotals1.
  injection Hgate as Hgrid1 Hon1 Hpos1.
  apply bind_Raises_inv in H as [H|(free & s2 & g2 & Hfree & H)].
  { apply is_cell_vacant_safe in H; [done|congruence]. }
  apply is_cell_vacant_Returns in Hfree as (-> & -> & ->).
  destruct (vacant cfg s1 p) eqn:Hvac; [|done].
  assert (is_valid cfg p = true) as Hvalid.
  { unfold vacant, empty_at in Hvac. by apply andb_true_iff in Hvac as [? _]. }
  unfold put_pos, add_cars_count, put_on_the_road, put_turned, put_route, random_randint,
    __update_agent_view, get_pos, write_cell in H.
  rewrite <- Hon1 in Hroad. rewrite <- Hgrid1 in Hshape.
  crash; try out_of_range.
  - simpl in *. match goal with H : <[_:=_]> _ !! _ = None |- _ =>
      by rewrite lookup_insert_eq in H end.
  - simpl in *.
    match goal with H : <[_:=_]> _ !! _ = Some _ |- _ =>
      rewrite lookup_insert_eq in H; injection H as <- end.
    match goal with H : grid_set _ _ _ = None |- _ =>
      eapply grid_set_None in H; [done|done|done] end.
Qed.

Lemma arrival_round_sound k s g u s' g' :
  (gate_free ← __is_gate_free cfg;
   on ← (if gate_free : bool then get_on_the_road k else mret true);
   if gate_free && negb on then while_true (arrival_attempt cfg k) else mret tt) s g
    = Returns u s' g' →
  sound cfg s → sound cfg s'.
Proof.
  intros H Hs. unfold __is_gate_free, get_on_the_road in H. run; try done.
  match goal with H : while_true _ _ _ = Returns _ _ _ |- _ => revert H end.
  apply (while_true_inv (λ st, sound cfg st ∧ on_the_road st !! k = Some false)
           (sound cfg));
    [|match goal with H : on_the_road _ !! k = Some ?b |- _ => by destruct b end].
  intros sa ga b sb gb [Hsa Hoff] Hatt.
  destruct (arrival_attempt_sound _ _ _ _ _ _ _ Hatt Hoff Hsa) as [Hsb Hb].
  destruct b; auto.
Qed.

Lemma arrival_pass_sound s g u s' g' :
  arrival_pass cfg s g = Returns u s' g' → sound cfg s → sound cfg s'.
Proof.
  unfold arrival_pass, random_uniform, random_random, get_cars_count. intros H Hs.
  run; [|done].
  match goal with H : for_each _ _ _ _ = Returns _ _ _ |- _ => revert H end.
  apply (for_range_inv (λ _ st, sound cfg st)); [|done].
  intros k st gt ut st' gt' _ Hst Hbody. by eapply arrival_round_sound.
Qed.

Lemma arrival_pass_safe s g e s' g' :
  sound cfg s → arrival_pass cfg s g = Raises e s' g' → False.
Proof.
  unfold arrival_pass, random_uniform, random_random, get_cars_count. intros Hs H.
  crash.
  match goal with H : for_each _ _ _ _ = Raises _ _ _ |- _ =>
    apply (for_range_Raises (λ _ st, sound cfg st)) in H
      as (k & s1 & g1 & Hk & Hs1 & H); [| |done] end.
  - pose proof (tr_slots _ _ (so_tracked _ _ Hs1)) as Hroad.
    unfold __is_gate_free, get_on_the_road in H. crash; try out_of_range.
    match goal with H : while_true _ _ _ = Raises _ _ _ |- _ =>
      apply (while_true_Raises (λ st, sound cfg st ∧ on_the_road st !! k = Some false)) in H
        as (s2 & g2 & [Hs2 _] & H) end.
    + by eapply arrival_attempt_safe.
    + intros sa ga sb gb [Hsa Hoff] Hatt.
      destruct (arrival_attempt_sound _ _ _ _ _ _ _ Hatt Hoff Hsa) as [Hsb Hb]. auto.
    + split; [done|].
      match goal with H : on_the_road _ !! k = Some ?b |- _ => by destruct b end.
  - intros k st gt ut st' gt' _ Hst Hbody. by eapply arrival_round_sound.
Qed.
End ArrivalSafety.

(** ** Departures, the horizon and the rewards *)

Section ClosingPasses.
Context (cfg : config).

Lemma departure_pass_lengths : frame (keeps lengths) (departure_pass cfg).
Proof. repeat frame_step_by frame_insert. Qed.

Lemma departure_pass_sound s g u s' g' :
  departure_pass cfg s g = Returns u s' g' → sound cfg s → sound cfg s'.
Proof.
  intros H [Ht Hz Hp Hh Hr].
  pose proof (within_Returns _ _ _ _ _ _ _ _ departure_pass_lengths H) as Hlen.
  pose proof (within_Returns _ _ _ _ _ _ _ _ (departure_pass_records cfg) H) as Hrec.
  pose proof (within_Returns _ _ _ _ _ _ _ _ (departure_pass_none_enters cfg) H) as Hon.
  unfold keeps in Hlen, Hrec. injection Hrec as Hpos Hroutes Hdir _.
  split.
  - by destruct (departure_pass_tracked _ _ _ _ _ _ H Ht).
  - unfold sized. by rewrite Hlen.
  - by rewrite Hpos.
  - by rewrite Hdir.
  - intros i r Hi. rewrite Hroutes. apply Hr. by apply Hon.
Qed.

Lemma departure_pass_safe s g e s' g' :
  sound cfg s → departure_pass cfg s g = Raises e s' g' → False.
Proof.
  intros [Ht _ Hp _ _] H. unfold departure_pass in H.
  apply (for_range_Raises (λ k st, departing cfg s k st)) in H
    as (k & s1 & g1 & Hk & [Hpos Hshape Hslots _ _] & H).
  - destruct (Hp k Hk) as [p Hk'].
    pose proof (tr_valid _ _ Ht k p Hk') as Hvalid.
    pose proof (tr_slots _ _ Ht) as Hroad.
    unfold __reached_dest, get_pos, write_cell, put_on_the_road, add_cars_count in H.
    crash; try out_of_range; try congruence.
    match goal with H : grid_set _ _ _ = None |- _ =>
      eapply grid_set_None in H; [done|done|congruence] end.
  - intros k st gt ut st' gt' _ Hd Hbody. by eapply departing_round.
  - by apply departing_start.
Qed.

Lemma termination_check_lengths : frame (keeps lengths) (termination_check cfg).
Proof. repeat frame_step_by frame_insert. Qed.

Lemma termination_check_sound s g u s' g' :
  termination_check cfg s g = Returns u s' g' → sound cfg s → sound cfg s'.
Proof.
  intros H.
  pose proof (within_Returns _ _ _ _ _ _ _ _ termination_check_lengths H) as Hlen.
  pose proof (within_Returns _ _ _ _ _ _ _ _ (termination_check_records cfg) H) as Hrec.
  pose proof (within_Returns _ _ _ _ _ _ _ _ (termination_check_core cfg) H) as Hcore.
  unfold keeps in Hlen, Hrec, Hcore. apply (f_equal fst) in Hrec. by apply sound_same.
Qed.

Lemma termination_check_safe s g e s' g' :
  sized cfg s → termination_check cfg s g = Raises e s' g' → False.
Proof.
  intros Hz H. unfold sized, lengths in Hz.
  injection Hz as Hdones _ _ _ _.
  unfold termination_check, get_step_count in H. crash.
  match goal with H : for_each _ _ _ _ = Raises _ _ _ |- _ =>
    apply (for_range_Raises (λ _ st, length (_agent_dones st) = n_agents cfg)) in H
      as (k & s1 & g1 & Hk & Hlen & H); [| |done] end.
  - unfold put_done in H. crash. out_of_range.
  - intros k st gt ut st' gt' _ Hlen Hbody. unfold put_done in Hbody. run. simpl.
    by rewrite length_insert.
Qed.

Lemma reward_finalization_lengths rw : frame (keeps lengths) (reward_finalization cfg rw).
Proof. repeat frame_step_by frame_insert. Qed.

Lemma reward_finalization_sound rw s g rw' s' g' :
  reward_finalization cfg rw s g = Returns rw' s' g' → sound cfg s → sound cfg s'.
Proof.
  intros H.
  pose proof (within_Returns _ _ _ _ _ _ _ _ (reward_finalization_lengths rw) H) as Hlen.
  pose proof (within_Returns _ _ _ _ _ _ _ _ (reward_finalization_records cfg rw) H) as Hrec.
  pose proof (within_Returns _ _ _ _ _ _ _ _ (reward_finalization_core cfg rw) H) as Hcore.
  unfold keeps in Hlen, Hrec, Hcore. apply (f_equal fst) in Hrec. by apply sound_same.
Qed.

Lemma reward_finalization_safe rw s g e s' g' :
  sound cfg s → length rw = n_agents cfg →
  reward_finalization cfg rw s g = Raises e s' g' → False.
Proof.
  intros [Ht Hz _ _ _] Hrw H. pose proof (tr_slots _ _ Ht) as Hroad.
  unfold sized, lengths in Hz. injection Hz as _ _ _ _ Htotals.
  unfold reward_finalization in H.
  apply (fold_range_Raises
           (λ _ acc st, length acc = n_agents cfg ∧
                        length (on_the_road st) = n_agents cfg ∧
                        length (_total_episode_reward st) = n_agents cfg)) in H
    as (k & acc & s1 & g1 & Hk & (Hacc & Hon & Htot) & H); [| |done].
  - unfold get_on_the_road, get_step_count in H. crash; try out_of_range.
  - intros k acc st gt acc' st' gt' _ (Hacc & Hon & Htot) Hbody.
    unfold get_on_the_road, get_step_count in Hbody. run; simpl;
      rewrite ?length_insert; done.
Qed.
End ClosingPasses.

(** ** The observation builder *)

Section ObservationSafety.
Context (cfg : config).

Lemma cell_total grid p m row col :
  shape cfg grid → 0 ≤ row < grid_rows cfg →
  0 ≤ row - (p.1 - 1) < 3 → 0 ≤ col - (p.2 - 1) < 3 →
  is_Some (if decide (0 ≤ col < grid_cols cfg)
           then tag ← grid_get grid (row, col);
                if has_agent tag then np_set m (row - (p.1 - 1)) (col - (p.2 - 1)) 1%Q
                else Some m
           else Some m).
Proof.
  intros Hshape Hrow Ha Hb. case_decide as Hcol; [|done].
  destruct (grid_get_inside cfg grid (row, col) Hshape) as (? & tag & _ & _ & ->).
  { apply is_valid_spec. simpl. lia. }
  simpl. destruct (has_agent tag); [|done].
  unfold np_set. rewrite !py_index_inside by lia. simpl. done.
Qed.

Lemma row_total grid p m row :
  shape cfg grid → 0 ≤ row - (p.1 - 1) < 3 →
  is_Some (if decide (0 ≤ row < grid_rows cfg)
           then fold_opt
                  (λ m col,
                     tag ← grid_get grid (row, col);
                     if has_agent tag
                     then np_set m (row - (p.1 - 1)) (col - (p.2 - 1)) 1%Q
                     else Some m)
                  (range (Z.max 0 (p.2 - 1)) (Z.min (p.2 + 1 + 1) (grid_cols cfg))) m
           else Some m).
Proof.
  intros Hshape Ha. case_decide as Hrow; [|done].
  rewrite range_clip, fold_opt_filter. cbn [fold_opt].
  destruct (cell_total grid p m row (p.2 - 1) Hshape Hrow Ha) as [m1 ->]; [lia|].
  cbn [mbind option_bind].
  destruct (cell_total grid p m1 row p.2 Hshape Hrow Ha) as [m2 ->]; [lia|].
  cbn [mbind option_bind].
  destruct (cell_total grid p m2 row (p.2 + 1) Hshape Hrow Ha) as [m3 ->]; [lia|].
  done.
Qed.

Lemma view_mask_total grid p : shape cfg grid → is_Some (view_mask cfg grid p).
Proof.
  intros Hshape. unfold view_mask.
  rewrite (range_clip p.1), fold_opt_filter. cbn [fold_opt].
  destruct (row_total grid p (replicate 9 0%Q) (p.1 - 1) Hshape) as [m1 ->]; [lia|].
  cbn [mbind option_bind].
  destruct (row_total grid p m1 p.1 Hshape) as [m2 ->]; [lia|].
  cbn [mbind option_bind].
  destruct (row_total grid p m2 (p.1 + 1) Hshape) as [m3 ->]; [lia|].
  cbn [mbind option_bind]. done.
Qed.

Lemma agent_obs_safe i s g e s' g' :
  2 ≤ grid_rows cfg → 2 ≤ grid_cols cfg →
  sound cfg s → (i < n_agents cfg)%nat →
  agent_obs cfg i s g = Raises e s' g' → False.
Proof.
  intros HR HC [Ht _ Hp _ _] Hi H. destruct (Hp i Hi) as [p Hpos].
  unfold agent_obs, get_pos, py_div in H. crash; try congruence.
  - match goal with H : list_set _ _ _ = None |- _ =>
      apply list_set_None in H; rewrite length_replicate in H; lia end.
  - match goal with H : view_mask _ _ ?q = None |- _ =>
      destruct (view_mask_total (_full_obs s) q (tr_shape _ _ Ht)); congruence end.
  - lia.
  - lia.
Qed.

Lemma get_agent_obs_safe s g e s' g' :
  2 ≤ grid_rows cfg → 2 ≤ grid_cols cfg → sound cfg s →
  get_agent_obs cfg s g = Raises e s' g' → False.
Proof.
  intros HR HC Hs H. unfold get_agent_obs in H. crash.
  match goal with H : foldM _ _ _ _ _ = Raises _ _ _ |- _ =>
    apply (fold_range_Raises (λ _ _ st, st = s)) in H
      as (k & acc & s1 & g1 & Hk & -> & H); [| |done] end.
  - crash. by eapply agent_obs_safe.
  - intros k acc st gt acc' st' gt' _ -> Hbody. run.
    match goal with H : agent_obs _ _ _ _ = Returns _ _ _ |- _ =>
      by apply (reader_Returns _ _ _ _ _ _ (agent_obs_reader _ _)) in H as (-> & _) end.
Qed.
End ObservationSafety.

(** ** step *)

Section StepSafety.
Context (cfg : config).

(** Soundness carried along the passes of [step] that returned. *)
Ltac sound_forward :=
  repeat match goal with
         | H : movement_pass _ _ _ _ _ = Returns _ _ _, Hs : sound _ _ |- _ =>
             apply movement_pass_sound in H as [? ?]; [|exact Hs]; clear Hs
         | H : arrival_pass _ _ _ = Returns _ _ _, Hs : sound _ _ |- _ =>
             apply arrival_pass_sound in H; [|exact Hs]; clear Hs
         | H : departure_pass _ _ _ = Returns _ _ _, Hs : sound _ _ |- _ =>
             apply departure_pass_sound in H; [|exact Hs]; clear Hs
         | H : termination_check _ _ _ = Returns _ _ _, Hs : sound _ _ |- _ =>
             apply termination_check_sound in H; [|exact Hs]; clear Hs
         | H : reward_finalization _ _ _ _ = Returns _ _ _, Hs : sound _ _ |- _ =>
             apply reward_finalization_sound in H; [|exact Hs]; clear Hs
         end.

Lemma sound_tick s : sound cfg s → sound cfg (set_step_count (_step_count s + 1) s).
Proof. by apply sound_same. Qed.

Lemma step_sound acts s g res s' g' :
  step cfg acts s g = Returns res s' g' → sound cfg s → sound cfg s'.
Proof.
  intros H Hs. apply sound_tick in Hs. unfold step in H. run.
  framed (observation_pure cfg). subst.
  sound_forward. done.
Qed.

Lemma step_safe acts s g e s' g' :
  2 ≤ grid_rows cfg → 2 ≤ grid_cols cfg → sound cfg s → legal cfg acts →
  step cfg acts s g = Raises e s' g' → False.
Proof.
  intros HR HC Hs Hacts H. apply sound_tick in Hs. pose proof Hacts as [Hlen _].
  unfold step in H. rewrite decide_True in H by done.
  crash.
  - eapply movement_pass_safe; [exact Hs|done| |done]. by rewrite length_replicate.
  - sound_forward. by eapply arrival_pass_safe.
  - sound_forward. by eapply departure_pass_safe.
  - sound_forward. eapply termination_check_safe; [|done]. by eapply so_sized.
  - match goal with H : movement_pass _ _ _ _ _ = Returns ?rw _ _ |- _ =>
      assert (length rw = n_agents cfg) as Hrw
        by (apply movement_pass_sound in H as [_ ->]; [by rewrite length_replicate|done]) end.
    sound_forward. by eapply reward_finalization_safe.
  - sound_forward. by eapply get_agent_obs_safe.
Qed.
End StepSafety.
Lemma foldM_Raises {A B} (body : B → A → M B) l acc s g e s' g' :
  foldM body l acc s g = Raises e s' g' →
  ∃ x acc1 s1 g1, x ∈ l ∧ body acc1 x s1 g1 = Raises e s' g'.
Proof.
  revert acc s g. induction l as [|x l IH]; intros acc s g H; simpl in H; [done|].
  apply bind_Raises_inv in H as [H|(acc1 & s1 & g1 & _ & H)].
  - exists x, acc, s, g. split; [left|done].
  - destruct (IH _ _ _ H) as (y & ? & ? & ? & ? & ?). eexists y, _, _, _. split; [by right|done].
Qed.

(** ** reset and episodes *)

Section ResetSafety.
Context (cfg : config).

Lemma init_attempt_lengths k : frame (keeps lengths) (init_attempt cfg k).
Proof. repeat frame_step_by frame_insert. Qed.

Lemma init_attempt_routed k s g b s' g' :
  init_attempt cfg k s g = Returns b s' g' → routed s → routed s'.
Proof.
  intros H Hr. unfold init_attempt in H.
  apply bind_Returns in H as (p & s1 & g1 & Hgate & H).
  apply choose_gate_effect in Hgate as (d & _ & _ & ->).
  unfold put_pos, add_cars_count, put_on_the_road, put_route, random_randint,
    __update_agent_view, get_pos, get_cars_count, write_cell in H.
  run_cells; simpl in *; intros i r; simpl; [|apply Hr..].
  destruct (decide (i = k)) as [->|Hne].
  - rewrite !list_lookup_insert_eq by done. intros _ [= <-].
    match goal with |- _ ≤ 1 + ?a `mod` ?b ≤ _ =>
      pose proof (Z.mod_pos_bound a b ltac:(lia)) end. lia.
  - rewrite !list_lookup_insert_ne by done. apply Hr.
Qed.

Lemma init_attempt_safe k s g e s' g' :
  1 ≤ grid_rows cfg → 1 ≤ grid_cols cfg →
  tracked cfg s → sized cfg s → (k < n_agents cfg)%nat →
  init_attempt cfg k s g = Raises e s' g' → False.
Proof.
  intros HR HC Ht Hz Hk H.
  pose proof (tr_slots _ _ Ht) as Hroad. pose proof (tr_shape _ _ Ht) as Hshape.
  unfold sized, lengths in Hz. injection Hz as Hdones Hturned Hroutes Hdirs Htotals.
  unfold init_attempt in H.
  apply bind_Raises_inv in H as [H|(p & s1 & g1 & Hgate & H)].
  { apply choose_gate_safe in H; [done|]. unfold pos in *. lia. }
  pose proof (within_Returns _ _ _ _ _ _ _ _ (choose_gate_lengths cfg k) Hgate) as Hlen.
  apply (within_Returns _ _ _ _ _ _ _ _ (choose_gate_core cfg k)) in Hgate.
  unfold keeps, lengths in Hlen. unfold keeps in Hgate.
  injection Hlen as Hdones1 Hturned1 Hroutes1 Hdirs1 Htotals1.
  injection Hgate as Hgrid1 Hon1 Hpos1.
  apply bind_Raises_inv in H as [H|(free & s2 & g2 & Hfree & H)].
  { apply is_cell_vacant_safe in H; [done|congruence]. }
  apply is_cell_vacant_Returns in Hfree as (-> & -> & ->).
  rewrite <- Hon1 in Hroad. rewrite <- Hgrid1 in Hshape.
  assert (is_valid cfg (0, 0) = true) as Horigin by (apply is_valid_spec; simpl; lia).
  destruct (vacant cfg s1 p) eqn:Hvac.
  - assert (is_valid cfg p = true) as Hvalid.
    { unfold vacant, empty_at in Hvac. by apply andb_true_iff in Hvac as [? _]. }
    unfold put_pos, add_cars_count, put_on_the_road, put_route, random_randint,
      __update_agent_view, get_pos, write_cell in H.
    crash; try out_of_range.
    + simpl in *. match goal with H : <[_:=_]> _ !! _ = None |- _ =>
        by rewrite lookup_insert_eq in H end.
    + simpl in *.
      match goal with H : <[_:=_]> _ !! _ = Some _ |- _ =>
        rewrite lookup_insert_eq in H; injection H as <- end.
      match goal with H : grid_set _ _ _ = None |- _ =>
        eapply grid_set_None in H; [done|done|done] end.
  - unfold put_pos, get_cars_count, __update_agent_view, get_pos, write_cell in H.
    crash; try out_of_range.
    + simpl in *. match goal with H : <[_:=_]> _ !! _ = None |- _ =>
        by rewrite lookup_insert_eq in H end.
    + simpl in *.
      match goal with H : <[_:=_]> _ !! _ = Some _ |- _ =>
        rewrite lookup_insert_eq in H; injection H as <- end.
      match goal with H : grid_set _ _ _ = None |- _ =>
        eapply grid_set_None in H; [done|done|done] end.
Qed.

(** The state [reset] hands to [__init_full_obs]. *)
Lemma init_full_obs_sound s g u s' g' :
  on_the_road s = replicate (n_agents cfg) false → agent_pos s = ∅ →
  curr_cars_count s = 0 → sized cfg s →
  __init_full_obs cfg s g = Returns u s' g' → sound cfg s'.
Proof.
  intros Hroad Hpos Hcount Hz H.
  pose proof (init_full_obs_initialised cfg _ _ _ _ _ Hroad Hpos Hcount H)
    as [Ht _ _ _ Hslots].
  assert (frame (keeps lengths) (__init_full_obs cfg)) as Hframe
    by (repeat frame_step_by frame_insert).
  pose proof (within_Returns _ _ _ _ _ _ _ _ Hframe H) as Hlen. unfold keeps in Hlen.
  unfold __init_full_obs in H. run.
  match goal with H : for_each _ _ _ _ = Returns _ _ _ |- _ =>
    apply (for_range_inv (λ k st, headed k (_agents_direction st) ∧ routed st)) in H
      as [Hh Hr] end.
  - split; [done| | |done|done].
    + unfold sized. by rewrite Hlen.
    + intros i Hi. destruct (Hslots i Hi) as [(_ & p & Hp & _)|(_ & Hp & _)];
        eexists; exact Hp.
  - intros k st gt ut st' gt' Hk [Hh Hr].
    apply (while_true_inv (λ st, headed k (_agents_direction st) ∧ routed st)
             (λ st, headed (S k) (_agents_direction st) ∧ routed st)); [|done].
    intros sa ga b sb gb [Ha Hra] Hatt.
    pose proof (init_attempt_routed _ _ _ _ _ _ Hatt Hra) as Hrb.
    apply init_attempt_headed in Hatt; [|done].
    destruct b; (split; [|done]); [done|]. eapply headed_fewer; [|done]. lia.
  - split.
    + intros i d Hi. lia.
    + intros i r. simpl. rewrite Hroad. intros Hi. by apply lookup_replicate in Hi as [? _].
Qed.

Lemma initialised_fresh s grid :
  __create_grid cfg = Some grid →
  on_the_road s = replicate (n_agents cfg) false → agent_pos s = ∅ →
  curr_cars_count s = 0 →
  initialised cfg 0 (set_full_obs grid s).
Proof.
  intros Hgrid Hroad Hpos Hcount.
  apply create_grid_fresh in Hgrid as [Hshape Hfresh]. split.
  - split; simpl.
    + done.
    + by rewrite Hroad, length_replicate.
    + intros i p. by rewrite Hpos, lookup_empty.
    + intros i. rewrite Hroad. intros Hi. by apply lookup_replicate in Hi as [? _].
    + intros i j p. rewrite Hroad. intros Hi. by apply lookup_replicate in Hi as [? _].
  - intros _ p. unfold occupied. simpl. by rewrite Hfresh.
  - intros i _ Hi. simpl. rewrite Hroad. by apply lookup_replicate_2.
  - unfold live_cars. simpl. rewrite Hroad, Hcount.
    clear. induction (n_agents cfg) as [|n IH]; [done|]. simpl. by rewrite filter_cons.
  - intros i Hi. lia.
Qed.

Lemma init_full_obs_safe s g e s' g' :
  2 ≤ grid_rows cfg → 2 ≤ grid_cols cfg →
  on_the_road s = replicate (n_agents cfg) false → agent_pos s = ∅ →
  curr_cars_count s = 0 → sized cfg s →
  __init_full_obs cfg s g = Raises e s' g' → False.
Proof.
  intros HR HC Hroad Hpos Hcount Hz H.
  destruct (create_grid_cells cfg HR HC) as (grid & Hgrid & _ & _).
  unfold __init_full_obs in H. crash; [congruence|].
  match goal with H : for_each _ _ _ _ = Raises _ _ _ |- _ =>
    apply (for_range_Raises (λ k st, initialised cfg k st ∧ sized cfg st)) in H
      as (k & s1 & g1 & Hk & [Hinit Hz1] & H) end.
  - apply (while_true_Raises (λ st, initialised cfg k st ∧ sized cfg st)) in H
      as (s2 & g2 & [[Ht2 _ _ _ _] Hz2] & H); [| |done].
    + eapply (init_attempt_safe k s2); [lia|lia|done|done|done|exact H].
    + intros sa ga sb gb [Ha Hza] Hatt. split.
      * by apply (init_attempt_initialised cfg _ _ _ _ _ _ Hk Ha Hatt).
      * apply (within_Returns _ _ _ _ _ _ _ _ (init_attempt_lengths k)) in Hatt.
        unfold keeps in Hatt. unfold sized. by rewrite Hatt.
  - intros k st gt ut st' gt' Hk [Hinit Hzt].
    apply (while_true_inv (λ st, initialised cfg k st ∧ sized cfg st)
             (λ st, initialised cfg (S k) st ∧ sized cfg st)); [|done].
    intros sa ga b sb gb [Ha Hza] Hatt.
    pose proof (init_attempt_initialised cfg _ _ _ _ _ _ Hk Ha Hatt) as Hb.
    apply (within_Returns _ _ _ _ _ _ _ _ (init_attempt_lengths k)) in Hatt.
    unfold keeps in Hatt. assert (sized cfg sb) by (unfold sized; by rewrite Hatt).
    by destruct b.
  - split; [by apply initialised_fresh|done].
Qed.

Lemma gates_loop_pure :
  frame eq (for_each (_entry_gates cfg)
              (λ _, c ← get_cars_count;
                    if c <=? Z.of_nat (n_max cfg) then _ ← random_random; mret tt
                    else mret tt)).
Proof. frame_auto. Qed.

Lemma reset_prepared s0 :
  sized cfg s0 →
  sized cfg
    (set_agent_pos ∅
       (set_cars_count 0
          (set_agent_turned (replicate (n_agents cfg) false)
             (set_on_the_road (replicate (n_agents cfg) false)
                (set_agent_dones (replicate (n_agents cfg) false)
                   (set_step_count 0
                      (set_total_episode_reward (replicate (n_agents cfg) 0%Q) s0))))))).
Proof.
  unfold sized, lengths. simpl. intros [= _ _ Hroutes Hdirs _].
  by rewrite !length_replicate, Hroutes, Hdirs.
Qed.

Lemma reset_sound s0 g obs s g' :
  sized cfg s0 → reset cfg s0 g = Returns obs s g' → sound cfg s.
Proof.
  intros Hz H. apply reset_prepared in Hz. unfold reset in H. run.
  framed (observation_pure cfg). subst.
  match goal with H : for_each _ _ _ _ = Returns _ _ _ |- _ =>
    apply (within_Returns _ _ _ _ _ _ _ _ gates_loop_pure) in H; subst end.
  match goal with H : __init_full_obs _ _ _ = Returns _ _ _ |- _ =>
    by apply init_full_obs_sound in H end.
Qed.

Lemma reset_safe s0 g e s' g' :
  2 ≤ grid_rows cfg → 2 ≤ grid_cols cfg → sized cfg s0 →
  reset cfg s0 g = Raises e s' g' → False.
Proof.
  intros HR HC Hz H. apply reset_prepared in Hz. unfold reset in H. crash.
  - match goal with H : __init_full_obs _ _ _ = Raises _ _ _ |- _ =>
      by apply init_full_obs_safe in H end.
  - match goal with H : for_each _ _ _ _ = Raises _ _ _ |- _ =>
      unfold for_each in H; apply foldM_Raises in H as (? & ? & ? & ? & _ & H) end.
    unfold get_cars_count, random_random in H. crash.
  - match goal with H : for_each _ _ _ _ = Returns _ _ _ |- _ =>
      apply (within_Returns _ _ _ _ _ _ _ _ gates_loop_pure) in H; subst end.
    match goal with H : __init_full_obs _ _ _ = Returns _ _ _ |- _ =>
      apply init_full_obs_sound in H; [|done..] end.
    by eapply get_agent_obs_safe.
Qed.

Lemma constructed_sized s0 : constructed cfg = Some s0 → sized cfg s0.
Proof.
  unfold constructed. intros H. apply bind_Some in H as (grid & _ & [= <-]).
  unfold sized, lengths. simpl. by rewrite !length_replicate.
Qed.

Lemma episode_safe actions s0 g e s' g' :
  2 ≤ grid_rows cfg → 2 ≤ grid_cols cfg → sized cfg s0 →
  Forall (legal cfg) actions →
  episode cfg actions s0 g = Raises e s' g' → False.
Proof.
  intros HR HC Hz Hacts H. unfold episode in H.
  apply bind_Raises_inv in H as [H|(obs & s1 & g1 & Hreset & H)];
    [by eapply reset_safe|].
  apply reset_sound in Hreset; [|done].
  assert (∀ out, foldM (λ out acts, r ← step cfg acts; mret (out ++ [r])) actions out
                   s1 g1 = Raises e s' g' → False) as Hloop; [|by eapply Hloop].
  clear H. revert s1 g1 Hreset.
  induction Hacts as [|acts actions Hlegal _ IH]; intros s1 g1 Hs1 out H; simpl in H;
    [done|].
  apply bind_Raises_inv in H as [H|(out1 & s2 & g2 & Hstep & H)].
  - crash. by eapply step_safe.
  - run. eapply IH; [|exact H]. by eapply step_sound.
Qed.
End ResetSafety.

(** X15.  Legal actions never raise.  On a grid of at least two rows and two
    columns, an episode on a freshly constructed object ([reset], then one
    [step] per element of [actions]) in which every [step] gets one action
    per slot, each of them GAS (0) or BRAKE (1), raises no exception,
    whatever the generator gives: no index or key is ever out of range, no
    division is by zero, and [__get_next_move] is never asked for route 1. *)
Theorem legal_actions_never_raise cfg actions s0 g :
  2 ≤ grid_rows cfg → 2 ≤ grid_cols cfg → constructed cfg = Some s0 →
  Forall (legal cfg) actions →
  ∀ e s' g', episode cfg actions s0 g ≠ Raises e s' g'.
Proof.
  intros HR HC Hs0 Hacts e s' g' H.
  eapply episode_safe; [exact HR|exact HC| |exact Hacts|exact H].
  by apply constructed_sized.
Qed.

Lemma legal_actions_never_raise_witness :
  ∃ s0 out s g,
    constructed default_config = Some s0 ∧
    Forall (legal default_config) ([0; 1; 1; 1] :: replicate 5 [0; 0; 1; 1]) ∧
    episode default_config ([0; 1; 1; 1] :: replicate 5 [0; 0; 1; 1]) s0
            ([0; 0; 1; 0; 2; 0; 3; 0; 0; 0; 0; 0] ++ replicate 6 (2 ^ 52))%N
      = Returns out s g ∧
    ∀ e s' g',
      episode default_config ([0; 1; 1; 1] :: replicate 5 [0; 0; 1; 1]) s0
              ([0; 0; 1; 0; 2; 0; 3; 0; 0; 0; 0; 0] ++ replicate 6 (2 ^ 52))%N
        ≠ Raises e s' g'.
Proof.
  eexists _, _, _, _.
  match goal with
  | |- ?c ∧ ?legal_acts ∧ ?episode_eq ∧ _ =>
      assert c as Hc by (vm_compute; reflexivity);
      assert legal_acts as Hlegal
        by (repeat (apply Forall_cons; split;
                    [split; [reflexivity|];
                     repeat (apply Forall_cons; split;
                             [first [left; reflexivity | right; reflexivity]|]);
                     apply Forall_nil_2|]);
            apply Forall_nil_2);
      assert episode_eq as Hepisode by (vm_compute; reflexivity)
  end.
  pose proof (legal_actions_never_raise default_config _ _
                ([0; 0; 1; 0; 2; 0; 3; 0; 0; 0; 0; 0] ++ replicate 6 (2 ^ 52))%N
                ltac:(vm_compute; discriminate) ltac:(vm_compute; discriminate)
                Hc Hlegal) as Hsafe.
  exact (conj Hc (conj Hlegal (conj Hepisode Hsafe))).
Defined.
Section Forgetting.
Context (cfg : config).

(** The object as [reset] hands it to the loop of [__init_full_obs]. *)
Lemma reset_from_scratch s0 g :
  reset cfg s0 g =
  match __create_grid cfg with
  | Some grid =>
      (for_each (seq 0 (n_agents cfg)) (λ agent_i, while_true (init_attempt cfg agent_i));;
       for_each (_entry_gates cfg)
         (λ _, c ← get_cars_count;
               if c <=? Z.of_nat (n_max cfg) then _ ← random_random; mret tt else mret tt);;
       get_agent_obs cfg)
        {| _step_count := 0;
           _total_episode_reward := replicate (n_agents cfg) 0%Q;
           curr_cars_count := 0;
           _agent_turned := replicate (n_agents cfg) false;
           _agents_routes := _agents_routes s0;
           _agents_direction := _agents_direction s0;
           agent_pos := ∅;
           on_the_road := replicate (n_agents cfg) false;
           _full_obs := grid;
           _agent_dones := replicate (n_agents cfg) false;
           np_random := np_random s0 |} g
  | None =>
      Raises IndexError
        {| _step_count := 0;
           _total_episode_reward := replicate (n_agents cfg) 0%Q;
           curr_cars_count := 0;
           _agent_turned := replicate (n_agents cfg) false;
           _agents_routes := _agents_routes s0;
           _agents_direction := _agents_direction s0;
           agent_pos := ∅;
           on_the_road := replicate (n_agents cfg) false;
           _full_obs := _full_obs s0;
           _agent_dones := replicate (n_agents cfg) false;
           np_random := np_random s0 |} g
  end.
Proof.
  unfold reset, __init_full_obs, update, gets, modify, mbind, M_bind, bind. simpl.
  destruct (__create_grid cfg); reflexivity.
Qed.
End Forgetting.

(** X16.  [reset] forgets the episode.  On a grid of at least two rows and
    two columns, what [reset] returns, the state it leaves and what it takes
    from the generator depend on the state it starts from only through the
    three attributes it does not assign, [_agents_routes],
    [_agents_direction] and [np_random]: the step counter, the totals, the
    car counter, the flags, the positions and the grid of the episode before
    have no influence. *)
Theorem reset_forgets_the_episode cfg s0 s1 g :
  2 ≤ grid_rows cfg → 2 ≤ grid_cols cfg →
  _agents_routes s0 = _agents_routes s1 →
  _agents_direction s0 = _agents_direction s1 →
  np_random s0 = np_random s1 →
  reset cfg s0 g = reset cfg s1 g.
Proof.
  intros HR HC Hroutes Hdirs Hnp. rewrite !reset_from_scratch.
  destruct (create_grid_cells cfg HR HC) as (grid & -> & _).
  by rewrite Hroutes, Hdirs, Hnp.
Qed.

Lemma reset_forgets_the_episode_witness :
  ∃ c0 out s1 g1 s0,
    constructed default_config = Some c0 ∧
    episode default_config ([0; 1; 1; 1] :: replicate 5 [0; 0; 1; 1]) c0
            ([0; 0; 1; 0; 2; 0; 3; 0; 0; 0; 0; 0] ++ replicate 6 (2 ^ 52))%N
      = Returns out s1 g1 ∧
    s0 = set_agents_routes (_agents_routes s1)
           (set_agents_direction (_agents_direction s1) c0) ∧
    _step_count s1 = 6 ∧ _step_count s0 = 0 ∧
    reset default_config s0 [3; 0; 2; 0; 1; 0; 0; 0; 0; 0; 0; 0]%N =
    reset default_config s1 [3; 0; 2; 0; 1; 0; 0; 0; 0; 0; 0; 0]%N.
Proof.
  eexists _, _, _, _, _.
  match goal with
  | |- ?c ∧ ?episode_eq ∧ ?start ∧ ?count1 ∧ ?count0 ∧ _ =>
      assert c as Hc by (vm_compute; reflexivity);
      assert episode_eq as Hepisode by (vm_compute; reflexivity);
      assert start as Hstart by reflexivity;
      assert count1 as Hcount1 by (vm_compute; reflexivity);
      assert count0 as Hcount0 by (vm_compute; reflexivity)
  end.
  refine (conj Hc (conj Hepisode (conj Hstart (conj Hcount1 (conj Hcount0 _))))).
  apply reset_forgets_the_episode; [vm_compute; discriminate..|reflexivity|reflexivity|reflexivity].
Defined.
Section Stale.
Context (cfg : config).

(** An attempt of the arrival pass that found its gate taken has only
    changed the direction of the slot. *)
Lemma arrival_attempt_failed k s g s' g' :
  arrival_attempt cfg k s g = Returns false s' g' →
  agent_pos s' = agent_pos s ∧ on_the_road s' = on_the_road s.
Proof.
  unfold arrival_attempt. intros H.
  apply bind_Returns in H as (p & s1 & g1 & Hgate & H).
  apply (within_Returns _ _ _ _ _ _ _ _ (choose_gate_core cfg k)) in Hgate.
  unfold keeps in Hgate. injection Hgate as _ Hon Hpos.
  unfold put_pos, add_cars_count, put_on_the_road, put_turned, put_route, random_randint,
    __update_agent_view, get_pos, write_cell in H.
  run_cells; done.
Qed.

(** The arrival pass leaves the recorded position of a slot that is off the
    road after it as it was. *)
Lemma arrival_pass_stale s g u s' g' i :
  arrival_pass cfg s g = Returns u s' g' →
  on_the_road s' !! i = Some false →
  on_the_road s !! i = Some false ∧ agent_pos s' !! i = agent_pos s !! i.
Proof.
  unfold arrival_pass, random_uniform, random_random, get_cars_count. intros H.
  run; [|done].
  match goal with H : for_each _ _ _ _ = Returns _ _ _ |- _ => revert H end.
  apply (for_range_inv
           (λ _ st, on_the_road st !! i = Some false →
                    on_the_road s !! i = Some false ∧ agent_pos st !! i = agent_pos s !! i));
    [|done].
  clear. intros k st gt ut st' gt' _ Hst Hbody.
  unfold __is_gate_free, get_on_the_road in Hbody. run; try done.
  match goal with H : while_true _ _ _ = Returns _ _ _ |- _ => revert H end.
  apply (while_true_inv
           (λ sa, on_the_road sa !! i = Some false →
                  on_the_road s !! i = Some false ∧ agent_pos sa !! i = agent_pos s !! i)
           (λ sa, on_the_road sa !! i = Some false →
                  on_the_road s !! i = Some false ∧ agent_pos sa !! i = agent_pos s !! i));
    [|done].
  intros sa ga b sb gb Ha Hatt.
  assert (on_the_road sb !! i = Some false →
          on_the_road s !! i = Some false ∧ agent_pos sb !! i = agent_pos s !! i) as Hb;
    [|by destruct b].
  intros Hoff. destruct (decide (i = k)) as [->|Hne].
  - destruct b.
    + apply arrival_attempt_arrived in Hatt as [_ Hon]. congruence.
    + apply arrival_attempt_failed in Hatt as [Hpos Hon]. rewrite Hpos. apply Ha. congruence.
  - pose proof (within_Returns _ _ _ _ _ _ _ _ (arrival_attempt_others cfg k) Hatt i Hne)
      as [[= Hpos _ _ _] Hon].
    rewrite Hpos. apply Ha. congruence.
Qed.

(** The movement pass does not touch a slot whose car is off the road. *)
Lemma movement_pass_stale acts rw s g rw' s' g' i :
  tracked cfg s → movement_pass cfg acts rw s g = Returns rw' s' g' →
  on_the_road s !! i = Some false →
  on_the_road s' !! i = Some false ∧ agent_pos s' !! i = agent_pos s !! i.
Proof.
  intros Htr H Hoff.
  pose proof (within_Returns _ _ _ _ _ _ _ _ (movement_pass_frame cfg _ _) H) as Hframe.
  unfold keeps, movement_frame in Hframe. injection Hframe as Hroad _ _ _ _.
  split; [congruence|].
  destruct (movement_pass_effect _ _ _ _ _ _ _ _ Htr H i) as [[Hsame _]|(Hon & _)];
    [done|congruence].
Qed.

(** What a [step] does to the recorded position of a slot whose car is off
    the road: nothing, unless the arrival pass puts the car on the road, on a
    key of [_route_vectors]; the car is then on the road after the step, or
    that key is a destination and the departure pass has taken the car off
    again. *)
Lemma step_stale acts s g res s' g' i :
  tracked cfg s → step cfg acts s g = Returns res s' g' →
  on_the_road s !! i = Some false →
  agent_pos s' !! i = agent_pos s !! i ∨
  ∃ p, agent_pos s' !! i = Some p ∧ p ∈ (_route_vectors cfg).*1 ∧
       (on_the_road s' !! i = Some true ∨ p ∈ _destination cfg).
Proof.
  intros Htr H Hoff. unfold step in H. run. simpl in *.
  match goal with H : movement_pass _ _ _ ?s1 _ = Returns _ _ _ |- _ =>
    assert (tracked cfg s1) as Htr1 by (by apply (tracked_core cfg s));
    destruct (movement_pass_stale _ _ _ _ _ _ _ i Htr1 H Hoff) as [Hoff2 Hpos2];
    apply movement_pass_tracked in H as [Htr2 _]; [|done] end.
  match goal with H : arrival_pass _ _ _ = Returns _ _ _ |- _ =>
    pose proof (arrival_pass_stale _ _ _ _ _ i H) as Hstale;
    pose proof (λ Hon, proj1 (arrival_pass_arrivals cfg _ _ _ _ _ i H Hoff2 Hon)) as Harr;
    apply arrival_pass_tracked in H as [Htr3 _]; [|done] end.
  match goal with H : departure_pass _ _ _ = Returns _ _ _ |- _ =>
    pose proof (within_Returns _ _ _ _ _ _ _ _ (departure_pass_core cfg) H) as Hpos4;
    pose proof (within_Returns _ _ _ _ _ _ _ _ (departure_pass_none_enters cfg) H) as Hnone;
    destruct (departure_pass_departing _ _ _ _ _ _ H Htr3) as [_ _ Hlen Hroad _] end.
  framed (termination_check_core cfg).
  framed (reward_finalization_core cfg _).
  framed (observation_pure cfg). subst.
  repeat match goal with H : keeps _ _ _ |- _ => unfold keeps in H end.
  unfold core in *. simplify_eq/=.
  match goal with
  | Ha : tracked cfg ?s3, Ho : get_agent_obs _ ?sf _ = Returns _ _ _,
    Hd : none_enters ?s3 ?s4 |- _ =>
      assert (agent_pos sf !! i = agent_pos s3 !! i) as Hfinal by congruence;
      assert (on_the_road sf = on_the_road s4) as Hflags by congruence;
      destruct (on_the_road s3 !! i) as [[|]|] eqn:Hon3
  end.
  - right. destruct (Harr eq_refl) as (p & d & r & Hp & Hd & _).
    exists p. split; [congruence|]. split.
    + apply dict_get_elem in Hd. apply list_elem_of_fmap. by exists (p, d).
    + destruct (decide (p ∈ _destination cfg)) as [|Hnot]; [by right|]. left.
      rewrite Hflags. apply Hroad. split; [done|]. intros [_ (q & Hq & Hdest)]. congruence.
  - left. destruct (Hstale eq_refl) as [_ Hsame]. congruence.
  - apply lookup_ge_None in Hon3. apply lookup_lt_Some in Hoff2.
    rewrite (tr_slots _ _ Htr3) in Hon3. rewrite (tr_slots _ _ Htr2) in Hoff2. lia.
Qed.

(** The keys of [_route_vectors] and the destinations are different cells on
    a square grid of side 4 or more. *)
Lemma keys_apart_from_destinations p :
  grid_rows cfg = grid_cols cfg → 4 ≤ grid_rows cfg →
  p ∈ (_route_vectors cfg).*1 → p ∉ _destination cfg.
Proof.
  intros Hsquare Hside. unfold _route_vectors, _destination. rewrite <- Hsquare.
  rewrite !dict_set_key_elem. simpl. rewrite !elem_of_cons, !elem_of_nil.
  pose proof (Z.div_mod (grid_rows cfg) 2 ltac:(lia)).
  pose proof (Z.mod_pos_bound (grid_rows cfg) 2 ltac:(lia)).
  intros [->|[->|[->|[->|[]]]]] [Heq|[Heq|[Heq|[Heq|[]]]]]; injection Heq; lia.
Qed.

(** The list [get_agent_obs] builds, slot by slot, before the mode is looked
    at. *)
Lemma get_agent_obs_entries s g obs s' g' :
  get_agent_obs cfg s g = Returns obs s' g' →
  ∃ per, length per = n_agents cfg ∧
    (∀ i, (i < n_agents cfg)%nat →
          ∃ o, per !! i = Some o ∧ agent_obs cfg i s g = Returns o s g) ∧
    obs = if full_observable cfg then replicate (n_agents cfg) (concat per) else per.
Proof.
  intros H. unfold get_agent_obs in H. apply bind_Returns in H as (per & s1 & g1 & H & Hmode).
  exists per.
  assert (length per = n_agents cfg ∧
          ∀ i, (i < n_agents cfg)%nat →
               ∃ o, per !! i = Some o ∧ agent_obs cfg i s g = Returns o s g) as [Hlen Hper].
  { clear Hmode.
    apply (fold_range_inv
             (λ k acc st, st = s ∧ length acc = k ∧
                          ∀ i, (i < k)%nat →
                               ∃ o, acc !! i = Some o ∧ agent_obs cfg i s g = Returns o s g))
      in H; [by destruct H as (_ & ? & ?)| |split; [done|]; split; [done|]; intros i Hi; lia].
    clear H. intros k acc st gt acc' st' gt' Hk (-> & Hlen & Hacc) Hbody. run.
    match goal with H : agent_obs _ _ _ _ = Returns _ _ _ |- _ =>
      apply (reader_Returns _ _ _ _ _ _ (agent_obs_reader _ _)) in H as (-> & -> & Hk') end.
    split; [done|]. split; [rewrite length_app; simpl; lia|].
    intros i Hi. destruct (decide (i = length acc)) as [->|Hne].
    - eexists. split; [|apply Hk']. rewrite lookup_app_r by lia. by rewrite Nat.sub_diag.
    - destruct (Hacc i ltac:(lia)) as (o & Ho & Hobs). exists o. split; [|done].
      rewrite lookup_app_l by lia. done. }
  split; [done|]. split; [done|]. destruct (full_observable cfg); by run.
Qed.
End Stale.

(** C10.  The recorded position of a car that is off the road is never
    cleared.  After a [reset], a slot that is off the road has recorded
    position (0, 0).  A car that a [step] takes off the road is on a
    destination cell, which remains its recorded position.  A [step] leaves
    the recorded position of a slot whose car is off the road as it is,
    unless the arrival pass puts the car on the road in that step, on a key
    of [_route_vectors]; so a slot that is off the road before and after a
    [step] keeps its recorded position on every grid where no key of
    [_route_vectors] is a destination, as is the case on every square grid
    of side 4 or more.  No [step] removes a recorded position.  The
    observation builder makes an entry for every slot from the slot's
    recorded position, whether or not the car is on the road, with and
    without full observability. *)
Theorem stale_position_kept cfg :
  (∀ s0 g obs s g' i,
     reset cfg s0 g = Returns obs s g' → (i < n_agents cfg)%nat →
     on_the_road s !! i = Some false → agent_pos s !! i = Some (0, 0)) ∧
  (∀ s acts g res s' g' i,
     reachable cfg s → step cfg acts s g = Returns res s' g' →
     (on_the_road s !! i = Some true → on_the_road s' !! i = Some false →
      ∃ p, agent_pos s' !! i = Some p ∧ p ∈ _destination cfg) ∧
     (on_the_road s !! i = Some false →
      agent_pos s' !! i = agent_pos s !! i ∨
      ∃ p, agent_pos s' !! i = Some p ∧ p ∈ (_route_vectors cfg).*1 ∧
           (on_the_road s' !! i = Some true ∨ p ∈ _destination cfg)) ∧
     (on_the_road s !! i = Some false → on_the_road s' !! i = Some false →
      (∀ p, p ∈ (_route_vectors cfg).*1 → p ∉ _destination cfg) →
      agent_pos s' !! i = agent_pos s !! i) ∧
     (is_Some (agent_pos s !! i) →
      ∃ p, agent_pos s' !! i = Some p ∧ is_valid cfg p = true)) ∧
  (grid_rows cfg = grid_cols cfg → 4 ≤ grid_rows cfg →
   ∀ p, p ∈ (_route_vectors cfg).*1 → p ∉ _destination cfg) ∧
  (∀ s g obs s' g',
     get_agent_obs cfg s g = Returns obs s' g' →
     ∃ per, length per = n_agents cfg ∧
       (∀ i, (i < n_agents cfg)%nat →
          ∃ p, agent_pos s !! i = Some p ∧
            per !! i = Some (one_hot (n_agents cfg) i ++
                             neighbourhood_mask cfg (_full_obs s) p ++
                             [(inject_Z p.1 / inject_Z (grid_rows cfg))%Q;
                              (inject_Z p.2 / inject_Z (grid_cols cfg - 1))%Q])) ∧
       obs = if full_observable cfg then replicate (n_agents cfg) (concat per) else per).
Proof.
  split; [|split; [|split]].
  - intros s0 g obs s g' i Hreset Hi Hoff.
    apply reset_Returns in Hreset as ([_ _ _ _ Hslots] & _).
    destruct (Hslots i Hi) as [[Hon _]|(_ & Hpos & _)]; [congruence|done].
  - intros s acts g res s' g' i Hreach Hstep.
    destruct (reachable_tracked _ _ Hreach) as [Htr _].
    split; [|split; [|split]].
    + by eapply step_departed.
    + by eapply step_stale.
    + intros Hoff Hoff' Hapart.
      destruct (step_stale _ _ _ _ _ _ _ i Htr Hstep Hoff)
        as [Hsame|(p & _ & Hkey & [Hon|Hdest])]; [done|congruence|].
      by destruct (Hapart p Hkey).
    + intros Hsome.
      pose proof (within_Returns _ _ _ _ _ _ _ _ (step_keeps_slots cfg acts) Hstep i Hsome)
        as [p Hp].
      destruct (step_tracked _ _ _ _ _ _ _ Hstep Htr) as [Htr' _].
      exists p. split; [done|]. by eapply tr_valid.
  - intros Hsquare Hside p. by apply keys_apart_from_destinations.
  - intros s g obs s' g' Hobs.
    apply get_agent_obs_entries in Hobs as (per & Hlen & Hper & ->).
    exists per. split; [done|]. split; [|done].
    intros i Hi. destruct (Hper i Hi) as (o & Ho & Hagent).
    apply agent_obs_Returns in Hagent as (_ & p & Hp & _ & _ & ->). eauto.
Qed.

Lemma stale_position_kept_witness :
  ∃ s0 out s12 g12 res s13 g13 res' s14 g14,
    constructed default_config = Some s0 ∧
    episode default_config (replicate 12 [0; 1; 1; 1]) s0
            ([0; 0; 1; 0; 2; 0; 3; 0; 0; 0; 0; 0] ++ replicate 14 (2 ^ 52))%N
      = Returns out s12 g12 ∧
    step default_config [0; 1; 1; 1] s12 g12 = Returns res s13 g13 ∧
    step default_config [0; 0; 1; 1] s13 g13 = Returns res' s14 g14 ∧
    on_the_road s12 !! 0%nat = Some true ∧ on_the_road s13 !! 0%nat = Some false ∧
    on_the_road s14 !! 0%nat = Some false ∧
    agent_pos s13 !! 0%nat = Some (7, 13) ∧ (7, 13) ∈ _destination default_config ∧
    agent_pos s14 !! 0%nat = Some (7, 13) ∧
    length (observations res') = 4%nat ∧ is_Some (observations res' !! 0%nat).
Proof.
  eexists _, _, _, _, _, _, _, _, _, _.
  match goal with
  | |- ?c ∧ ?episode_eq ∧ ?step_eq ∧ ?step_eq' ∧ ?on ∧ ?off ∧ ?off' ∧ ?at13 ∧ _ ∧ _ ∧
       ?len ∧ ?entry =>
      assert c as Hc by (vm_compute; reflexivity);
      assert episode_eq as Hepisode by (vm_compute; reflexivity);
      assert step_eq as Hstep by (vm_compute; reflexivity);
      assert step_eq' as Hstep' by (vm_compute; reflexivity);
      assert on as Hon by (vm_compute; reflexivity);
      assert off as Hoff by (vm_compute; reflexivity);
      assert off' as Hoff' by (vm_compute; reflexivity);
      assert at13 as Hat13 by (vm_compute; reflexivity);
      assert len as Hlen by (vm_compute; reflexivity);
      assert entry as Hfirst by (vm_compute; eauto)
  end.
  destruct (stale_position_kept default_config) as (_ & Hsteps & Hapart & Hobs).
  pose proof (episode_reachable _ _ _ _ _ _ _ Hepisode) as Hreach12.
  pose proof (reach_step _ _ _ _ _ _ _ Hreach12 Hstep) as Hreach13.
  destruct (Hsteps _ _ _ _ _ _ 0%nat Hreach12 Hstep) as (Hdeparted & _).
  destruct (Hdeparted Hon Hoff) as (p & Hp & Hdest).
  destruct (Hsteps _ _ _ _ _ _ 0%nat Hreach13 Hstep') as (_ & _ & Hkept & _).
  pose proof (Hkept Hoff Hoff' (Hapart eq_refl ltac:(vm_compute; discriminate))) as Hsame.
  assert (p = (7, 13)) as -> by (injection (eq_trans (eq_sym Hp) Hat13); congruence).
  exact (conj Hc (conj Hepisode (conj Hstep (conj Hstep' (conj Hon (conj Hoff (conj Hoff'
          (conj Hat13 (conj Hdest (conj (eq_trans Hsame Hat13) (conj Hlen Hfirst))))))))))).
Defined.
